(** * FinDash: the categorisation and budget engine of [utils.py]

    A shallow embedding of the decision logic of FinDash (the keyword
    categoriser, the rule engine, the budget reconciler and the summary
    calculators of [utils.py], with the keyword table of [config.py] and the
    budget display arithmetic of [app.py]), and the properties its
    specification states about them.

    Modelling conventions.
    - A Python [str] is a [string] (a sequence of 8-bit characters);
      [str.lower] acts on the letters [A]..[Z].
    - A pandas [DataFrame] is the list of its rows, in row order; a row is a
      record with one field per column of the sheet it is loaded from.
    - A Python [float] amount is an exact rational of [Q]; equality of
      amounts is [Qeq]. The properties stated of amounts are those that do
      not depend on how an addition rounds; where a claim does depend on
      it, the functions are taken over an arithmetic that is left open, of
      which binary64 is an instance.

    The development then follows the data through the rest of the
    application: the sheets [db_manager.py] reads and writes, the validators
    and the session of [auth.py], and the actions of the pages of [app.py].
    - A sheet is the list of its rows, below a header row; the calls to the
      Sheets service succeed.
    - The time of a call, the identifier [uuid4] draws and the hash
      [bcrypt] makes are parameters of the functions that use them. *)

From Stdlib Require Import String Ascii List Bool Arith ZArith QArith Qabs.
From Stdlib Require Import DecimalString.
From Stdlib Require OrderedTypeEx.
From Stdlib Require Import Lia Lqa Sorted Permutation.
From Stdlib Require Import Floats.
Import ListNotations.

Open Scope string_scope.

(** ** Python strings *)

Module PyStr.

(** [c.lower()] for one character. *)
Definition lower_ascii (c : ascii) : ascii :=
  let n := nat_of_ascii c in
  if (65 <=? n)%nat && (n <=? 90)%nat then ascii_of_nat (n + 32) else c.

(** [s.lower()] *)
Fixpoint lower (s : string) : string :=
  match s with
  | EmptyString => EmptyString
  | String c s' => String (lower_ascii c) (lower s')
  end.

(** [s.startswith(p)] *)
Definition startswith (s p : string) : bool := String.prefix p s.

(** [sub in s]: [sub] starts at some position of [s]. *)
Fixpoint str_in (sub s : string) : bool :=
  if String.prefix sub s then true
  else match s with
       | EmptyString => false
       | String _ s' => str_in sub s'
       end.

(** [s.endswith(p)]: [p] is what is left of [s] from some position on. *)
Fixpoint endswith (s p : string) : bool :=
  if String.eqb s p then true
  else match s with
       | EmptyString => false
       | String _ s' => endswith s' p
       end.

(** What the three tests mean, as decompositions of [s]. *)
Definition is_prefix (p s : string) : Prop := exists post, s = p ++ post.
Definition is_suffix (p s : string) : Prop := exists pre, s = pre ++ p.
Definition is_substring (sub s : string) : Prop :=
  exists pre post, s = pre ++ sub ++ post.

End PyStr.
Import PyStr.

(** ** Configuration ([config.py]) *)

(** [CATEGORY_KEYWORDS]: a dict literal, iterated in the order it is written. *)
Definition CATEGORY_KEYWORDS : list (string * list string) :=
  [ ("Income", ["salary"; "paycheck"; "deposit"; "income"; "payment received"]);
    ("Food & Dining", ["restaurant"; "cafe"; "starbucks"; "mcdonald"; "chipotle";
                       "pizza"; "uber eats"; "doordash"; "grubhub"]);
    ("Groceries", ["whole foods"; "trader joe"; "safeway"; "kroger"; "walmart";
                   "target"; "grocery"; "market"]);
    ("Transportation", ["uber"; "lyft"; "taxi"; "transit"; "metro"; "bus";
                        "train"; "parking"]);
    ("Gas & Fuel", ["shell"; "chevron"; "exxon"; "mobil"; "bp"; "gas"; "fuel"]);
    ("Shopping", ["amazon"; "ebay"; "etsy"; "target"; "walmart"; "costco";
                  "best buy"]);
    ("Entertainment", ["netflix"; "spotify"; "hulu"; "disney"; "movie";
                       "theater"; "steam"; "playstation"]);
    ("Bills & Utilities", ["electric"; "water"; "internet"; "phone"; "verizon";
                           "at&t"; "comcast"; "utility"]);
    ("Healthcare", ["pharmacy"; "doctor"; "hospital"; "medical"; "cvs";
                    "walgreens"; "health"]);
    ("Travel", ["airline"; "hotel"; "airbnb"; "booking"; "expedia"; "flight"]);
    ("Personal Care", ["salon"; "spa"; "gym"; "fitness"; "haircut"]);
    ("Transfer", ["transfer"; "venmo"; "paypal"; "zelle"; "cash app"]) ].

(** ** Keyword categoriser ([auto_categorize_transaction]) *)

(** The inner loop: [for keyword in keywords: if keyword.lower() in
    payee_lower: return category]; [true] when it returns. *)
Fixpoint keyword_loop (keywords : list string) (payee_lower : string) : bool :=
  match keywords with
  | [] => false
  | keyword :: rest =>
      if str_in (lower keyword) payee_lower then true
      else keyword_loop rest payee_lower
  end.

(** The outer loop over [CATEGORY_KEYWORDS.items()]; [Some category] when an
    inner loop returns, [None] when the loop runs to its end. *)
Fixpoint category_loop (items : list (string * list string))
    (payee_lower : string) : option string :=
  match items with
  | [] => None
  | (category, keywords) :: rest =>
      if keyword_loop keywords payee_lower then Some category
      else category_loop rest payee_lower
  end.

Definition auto_categorize_transaction (payee : string) : string :=
  if String.eqb payee "" then "Uncategorized"
  else
    let payee_lower := lower payee in
    match category_loop CATEGORY_KEYWORDS payee_lower with
    | Some category => category
    | None => "Uncategorized"
    end.

(** A table entry has a match when one of its keywords, lower-cased, occurs
    in the lower-cased payee. *)
Definition keyword_match (payee : string) (entry : string * list string) : Prop :=
  exists keyword,
    In keyword (snd entry) /\ is_substring (lower keyword) (lower payee).

(** ** Numbers and dates *)

(** [x < y] on amounts, as a test. *)
Definition Qltb (x y : Q) : bool := negb (Qle_bool y x).

(** [sum()] of a column, added up in row order from [0]. *)
Definition Qsum (l : list Q) : Q := fold_left Qplus l 0%Q.

(** A calendar date, as a [Timestamp] at midnight holds it. *)
Record timestamp : Type := mkTimestamp { year : Z; month : Z; day : Z }.

(** The last decimal digit of a number, as a character. *)
Definition digit (n : Z) : ascii := ascii_of_nat (Z.to_nat (48 + n mod 10)).

(** [%m] and [%Y]: two and four digits, padded with zeros. *)
Definition pad2 (n : Z) : string :=
  String (digit (n / 10)) (String (digit n) EmptyString).
Definition pad4 (n : Z) : string :=
  String (digit (n / 1000)) (String (digit (n / 100)) (pad2 n)).

(** [d.strftime("%Y-%m")], the [MONTH_YEAR_FORMAT] of [config.py]. *)
Definition strftime_month_year (d : timestamp) : string :=
  pad4 (year d) ++ "-" ++ pad2 (month d).

(** [str(d)] for a [Timestamp] at midnight. *)
Definition str_timestamp (d : timestamp) : string :=
  pad4 (year d) ++ "-" ++ pad2 (month d) ++ "-" ++ pad2 (day d) ++ " 00:00:00".

(** ** Data model: the rows of the sheets *)

(** The value of one cell of a transaction row: text, a number (the [amount]
    column after [pd.to_numeric]) or a date (the [date] column after
    [pd.to_datetime]). *)
Inductive cell : Type :=
| CStr (s : string)
| CNum (q : Q)
| CDate (d : timestamp).

(** A row of the [Transactions] sheet. *)
Module Transaction.
Record t : Type := mk {
  user_id : string;
  transaction_id : string;
  date : timestamp;
  payee : string;
  amount : Q;
  category : string;
  account_name : string;
  account_id : string;
  notes : string;
  pending : string;
  created_at : string;
  modified_at : string
}.

(** The row as a [Series]: its index (the column names) and its values. *)
Definition items (r : t) : list (string * cell) :=
  [ ("user_id", CStr (user_id r));
    ("transaction_id", CStr (transaction_id r));
    ("date", CDate (date r));
    ("payee", CStr (payee r));
    ("amount", CNum (amount r));
    ("category", CStr (category r));
    ("account_name", CStr (account_name r));
    ("account_id", CStr (account_id r));
    ("notes", CStr (notes r));
    ("pending", CStr (pending r));
    ("created_at", CStr (created_at r));
    ("modified_at", CStr (modified_at r)) ].

(** [expenses['amount'] = ...]: the row with its amount replaced. *)
Definition set_amount (r : t) (a : Q) : t :=
  mk (user_id r) (transaction_id r) (date r) (payee r) a (category r)
     (account_name r) (account_id r) (notes r) (pending r) (created_at r)
     (modified_at r).
End Transaction.

(** A row of the [User_Rules] sheet. *)
Module Rule.
Record t : Type := mk {
  user_id : string;
  rule_id : string;
  priority : Z;
  rule_field : string;
  rule_condition : string;
  rule_value : string;
  rule_category : string;
  created_at : string
}.
End Rule.

(** A row of the [Budget_Monthly] sheet. *)
Module Budget.
Record t : Type := mk {
  user_id : string;
  month_year : string;
  category : string;
  budgeted : Q;
  spent : Q;
  last_updated : string
}.

(** [result['spent'] = ...]: the row with its [spent] column replaced. *)
Definition set_spent (r : t) (s : Q) : t :=
  mk (user_id r) (month_year r) (category r) (budgeted r) s (last_updated r).
End Budget.

(** [series.get(key, default)]: the value under [key], or [default] when the
    index has no such key. *)
Fixpoint lookup {A : Type} (key : string) (items : list (string * A)) : option A :=
  match items with
  | [] => None
  | (k, v) :: rest => if String.eqb key k then Some v else lookup key rest
  end.

Definition series_get (r : Transaction.t) (key : string) (default : cell) : cell :=
  match lookup key (Transaction.items r) with
  | Some v => v
  | None => default
  end.

(** ** Rule engine ([apply_rule], [apply_rules_to_transactions]) *)

Section RuleEngine.

(** [str(x)] for a number is Python's own rendering of a float; the rule
    engine is defined for whatever text it produces. *)
Variable float_repr : Q -> string.

(** [str(v)] for the value of a cell. *)
Definition py_str (v : cell) : string :=
  match v with
  | CStr s => s
  | CNum q => float_repr q
  | CDate d => str_timestamp d
  end.

Definition apply_rule (transaction : Transaction.t) (rule : Rule.t) : bool :=
  let field_value :=
    lower (py_str (series_get transaction (Rule.rule_field rule) (CStr ""))) in
  let rule_value := lower (Rule.rule_value rule) in
  let condition := Rule.rule_condition rule in
  if String.eqb condition "contains" then str_in rule_value field_value
  else if String.eqb condition "equals" then String.eqb field_value rule_value
  else if String.eqb condition "starts_with" then startswith field_value rule_value
  else if String.eqb condition "ends_with" then endswith field_value rule_value
  else false.

(** The inner loop over [rules_df.iterrows()] for one transaction, threading
    the [updates] list: at the first rule that applies it appends the update
    when the category changes, and breaks either way. *)
Fixpoint rules_loop (txn : Transaction.t) (rules : list Rule.t)
    (updates : list (string * string)) : list (string * string) :=
  match rules with
  | [] => updates
  | rule :: rest =>
      if apply_rule txn rule then
        if negb (String.eqb (Transaction.category txn) (Rule.rule_category rule))
        then updates ++ [(Transaction.transaction_id txn, Rule.rule_category rule)]
        else updates
      else rules_loop txn rest updates
  end.

(** The outer loop over [transactions_df.iterrows()], from [updates = []]. *)
Definition apply_rules_to_transactions (transactions_df : list Transaction.t)
    (rules_df : list Rule.t) : list (string * string) :=
  fold_left (fun updates txn => rules_loop txn rules_df updates)
            transactions_df [].

(** What the specification says one transaction contributes: the category of
    the first rule that applies, unless the transaction already has it. *)
Definition update_for (rules_df : list Rule.t) (txn : Transaction.t)
  : list (string * string) :=
  match find (apply_rule txn) rules_df with
  | Some rule =>
      if String.eqb (Transaction.category txn) (Rule.rule_category rule)
      then []
      else [(Transaction.transaction_id txn, Rule.rule_category rule)]
  | None => []
  end.

End RuleEngine.

(** Rules in the order [load_user_rules] returns them: ascending priority. *)
Definition sorted_by_priority (rules_df : list Rule.t) : Prop :=
  Sorted (fun a b => (Rule.priority a <= Rule.priority b)%Z) rules_df.

(** The conditions [apply_rule] knows. *)
Definition known_conditions : list string :=
  ["contains"; "equals"; "starts_with"; "ends_with"].

(** ** pandas: grouping, ranking, slicing *)

(** One step of [groupby(key)[col].sum()]: the row [(key, v)] joins its group,
    or opens one at its place among the keys, which pandas keeps in ascending
    order ([sort=True], the default of [groupby]). *)
Fixpoint group_add (key : string) (v : Q) (groups : list (string * Q))
  : list (string * Q) :=
  match groups with
  | [] => [(key, v)]
  | (k, s) :: rest =>
      match String.compare key k with
      | Eq => (k, (s + v)%Q) :: rest
      | Lt => (key, v) :: (k, s) :: rest
      | Gt => (k, s) :: group_add key v rest
      end
  end.

(** [groupby(key)[col].sum()] over the rows [(key, value)], in row order. *)
Definition groupby_sum (rows : list (string * Q)) : list (string * Q) :=
  fold_left (fun groups row => group_add (fst row) (snd row) groups) rows [].

(** Placing one entry in a ranking that is already in descending order: before
    the first entry that is not larger. *)
Fixpoint rank_insert (x : string * Q) (ranked : list (string * Q))
  : list (string * Q) :=
  match ranked with
  | [] => [x]
  | y :: rest =>
      if Qle_bool (snd y) (snd x) then x :: y :: rest
      else y :: rank_insert x rest
  end.

(** [series.sort_values(ascending=False)]. The call leaves [kind] at the
    default of pandas, which promises no order among equal values; the model
    takes the order a stable sort gives (equal values keep the order they
    have in the series). *)
Fixpoint sort_values_desc (series : list (string * Q)) : list (string * Q) :=
  match series with
  | [] => []
  | x :: rest => rank_insert x (sort_values_desc rest)
  end.

(** [series.head(n)]: the first [n] entries, or all but the last [-n] when
    [n] is negative. *)
Definition head {A : Type} (n : Z) (l : list A) : list A :=
  if (0 <=? n)%Z then firstn (Z.to_nat n) l
  else firstn (length l - Z.to_nat (- n)) l.

(** The keys of a grouped series are in strictly ascending order. *)
Definition keys_ascending (groups : list (string * Q)) : Prop :=
  StronglySorted (fun x y => String.compare (fst x) (fst y) = Lt) groups.

(** [series.get(key)] with [fillna(0)]. *)
Definition total_of (key : string) (groups : list (string * Q)) : Q :=
  match lookup key groups with
  | Some s => s
  | None => 0%Q
  end.

(** ** Budget reconciler ([calculate_budget_progress]) *)

Definition is_expense (t : Transaction.t) : bool :=
  Qltb (Transaction.amount t) 0.

Definition calculate_budget_progress (budgets_df : list Budget.t)
    (transactions_df : list Transaction.t) : list Budget.t :=
  let spending :=
    groupby_sum
      (map (fun t => (Transaction.category t, Transaction.amount t))
           (filter is_expense transactions_df)) in
  let result := budgets_df in
  map (fun b =>
         Budget.set_spent b
           match lookup (Budget.category b) spending with
           | Some s => s
           | None => 0%Q
           end)
      result.

(** The amounts of the expenses of one category, in row order. *)
Definition expenses_in (category : string) (transactions_df : list Transaction.t)
  : list Q :=
  map Transaction.amount
      (filter (fun t => is_expense t
                        && String.eqb (Transaction.category t) category)
              transactions_df).

(** The figures [show_budgets_page] derives from a row of the result. *)
Record budget_figures : Type := mkFigures {
  shown_spent : Q;
  remaining : Q;
  percent : Q
}.

Definition budget_display (budget : Budget.t) : budget_figures :=
  let budgeted := Budget.budgeted budget in
  let spent := Qabs (Budget.spent budget) in
  let remaining := (budgeted - spent)%Q in
  let percent := if Qltb 0 budgeted then (spent / budgeted * 100)%Q else 0%Q in
  mkFigures spent remaining percent.

(** ** Trend ([calculate_trend]) *)

Definition calculate_trend (current previous : Q) : Q * string :=
  if Qeq_bool previous 0 then (0%Q, "neutral")
  else
    let change := ((current - previous) / Qabs previous * 100)%Q in
    let direction :=
      if Qltb 0 change then "up"
      else if Qltb change 0 then "down"
      else "neutral" in
    (Qabs change, direction).

(** ** Top merchants ([get_top_merchants]) *)

(** A row of the frame [get_top_merchants] returns. *)
Record merchant_row : Type := mkMerchant {
  Merchant : string;
  Total_Spent : Q
}.

(** [get_top_merchants] with the ranking step left open. *)
Definition top_merchants_by
    (ranking : list (string * Q) -> list (string * Q))
    (df : list Transaction.t) (n : Z) : list merchant_row :=
  let expenses :=
    map (fun t => Transaction.set_amount t (Qabs (Transaction.amount t)))
        (filter is_expense df) in
  let top :=
    head n
      (ranking
         (groupby_sum
            (map (fun t => (Transaction.payee t, Transaction.amount t))
                 expenses))) in
  map (fun e => mkMerchant (fst e) (snd e)) top.

Definition get_top_merchants (df : list Transaction.t) (n : Z)
  : list merchant_row :=
  top_merchants_by sort_values_desc df n.

(** The payees of the expenses of a frame, in row order. *)
Definition expense_payees (df : list Transaction.t) : list string :=
  map Transaction.payee (filter is_expense df).

(** The place of the first occurrence of a payee in a list of payees. *)
Fixpoint first_index (p : string) (payees : list string) : nat :=
  match payees with
  | [] => 0
  | q :: rest => if String.eqb p q then 0 else S (first_index p rest)
  end.

(** The rows are in descending order of "Total Spent". *)
Definition ranked_descending (top : list merchant_row) : Prop :=
  StronglySorted (fun a b => Total_Spent b <= Total_Spent a)%Q top.

(** Of two rows with equal "Total Spent", the one that comes first is the
    one whose payee has the earlier first expense in the frame. *)
Definition ties_in_insertion_order (df : list Transaction.t)
    (top : list merchant_row) : Prop :=
  forall i j a b,
    (i < j)%nat ->
    nth_error top i = Some a ->
    nth_error top j = Some b ->
    (Total_Spent a == Total_Spent b)%Q ->
    (first_index (Merchant a) (expense_payees df)
     < first_index (Merchant b) (expense_payees df))%nat.

(** The absolute amounts of the expenses of one payee, in row order. *)
Definition spent_at (payee : string) (df : list Transaction.t) : list Q :=
  map (fun t => Qabs (Transaction.amount t))
      (filter (fun t => is_expense t
                        && String.eqb (Transaction.payee t) payee) df).

(** The number of distinct payees among the expenses of a frame. *)
Definition distinct_expense_payees (df : list Transaction.t) : nat :=
  length (nodup string_dec (expense_payees df)).

(** ** Monthly summary ([calculate_monthly_summary]) *)

Record summary : Type := mkSummary {
  income : Q;
  expenses : Q;
  net : Q;
  transaction_count : nat;
  avg_transaction : Q
}.

(** [col.mean()]: the sum over the number of rows. *)
Definition Qmean (l : list Q) : Q :=
  (Qsum l / inject_Z (Z.of_nat (length l)))%Q.

Definition calculate_monthly_summary (df : list Transaction.t)
    (month_year : string) : summary :=
  let month_df :=
    filter (fun t =>
              String.eqb (strftime_month_year (Transaction.date t)) month_year)
           df in
  if (length month_df =? 0)%nat then mkSummary 0 0 0 0 0
  else
    let income :=
      Qsum (map Transaction.amount
                (filter (fun t => Qltb 0 (Transaction.amount t)) month_df)) in
    let expenses :=
      Qabs (Qsum (map Transaction.amount
                      (filter (fun t => Qltb (Transaction.amount t) 0) month_df))) in
    let net := (income - expenses)%Q in
    let count := length month_df in
    let avg := Qmean (map Transaction.amount month_df) in
    mkSummary income expenses net count avg.

(** A transaction falls in a period when its date is rendered as that
    year-month. *)
Definition in_period (month_year : string) (t : Transaction.t) : bool :=
  String.eqb (strftime_month_year (Transaction.date t)) month_year.

(** ** Sample rows *)

(** [str(x)] for a whole amount: [str(-54.0)] is ["-54.0"]. *)
Definition float_repr_whole (q : Q) : string :=
  NilZero.string_of_int (Z.to_int (Qnum q / Zpos (Qden q))) ++ ".0".

Definition sample_txn (id payee : string) (amount : Q) (category : string)
  : Transaction.t :=
  Transaction.mk "u1" id (mkTimestamp 2025 1 15) payee amount category
                 "Checking" "acct-1" "" "FALSE" "2025-01-15 09:00:00"
                 "2025-01-15 09:00:00".

Definition sample_rule (priority : Z) (field condition value category : string)
  : Rule.t :=
  Rule.mk "u1" "rule-1" priority field condition value category
          "2025-01-01 00:00:00".

(** Two payees with equal expenses, the later in the alphabet first. *)
Definition tied_frame : list Transaction.t :=
  [ sample_txn "t1" "Bakery" (-5) "Food & Dining";
    sample_txn "t2" "Arcade" (-5) "Entertainment" ].

(** ** More of the configuration ([config.py]) *)

(** [DEFAULT_CATEGORIES] *)
Definition DEFAULT_CATEGORIES : list string :=
  [ "Uncategorized"; "Income"; "Food & Dining"; "Groceries"; "Transportation";
    "Gas & Fuel"; "Shopping"; "Entertainment"; "Bills & Utilities";
    "Healthcare"; "Travel"; "Personal Care"; "Education";
    "Gifts & Donations"; "Investments"; "Transfer"; "Other" ].

(** The place of a category among the entries of [CATEGORY_KEYWORDS]; the
    number of entries for a category that has none. *)
Definition category_rank (category : string) : nat :=
  first_index category (map fst CATEGORY_KEYWORDS).

(** The place, in the table, of what the outer loop returns. *)
Definition loop_rank (items : list (string * list string))
    (result : option string) : nat :=
  match result with
  | Some c => first_index c (map fst items)
  | None => length items
  end.

(** ** The Transactions sheet ([db_manager.py])

    The worksheet is its header row (row 1) and, below it, one row per
    transaction, as [load_user_transactions] reads them. The calls to the
    Sheets service are taken to succeed. *)

Record transactions_sheet : Type := mkSheet {
  header : list string;
  data : list Transaction.t
}.

(** gspread hands a column over without the empty cells at its end. *)
Fixpoint drop_trailing_empty (cells : list string) : list string :=
  match cells with
  | [] => []
  | c :: rest =>
      match drop_trailing_empty rest with
      | [] => if String.eqb c "" then [] else [c]
      | kept => c :: kept
      end
  end.

(** [transactions_sheet.col_values(2)]: column B, the header cell first. *)
Definition col_values_B (sheet : transactions_sheet) : list string :=
  drop_trailing_empty
    (nth 1 (header sheet) "" :: map Transaction.transaction_id (data sheet)).

(** [cells.index(x)]: the place of the first [x], [None] for [ValueError]. *)
Fixpoint py_index (x : string) (cells : list string) : option nat :=
  match cells with
  | [] => None
  | c :: rest =>
      if String.eqb c x then Some 0%nat else option_map S (py_index x rest)
  end.

(** The two columns the updates write: F (category) and L (modified_at). *)
Inductive column : Type := ColF | ColL.

Definition column_place (c : column) : nat :=
  match c with ColF => 5%nat | ColL => 11%nat end.

Definition set_category (r : Transaction.t) (category : string) : Transaction.t :=
  Transaction.mk (Transaction.user_id r) (Transaction.transaction_id r)
    (Transaction.date r) (Transaction.payee r) (Transaction.amount r)
    category (Transaction.account_name r) (Transaction.account_id r)
    (Transaction.notes r) (Transaction.pending r) (Transaction.created_at r)
    (Transaction.modified_at r).

Definition set_modified_at (r : Transaction.t) (modified_at : string)
  : Transaction.t :=
  Transaction.mk (Transaction.user_id r) (Transaction.transaction_id r)
    (Transaction.date r) (Transaction.payee r) (Transaction.amount r)
    (Transaction.category r) (Transaction.account_name r)
    (Transaction.account_id r) (Transaction.notes r) (Transaction.pending r)
    (Transaction.created_at r) modified_at.

Definition set_column (c : column) (v : string) (r : Transaction.t)
  : Transaction.t :=
  match c with
  | ColF => set_category r v
  | ColL => set_modified_at r v
  end.

(** Writing the cell at place [n] of a row of text, the row growing with
    empty cells when it is shorter. *)
Fixpoint set_nth (n : nat) (v : string) (cells : list string) : list string :=
  match n, cells with
  | O, [] => [v]
  | O, _ :: rest => v :: rest
  | S n', [] => "" :: set_nth n' v []
  | S n', c :: rest => c :: set_nth n' v rest
  end.

(** Changing the row at place [n] of the data rows. *)
Fixpoint update_row (n : nat) (f : Transaction.t -> Transaction.t)
    (rows : list Transaction.t) : list Transaction.t :=
  match rows, n with
  | [], _ => []
  | r :: rest, O => f r :: rest
  | r :: rest, S n' => r :: update_row n' f rest
  end.

(** [update_cell(row_index, col, v)], and one entry [{'range': 'F7', 'values':
    [[v]]}] of a batch: rows are counted from 1, row 1 is the header. The
    rows written here come from [col_values_B], so they exist. *)
Definition write_cell (c : column) (row_index : nat) (v : string)
    (sheet : transactions_sheet) : transactions_sheet :=
  match row_index with
  | O => sheet
  | S O => mkSheet (set_nth (column_place c) v (header sheet)) (data sheet)
  | S (S k) => mkSheet (header sheet) (update_row k (set_column c v) (data sheet))
  end.

(** [update_transaction_category]; [modified_at] is the time of the call, as
    text. The result is what the function returns and the sheet it leaves. *)
Definition update_transaction_category (sheet : transactions_sheet)
    (modified_at transaction_id category : string)
  : bool * transactions_sheet :=
  let transaction_ids := col_values_B sheet in
  match py_index transaction_id transaction_ids with
  | None => (false, sheet)
  | Some i =>
      let row_index := (i + 1)%nat in
      (true,
       write_cell ColL row_index modified_at
         (write_cell ColF row_index category sheet))
  end.

(** The loop of [batch_update_transaction_categories] that prepares the batch:
    two cells for each update whose id is in column B, none for the others. *)
Fixpoint prepare_batch (transaction_ids : list string) (modified_at : string)
    (updates : list (string * string)) : list (column * nat * string) :=
  match updates with
  | [] => []
  | (txn_id, category) :: rest =>
      match py_index txn_id transaction_ids with
      | Some i =>
          let row_index := (i + 1)%nat in
          (ColF, row_index, category) :: (ColL, row_index, modified_at)
          :: prepare_batch transaction_ids modified_at rest
      | None => prepare_batch transaction_ids modified_at rest
      end
  end.

(** [transactions_sheet.batch_update(batch_updates)]: the cells are written
    in the order of the list. *)
Definition batch_update (batch_updates : list (column * nat * string))
    (sheet : transactions_sheet) : transactions_sheet :=
  fold_left (fun s u => write_cell (fst (fst u)) (snd (fst u)) (snd u) s)
            batch_updates sheet.

Definition batch_update_transaction_categories (sheet : transactions_sheet)
    (modified_at : string) (updates : list (string * string))
  : bool * transactions_sheet :=
  let transaction_ids := col_values_B sheet in
  let batch_updates := prepare_batch transaction_ids modified_at updates in
  (true,
   match batch_updates with
   | [] => sheet
   | _ :: _ => batch_update batch_updates sheet
   end).

(** [a >= b] on dates. *)
Definition timestamp_geb (a b : timestamp) : bool :=
  if (year a =? year b)%Z
  then if (month a =? month b)%Z then (day b <=? day a)%Z
       else (month b <? month a)%Z
  else (year b <? year a)%Z.

(** Placing one row among rows that are in descending order of date: before
    the first row that is not later. *)
Fixpoint date_insert (t : Transaction.t) (sorted : list Transaction.t)
  : list Transaction.t :=
  match sorted with
  | [] => [t]
  | u :: rest =>
      if timestamp_geb (Transaction.date t) (Transaction.date u)
      then t :: u :: rest
      else u :: date_insert t rest
  end.

(** [df.sort_values('date', ascending=False)]; as for [sort_values_desc], the
    order among equal dates is the one a stable sort gives. *)
Fixpoint sort_by_date_desc (df : list Transaction.t) : list Transaction.t :=
  match df with
  | [] => []
  | t :: rest => date_insert t (sort_by_date_desc rest)
  end.

(** [load_user_transactions]: the rows of the user, most recent first. *)
Definition load_user_transactions (sheet : transactions_sheet)
    (user_id : string) : list Transaction.t :=
  let df :=
    filter (fun t => String.eqb (Transaction.user_id t) user_id) (data sheet) in
  sort_by_date_desc df.

(** The identifiers of the sheet are distinct, none is empty and none is the
    text of the header cell of their column. *)
Definition distinct_ids (sheet : transactions_sheet) : Prop :=
  NoDup (map Transaction.transaction_id (data sheet)) /\
  ~ In "" (map Transaction.transaction_id (data sheet)) /\
  ~ In (nth 1 (header sheet) "") (map Transaction.transaction_id (data sheet)).

(** A row with its category and its modification time blanked: what the
    updates of categories leave alone. *)
Definition without_category (r : Transaction.t) : Transaction.t :=
  set_modified_at (set_category r "") "".

(** ** The rules page ([show_rules_page], "Apply Rules to All Transactions") *)

Section RulesPage.

Variable float_repr : Q -> string.

(** The sheet after the button is pressed at time [modified_at]. *)
Definition apply_rules_button (sheet : transactions_sheet)
    (rules_df : list Rule.t) (user_id modified_at : string)
  : transactions_sheet :=
  let transactions_df := load_user_transactions sheet user_id in
  let updates :=
    apply_rules_to_transactions float_repr transactions_df rules_df in
  if (0 <? length updates)%nat
  then snd (batch_update_transaction_categories sheet modified_at updates)
  else sheet.

End RulesPage.

(** The header row [setup_sheets.py] writes. *)
Definition transactions_headers : list string :=
  [ "user_id"; "transaction_id"; "date"; "payee"; "amount"; "category";
    "account_name"; "account_id"; "notes"; "pending"; "created_at";
    "modified_at" ].

(** What an update of the category of [transaction_id] does to one row. *)
Definition recategorise (transaction_id category modified_at : string)
    (r : Transaction.t) : Transaction.t :=
  if String.eqb (Transaction.transaction_id r) transaction_id
  then set_modified_at (set_category r category) modified_at
  else r.

(** What a list of updates, written in order, does to one row. *)
Definition final_row (updates : list (string * string)) (modified_at : string)
    (r : Transaction.t) : Transaction.t :=
  fold_left (fun r u => recategorise (fst u) (snd u) modified_at r) updates r.

(** ** The categorization page ([show_categorization_page]) *)

Definition uncategorized (df : list Transaction.t) : list Transaction.t :=
  filter (fun t => String.eqb (Transaction.category t) "Uncategorized") df.

(** "Save Category": the first uncategorized transaction of the user gets
    the category selected; nothing is offered when there is none. *)
Definition save_category (sheet : transactions_sheet)
    (user_id modified_at category : string) : transactions_sheet :=
  let transactions_df := load_user_transactions sheet user_id in
  match uncategorized transactions_df with
  | [] => sheet
  | txn :: _ =>
      snd (update_transaction_category sheet modified_at
             (Transaction.transaction_id txn) category)
  end.

(** ** The Budget_Monthly sheet ([db_manager.py])

    The data rows of the worksheet, below its header row, as
    [get_all_records] reads them. The calls to the Sheets service are taken
    to succeed. *)

Definition set_budgeted (r : Budget.t) (budgeted : Q) : Budget.t :=
  Budget.mk (Budget.user_id r) (Budget.month_year r) (Budget.category r)
            budgeted (Budget.spent r) (Budget.last_updated r).

Definition set_last_updated (r : Budget.t) (last_updated : string) : Budget.t :=
  Budget.mk (Budget.user_id r) (Budget.month_year r) (Budget.category r)
            (Budget.budgeted r) (Budget.spent r) last_updated.

(** The test that selects [existing] in [set_budget]. *)
Definition budget_key (user_id month_year category : string) (b : Budget.t)
  : bool :=
  String.eqb (Budget.user_id b) user_id
  && String.eqb (Budget.month_year b) month_year
  && String.eqb (Budget.category b) category.

(** [existing.index[0]]: the label of the first row that passes the test,
    which is its place among the records. *)
Fixpoint first_label (p : Budget.t -> bool) (rows : list Budget.t)
  : option nat :=
  match rows with
  | [] => None
  | b :: rest => if p b then Some 0%nat else option_map S (first_label p rest)
  end.

(** Writing cells of the data row at place [n]. *)
Fixpoint update_budget_row (n : nat) (f : Budget.t -> Budget.t)
    (rows : list Budget.t) : list Budget.t :=
  match rows, n with
  | [], _ => []
  | b :: rest, O => f b :: rest
  | b :: rest, S n' => b :: update_budget_row n' f rest
  end.

(** [set_budget]; [last_updated] is the time of the call, as text. With no
    record, [pd.DataFrame(records)] has no column and [df['user_id']] raises
    [KeyError], which the function catches to return [False]. *)
Definition set_budget (sheet : list Budget.t)
    (last_updated user_id month_year category : string) (budgeted : Q)
  : bool * list Budget.t :=
  match sheet with
  | [] => (false, sheet)
  | _ :: _ =>
      match first_label (budget_key user_id month_year category) sheet with
      | Some label =>
          (true,
           update_budget_row label
             (fun b => set_last_updated (set_budgeted b budgeted) last_updated)
             sheet)
      | None =>
          (true,
           (sheet ++ [Budget.mk user_id month_year category budgeted 0
                                last_updated])%list)
      end
  end.

(** [load_user_budgets]; [month_year] is [None] or a text, and only a text
    that is not empty filters. *)
Definition load_user_budgets (sheet : list Budget.t) (user_id : string)
    (month_year : option string) : list Budget.t :=
  let df := filter (fun b => String.eqb (Budget.user_id b) user_id) sheet in
  match month_year with
  | Some m =>
      if String.eqb m "" then df
      else filter (fun b => String.eqb (Budget.month_year b) m) df
  | None => df
  end.

(** ** The dashboard ([show_dashboard], the four metrics) *)

Record dashboard_metrics : Type := mkMetrics {
  total_balance : Q;
  monthly_spending : Q;
  monthly_income : Q;
  shown_transaction_count : nat
}.

(** The metrics the dashboard computes; [None] when the frame is empty and the
    page only says so. "Monthly Spending" is shown as [abs(monthly_spending)]. *)
Definition dashboard (transactions_df : list Transaction.t)
    (current_month : string) : option dashboard_metrics :=
  if (0 <? length transactions_df)%nat then
    let this_month_df :=
      filter (fun t =>
                String.eqb (strftime_month_year (Transaction.date t))
                           current_month)
             transactions_df in
    let total_balance := Qsum (map Transaction.amount transactions_df) in
    let monthly_spending :=
      Qsum (map Transaction.amount
                (filter (fun t => Qltb (Transaction.amount t) 0) this_month_df)) in
    let monthly_income :=
      Qsum (map Transaction.amount
                (filter (fun t => Qltb 0 (Transaction.amount t)) this_month_df)) in
    let transaction_count := length this_month_df in
    Some (mkMetrics total_balance monthly_spending monthly_income
                    transaction_count)
  else None.

(** ** The budgets page: the progress bar *)

(** [min(a, b)] of Python: [b] when [b < a], else [a]. *)
Definition py_min (a b : Q) : Q := if Qltb b a then b else a.

(** The argument of [st.progress], which accepts values from 0 to 1 only. *)
Definition progress_value (budget : Budget.t) : Q :=
  py_min (percent (budget_display budget) / 100) 1.

(** ** The User_Rules sheet ([load_user_rules]) *)

(** Placing one rule among rules that are in ascending order of priority:
    before the first rule whose priority is not smaller. *)
Fixpoint priority_insert (r : Rule.t) (sorted : list Rule.t) : list Rule.t :=
  match sorted with
  | [] => [r]
  | s :: rest =>
      if (Rule.priority r <=? Rule.priority s)%Z then r :: s :: rest
      else s :: priority_insert r rest
  end.

(** [df.sort_values('priority', ascending=True)]; the order among equal
    priorities is the one a stable sort gives. *)
Fixpoint sort_by_priority (df : list Rule.t) : list Rule.t :=
  match df with
  | [] => []
  | r :: rest => priority_insert r (sort_by_priority rest)
  end.

(** [load_user_rules]: the rules of the user, by ascending priority. *)
Definition load_user_rules (sheet : list Rule.t) (user_id : string)
  : list Rule.t :=
  let df := filter (fun r => String.eqb (Rule.user_id r) user_id) sheet in
  sort_by_priority df.

(** ** Regular expressions, as [auth.py] uses them

    A pattern of [re] over character classes, what it means for a text to
    match it from its first character to its last, and the test that decides
    it, by derivatives. *)

Inductive regex : Type :=
| REmpty
| REps
| RClass (p : ascii -> bool)
| RSeq (r s : regex)
| RAlt (r s : regex)
| RStar (r : regex).

Inductive matches : regex -> string -> Prop :=
| MEps : matches REps ""
| MClass (p : ascii -> bool) (c : ascii) :
    p c = true -> matches (RClass p) (String c "")
| MSeq (r s : regex) (a b : string) :
    matches r a -> matches s b -> matches (RSeq r s) (a ++ b)
| MAltL (r s : regex) (a : string) : matches r a -> matches (RAlt r s) a
| MAltR (r s : regex) (a : string) : matches s a -> matches (RAlt r s) a
| MStarNil (r : regex) : matches (RStar r) ""
| MStarApp (r : regex) (a b : string) :
    matches r a -> matches (RStar r) b -> matches (RStar r) (a ++ b).

Fixpoint nullable (r : regex) : bool :=
  match r with
  | REmpty => false
  | REps => true
  | RClass _ => false
  | RSeq r s => nullable r && nullable s
  | RAlt r s => nullable r || nullable s
  | RStar _ => true
  end.

Fixpoint deriv (c : ascii) (r : regex) : regex :=
  match r with
  | REmpty => REmpty
  | REps => REmpty
  | RClass p => if p c then REps else REmpty
  | RSeq r s =>
      if nullable r then RAlt (RSeq (deriv c r) s) (deriv c s)
      else RSeq (deriv c r) s
  | RAlt r s => RAlt (deriv c r) (deriv c s)
  | RStar r => RSeq (deriv c r) (RStar r)
  end.

Fixpoint re_fullmatch (r : regex) (s : string) : bool :=
  match s with
  | EmptyString => nullable r
  | String c s' => re_fullmatch (deriv c r) s'
  end.

(** [r+] and the classes of the patterns. *)
Definition RPlus (r : regex) : regex := RSeq r (RStar r).

Definition in_range (lo hi : nat) (c : ascii) : bool :=
  (lo <=? nat_of_ascii c)%nat && (nat_of_ascii c <=? hi)%nat.

(** [[A-Z]], [[a-z]], [[0-9]], [[a-zA-Z]] *)
Definition upper_class (c : ascii) : bool := in_range 65 90 c.
Definition lower_class (c : ascii) : bool := in_range 97 122 c.
Definition digit_class (c : ascii) : bool := in_range 48 57 c.
Definition letter_class (c : ascii) : bool := lower_class c || upper_class c.

Definition one_of (chars : string) (c : ascii) : bool :=
  existsb (Ascii.eqb c) (list_ascii_of_string chars).

(** [[a-zA-Z0-9._%+-]] and [[a-zA-Z0-9.-]] *)
Definition local_class (c : ascii) : bool :=
  letter_class c || digit_class c || one_of "._%+-" c.
Definition domain_class (c : ascii) : bool :=
  letter_class c || digit_class c || one_of ".-" c.

(** The line feed, and [$]: the end of the text, or a line feed that ends
    it. *)
Definition newline : string := String (ascii_of_nat 10) "".
Definition RDollar : regex := RAlt REps (RClass (Ascii.eqb (ascii_of_nat 10))).

(** [^[a-zA-Z0-9._%+-]+@[a-zA-Z0-9.-]+\.[a-zA-Z]{2,}$] *)
Definition EMAIL_PATTERN : regex :=
  RSeq (RPlus (RClass local_class))
    (RSeq (RClass (Ascii.eqb "@"%char))
       (RSeq (RPlus (RClass domain_class))
          (RSeq (RClass (Ascii.eqb "."%char))
             (RSeq (RSeq (RClass letter_class)
                      (RSeq (RClass letter_class) (RStar (RClass letter_class))))
                RDollar)))).

(** ** Validators ([auth.py]) *)

(** [re.match(pattern, email) is not None]: the pattern is anchored at both
    ends. *)
Definition validate_email (email : string) : bool :=
  re_fullmatch EMAIL_PATTERN email.

(** [re.search(r'[...]', s)]: some character of [s] is in the class. *)
Fixpoint re_search_class (p : ascii -> bool) (s : string) : bool :=
  match s with
  | EmptyString => false
  | String c s' => if p c then true else re_search_class p s'
  end.

Definition validate_password_strength (password : string) : bool * string :=
  if (String.length password <? 8)%nat then
    (false, "Password must be at least 8 characters long")
  else if negb (re_search_class upper_class password) then
    (false, "Password must contain at least one uppercase letter")
  else if negb (re_search_class lower_class password) then
    (false, "Password must contain at least one lowercase letter")
  else if negb (re_search_class digit_class password) then
    (false, "Password must contain at least one number")
  else (true, "").

(** Every character of a text is in the class. *)
Fixpoint all_chars (p : ascii -> bool) (s : string) : bool :=
  match s with
  | EmptyString => true
  | String c s' => p c && all_chars p s'
  end.

(** ** The Users and User_Data sheets ([db_manager.py])

    The rows below the header row, each cell with the text it holds
    ([append_row] stores the texts as they are given).  The header row is the
    one [setup_sheets.py] writes: [user_id], [full_name], [email],
    [hashed_password], [reset_token], [token_expiry], [created_at]. *)

Module User.
Record t : Type := mk {
  user_id : string;
  full_name : string;
  email : string;
  hashed_password : string;
  reset_token : string;
  token_expiry : string;
  created_at : string
}.
End User.

Module UserData.
Record t : Type := mk {
  user_id : string;
  simplefin_access_url : string;
  last_sync_time : string;
  settings_json : string
}.
End UserData.

Record accounts : Type := mkAccounts {
  users_sheet : list User.t;
  user_data_sheet : list UserData.t
}.

(** [users_sheet.col_values(3)]: column C, the header cell first. *)
Definition col_values_C (users : list User.t) : list string :=
  drop_trailing_empty ("email" :: map User.email users).

(** [create_user], with the identifier [uuid4] draws and the time of the call
    as parameters: the new identifier and the sheets with one more row each,
    or [None] and the sheets as they were when the email is in
    [emails[1:]]. *)
Definition create_user (sheets : accounts) (new_id created_at : string)
    (full_name email hashed_password : string) : option string * accounts :=
  let emails := col_values_C (users_sheet sheets) in
  if existsb (String.eqb email) (tl emails) then (None, sheets)
  else
    (Some new_id,
     mkAccounts
       (users_sheet sheets
        ++ [User.mk new_id full_name email hashed_password "" "" created_at])%list
       (user_data_sheet sheets ++ [UserData.mk new_id "" "" "{}"])%list).

(** A record of [get_all_records]: the cells of a row under the titles of the
    header row, each one read as a number when its text is one. *)
Module UserRecord.
Record t : Type := mk {
  user_id : cell;
  full_name : cell;
  email : cell;
  hashed_password : cell;
  reset_token : cell;
  token_expiry : cell;
  created_at : cell
}.
End UserRecord.

(** [record[...] == text] for a text: a number is equal to no text. *)
Definition cell_eq_str (c : cell) (text : string) : bool :=
  match c with
  | CStr s => String.eqb s text
  | _ => false
  end.

(** ** The session ([auth.py], [config.py]) *)

Definition SESSION_LOGGED_IN : string := "logged_in".
Definition SESSION_USER_ID : string := "user_id".
Definition SESSION_USER_EMAIL : string := "user_email".
Definition SESSION_USER_NAME : string := "user_name".
Definition SESSION_DATA_CACHE : string := "data_cache".
Definition SESSION_LAST_SYNC : string := "last_sync".

Definition SESSION_KEYS : list string :=
  [SESSION_LOGGED_IN; SESSION_USER_ID; SESSION_USER_EMAIL; SESSION_USER_NAME;
   SESSION_DATA_CACHE; SESSION_LAST_SYNC].

(** The values the code stores in [st.session_state]: [None], a boolean, a
    value read from a sheet, the empty dictionary. *)
Inductive session_value : Type :=
| SNone
| SBool (b : bool)
| SValue (c : cell)
| SEmptyDict.

(** [st.session_state]: the value of a key is the one stored last. *)
Definition session_state : Type := list (string * session_value).

(** [st.session_state[key] = value] *)
Definition session_set (key : string) (value : session_value)
    (state : session_state) : session_state :=
  (key, value) :: state.

(** [key in st.session_state] *)
Definition session_has (key : string) (state : session_state) : bool :=
  match lookup key state with
  | Some _ => true
  | None => false
  end.

(** [st.session_state.get(key, default)] *)
Definition session_get (key : string) (default : session_value)
    (state : session_state) : session_value :=
  match lookup key state with
  | Some v => v
  | None => default
  end.

(** [if key not in st.session_state: st.session_state[key] = value] *)
Definition session_default (key : string) (value : session_value)
    (state : session_state) : session_state :=
  if session_has key state then state else session_set key value state.

Definition init_session_state (state : session_state) : session_state :=
  let state := session_default SESSION_LOGGED_IN (SBool false) state in
  let state := session_default SESSION_USER_ID SNone state in
  let state := session_default SESSION_USER_EMAIL SNone state in
  let state := session_default SESSION_USER_NAME SNone state in
  let state := session_default SESSION_DATA_CACHE SEmptyDict state in
  session_default SESSION_LAST_SYNC SNone state.

Definition login_user (user_id email full_name : cell) (state : session_state)
  : session_state :=
  let state := session_set SESSION_LOGGED_IN (SBool true) state in
  let state := session_set SESSION_USER_ID (SValue user_id) state in
  let state := session_set SESSION_USER_EMAIL (SValue email) state in
  session_set SESSION_USER_NAME (SValue full_name) state.

Definition logout_user (state : session_state) : session_state :=
  let state := session_set SESSION_LOGGED_IN (SBool false) state in
  let state := session_set SESSION_USER_ID SNone state in
  let state := session_set SESSION_USER_EMAIL SNone state in
  let state := session_set SESSION_USER_NAME SNone state in
  let state := session_set SESSION_DATA_CACHE SEmptyDict state in
  session_set SESSION_LAST_SYNC SNone state.

Definition is_logged_in (state : session_state) : session_value :=
  session_get SESSION_LOGGED_IN (SBool false) state.

Definition get_current_user_id (state : session_state) : session_value :=
  session_get SESSION_USER_ID SNone state.

Definition get_current_user_email (state : session_state) : session_value :=
  session_get SESSION_USER_EMAIL SNone state.

Definition get_current_user_name (state : session_state) : session_value :=
  session_get SESSION_USER_NAME SNone state.

(** The truth value of a stored value, as [if not auth.is_logged_in()] of
    [main] takes it. *)
Definition truthy (v : session_value) : bool :=
  match v with
  | SNone => false
  | SBool b => b
  | SValue (CStr s) => negb (String.eqb s "")
  | SValue (CNum q) => negb (Qeq_bool q 0)
  | SValue (CDate _) => true
  | SEmptyDict => false
  end.

(** [main]: the login page is shown instead of the pages of the
    application. *)
Definition shows_login_page (state : session_state) : bool :=
  negb (truthy (is_logged_in state)).

(** ** The login page ([show_login_page]) *)

Section LoginPage.

(** What [get_all_records] reads as a number, and with which value. *)
Variable numericise : string -> option Q.

(** [bcrypt.checkpw] on the encoded texts, [False] when it raises. *)
Variable checkpw : string -> string -> bool.

Definition read_cell (text : string) : cell :=
  match numericise text with
  | Some q => CNum q
  | None => CStr text
  end.

Definition get_all_records (users : list User.t) : list UserRecord.t :=
  map (fun r =>
         UserRecord.mk (read_cell (User.user_id r))
                       (read_cell (User.full_name r))
                       (read_cell (User.email r))
                       (read_cell (User.hashed_password r))
                       (read_cell (User.reset_token r))
                       (read_cell (User.token_expiry r))
                       (read_cell (User.created_at r)))
      users.

(** [get_user_by_email]: the first record whose [email] equals the text. *)
Definition get_user_by_email (sheets : accounts) (email : string)
  : option UserRecord.t :=
  find (fun record => cell_eq_str (UserRecord.email record) email)
       (get_all_records (users_sheet sheets)).

(** [verify_password]: a stored value that is not a text has no [encode],
    and the exception gives [False]. *)
Definition verify_password (password : string) (hashed_password : cell) : bool :=
  match hashed_password with
  | CStr h => checkpw password h
  | _ => false
  end.

(** "Sign In": the message shown and the session afterwards. *)
Definition sign_in (sheets : accounts) (state : session_state)
    (email password : string) : string * session_state :=
  if String.eqb email "" || String.eqb password "" then
    ("Please fill in all fields", state)
  else
    match get_user_by_email sheets email with
    | Some user =>
        if verify_password password (UserRecord.hashed_password user) then
          ("Logged in successfully!",
           login_user (UserRecord.user_id user) (UserRecord.email user)
                      (UserRecord.full_name user) state)
        else ("Invalid email or password", state)
    | None => ("Invalid email or password", state)
    end.

End LoginPage.

(** "Sign Up", with the identifier [uuid4] draws, the time of the call and the
    text [hash_password] returns for the password as parameters: the message
    shown and the sheets afterwards. *)
Definition sign_up (sheets : accounts) (new_id created_at hashed_password : string)
    (full_name email password password_confirm : string) : string * accounts :=
  if String.eqb full_name "" || String.eqb email "" || String.eqb password ""
     || String.eqb password_confirm "" then
    ("Please fill in all fields", sheets)
  else if negb (String.eqb password password_confirm) then
    ("Passwords do not match", sheets)
  else if negb (validate_email email) then
    ("Invalid email format", sheets)
  else
    let (is_valid, error_msg) := validate_password_strength password in
    if negb is_valid then (error_msg, sheets)
    else
      let (user_id, sheets') :=
        create_user sheets new_id created_at full_name email hashed_password in
      match user_id with
      | Some uid =>
          if String.eqb uid "" then
            ("Failed to create account. Email may already exist.", sheets')
          else ("Account created successfully! Please sign in.", sheets')
      | None => ("Failed to create account. Email may already exist.", sheets')
      end.

(** Instances for the examples: texts made of digits only are read as
    numbers, and a check that accepts the hash made of a fixed prefix and the
    password. *)
Fixpoint digits_value (acc : Z) (text : string) : Z :=
  match text with
  | EmptyString => acc
  | String c rest =>
      digits_value (10 * acc + (Z.of_nat (nat_of_ascii c) - 48))%Z rest
  end.

Definition numericise_digits (text : string) : option Q :=
  if negb (String.eqb text "") && all_chars digit_class text
  then Some (inject_Z (digits_value 0 text)) else None.

Definition checkpw_prefix (password hashed_password : string) : bool :=
  String.eqb hashed_password ("$2b$" ++ password).


(** ** Month names ([get_month_name])

    [datetime.strptime(text, "%Y-%m")] matches the text against the pattern
    [\d\d\d\d-(1[0-2]|0[1-9]|[1-9])], refuses a text with anything left after
    the match, reads the year and the month as numbers and refuses the year
    0. *)
Definition MONTH_YEAR_PATTERN : regex :=
  RSeq (RClass digit_class)
    (RSeq (RClass digit_class)
       (RSeq (RClass digit_class)
          (RSeq (RClass digit_class)
             (RSeq (RClass (Ascii.eqb "-"%char))
                (RAlt (RSeq (RClass (Ascii.eqb "1"%char))
                            (RClass (in_range 48 50)))
                   (RAlt (RSeq (RClass (Ascii.eqb "0"%char))
                               (RClass (in_range 49 57)))
                         (RClass (in_range 49 57)))))))).

Definition strptime_month_year (text : string) : option (Z * Z) :=
  if re_fullmatch MONTH_YEAR_PATTERN text then
    let year := digits_value 0 (substring 0 4 text) in
    let month := digits_value 0 (substring 5 2 text) in
    if (1 <=? year)%Z then Some (year, month) else None
  else None.

Definition MONTH_NAMES : list string :=
  ["January"; "February"; "March"; "April"; "May"; "June"; "July"; "August";
   "September"; "October"; "November"; "December"].

(** [%Y]: four digits from the year 1000 on; below, the C library of the
    platform decides, the GNU one writing the number without zeros before
    it. *)
Definition strftime_Y (y : Z) : string :=
  if (y <? 1000)%Z then NilZero.string_of_int (Z.to_int y) else pad4 y.

(** [dt.strftime("%B %Y")], with the month names of the English locale. *)
Definition strftime_B_Y (y m : Z) : string :=
  nth (Z.to_nat (m - 1)) MONTH_NAMES "" ++ " " ++ strftime_Y y.

Definition get_month_name (month_year : string) : string :=
  match strptime_month_year month_year with
  | Some (y, m) => strftime_B_Y y m
  | None => month_year
  end.


(** ** Frames as the loader hands them over

    [calculate_monthly_summary] above takes a frame whose [date] column
    holds dates, which is what [load_user_transactions] returns when the
    user has a transaction. The loader has two more results: the frame
    without any column, [pd.DataFrame()], when the sheet holds no record,
    and, when the sheet holds records but none of the user, a frame with
    the columns of the sheet and no row, whose [date] column was not
    converted. *)

Inductive exception : Type :=
| KeyError (key : string)
| AttributeError (message : string).

Module Frame.

Inductive t : Type :=
| Empty
| Unconverted
| Loaded (rows : list Transaction.t).

(** The three results of [load_user_transactions]. *)
Definition load_user_transactions (sheet : transactions_sheet)
    (user_id : string) : t :=
  match data sheet with
  | [] => Empty
  | _ :: _ =>
      match filter (fun r => String.eqb (Transaction.user_id r) user_id)
                   (data sheet) with
      | [] => Unconverted
      | df => Loaded (sort_by_date_desc df)
      end
  end.

(** [calculate_monthly_summary] starts with [df['date'].dt], before it looks
    at the number of rows: a frame without the column raises [KeyError], a
    column that holds no dates raises [AttributeError]. *)
Definition calculate_monthly_summary (df : t) (month_year : string)
  : exception + summary :=
  match df with
  | Empty => inl (KeyError "date")
  | Unconverted =>
      inl (AttributeError "Can only use .dt accessor with datetimelike values")
  | Loaded rows => inr (calculate_monthly_summary rows month_year)
  end.

End Frame.

(** ** The arithmetic of the amounts

    The program adds and compares binary64 numbers, and the definitions
    above take the amounts as exact rationals. [get_top_merchants] is given
    here once more, over an arithmetic that is left open, for what holds of
    it whatever the additions round to: [binary64] is the arithmetic of the
    program, [rationals] the one of the definitions above. *)

Module Amounts.

(** The numbers, their comparisons, and how the values of a group are added
    up: a running state per group, one step for each value, in row order. *)
Record arithmetic : Type := mkArithmetic {
  num : Type;
  zero : num;
  absolute : num -> num;
  lt : num -> num -> bool;
  le : num -> num -> bool;
  state : Type;
  start : state;
  step : state -> num -> state;
  result : state -> num
}.

Definition rationals : arithmetic :=
  mkArithmetic Q 0%Q Qabs Qltb Qle_bool Q 0%Q Qplus (fun s => s).

(** One step of the sum of a group in pandas: the running sum and the
    compensation for what the additions before have lost, which is put back
    to [0] when it is not a number. *)
Definition kahan_step (s : float * float) (val : float) : float * float :=
  let (sumx, compensation) := s in
  let y := (val - compensation)%float in
  let t := (sumx + y)%float in
  let c := (t - sumx - y)%float in
  (t, if PrimFloat.eqb c c then c else 0%float).

Definition binary64 : arithmetic :=
  mkArithmetic float 0%float PrimFloat.abs PrimFloat.ltb PrimFloat.leb
               (float * float) (0%float, 0%float) kahan_step fst.

(** [sum()] of Python and of a short column: the values added one after the
    other from [0]. *)
Definition float_sum (values : list float) : float :=
  fold_left PrimFloat.add values 0%float.

Section TopMerchants.

Variable A : arithmetic.

(** The two columns of a transaction [get_top_merchants] reads. *)
Record row : Type := mkRow {
  payee : string;
  amount : num A
}.

(** The sum of the values of a group, in row order. *)
Definition sum_in_order (values : list (num A)) : num A :=
  result A (fold_left (step A) values (start A)).

(** One row more in the running sums of [groupby(key)[col].sum()], the keys
    kept in ascending order. *)
Fixpoint group_add (key : string) (v : num A)
    (groups : list (string * state A)) : list (string * state A) :=
  match groups with
  | [] => [(key, step A (start A) v)]
  | (k, s) :: rest =>
      match String.compare key k with
      | Eq => (k, step A s v) :: rest
      | Lt => (key, step A (start A) v) :: (k, s) :: rest
      | Gt => (k, s) :: group_add key v rest
      end
  end.

Definition running_sums (rows : list (string * num A))
  : list (string * state A) :=
  fold_left (fun groups r => group_add (fst r) (snd r) groups) rows [].

Definition groupby_sum (rows : list (string * num A)) : list (string * num A) :=
  map (fun g => (fst g, result A (snd g))) (running_sums rows).

Fixpoint rank_insert (x : string * num A) (ranked : list (string * num A))
  : list (string * num A) :=
  match ranked with
  | [] => [x]
  | y :: rest =>
      if le A (snd y) (snd x) then x :: y :: rest
      else y :: rank_insert x rest
  end.

(** [series.sort_values(ascending=False)], equal values in the order a
    stable sort gives (pandas promises none). *)
Fixpoint sort_values_desc (series : list (string * num A))
  : list (string * num A) :=
  match series with
  | [] => []
  | x :: rest => rank_insert x (sort_values_desc rest)
  end.

(** The values a key has in the rows, in row order. *)
Definition group_values (key : string) (rows : list (string * num A))
  : list (num A) :=
  map snd (filter (fun r => String.eqb (fst r) key) rows).

(** The running sums of the rows: keys in ascending order, the keys of the
    rows and no other, each with the state its values lead to. *)
Definition grouped (rows : list (string * num A))
    (groups : list (string * state A)) : Prop :=
  StronglySorted (fun x y => String.compare (fst x) (fst y) = Lt) groups /\
  (forall x, In x (map fst groups) <-> In x (map fst rows)) /\
  (forall k s, In (k, s) groups ->
               s = fold_left (step A) (group_values k rows) (start A)).

(** [df['amount'] < 0] *)
Definition is_expense (r : row) : bool := lt A (amount r) (zero A).

(** The columns [Merchant] and [Total Spent] of the frame returned, row by
    row. *)
Definition get_top_merchants (df : list row) (n : Z)
  : list (string * num A) :=
  let expenses :=
    map (fun r => mkRow (payee r) (absolute A (amount r)))
        (filter is_expense df) in
  head n
    (sort_values_desc
       (groupby_sum (map (fun r => (payee r, amount r)) expenses))).

Definition expense_payees (df : list row) : list string :=
  map payee (filter is_expense df).

(** The absolute amounts of the expenses of one payee, in row order. *)
Definition spent_at (p : string) (df : list row) : list (num A) :=
  map (fun r => absolute A (amount r))
      (filter (fun r => is_expense r && String.eqb (payee r) p) df).

(** The absolute amounts of all the expenses, in row order. *)
Definition spent (df : list row) : list (num A) :=
  map (fun r => absolute A (amount r)) (filter is_expense df).

Definition distinct_expense_payees (df : list row) : nat :=
  length (nodup string_dec (expense_payees df)).

End TopMerchants.

Arguments payee {A} r.
Arguments amount {A} r.
Arguments sum_in_order {A} values.
Arguments group_add {A} key v groups.
Arguments running_sums {A} rows.
Arguments groupby_sum {A} rows.
Arguments rank_insert {A} x ranked.
Arguments sort_values_desc {A} series.
Arguments group_values {A} key rows.
Arguments grouped {A} rows groups.
Arguments is_expense {A} r.
Arguments get_top_merchants {A} df n.
Arguments expense_payees {A} df.
Arguments spent_at {A} p df.
Arguments spent {A} df.
Arguments distinct_expense_payees {A} df.

(** The number a binary64 value stands for (zero for what is not a finite
    number). *)
Definition exact_value (x : float) : Q :=
  match Prim2SF x with
  | S754_finite negative m e =>
      let magnitude :=
        if (0 <=? e)%Z then inject_Z (Zpos m * 2 ^ e)
        else (Zpos m # Pos.pow 2 (Z.to_pos (- e)))%Q in
      if negative then (- magnitude)%Q else magnitude
  | _ => 0%Q
  end.

(** Three expenses at two payees, amounts as the program holds them. *)
#[warnings="-inexact-float"]
Definition rounding_frame : list (row binary64) :=
  [mkRow binary64 "Cafe" (-0.1)%float;
   mkRow binary64 "Metro" (-0.2)%float;
   mkRow binary64 "Cafe" (-0.6)%float].

(** A transaction of the sheet, for the arithmetic of the definitions
    above. *)
Definition of_transaction (t : Transaction.t) : row rationals :=
  mkRow rationals (Transaction.payee t) (Transaction.amount t).

End Amounts.

(** * Properties *)

(** ** Strings *)

Lemma prefix_spec (p s : string) : String.prefix p s = true <-> is_prefix p s.
Proof.
  unfold is_prefix. revert s.
  induction p as [|c p IH]; intros s; simpl.
  - split; [intros _; exists s; reflexivity | destruct s; reflexivity].
  - destruct s as [|d s].
    + split; [discriminate | intros [post H]; discriminate].
    + simpl. destruct (ascii_dec c d) as [->|Hcd].
      * rewrite IH. split; intros [post H]; exists post.
        -- simpl. now rewrite H.
        -- simpl in H. now inversion H.
      * split; [discriminate|]. intros [post H]. simpl in H.
        inversion H. congruence.
Qed.

Lemma str_in_spec (sub s : string) : str_in sub s = true <-> is_substring sub s.
Proof.
  unfold is_substring.
  induction s as [|c s IH]; cbn [str_in].
  - destruct (String.prefix sub "") eqn:E.
    + apply prefix_spec in E as [post E].
      split; [intros _; exists "", post; exact E | reflexivity].
    + split; [discriminate|]. intros (pre & post & H).
      destruct pre; simpl in H; [|discriminate].
      assert (String.prefix sub "" = true) by (apply prefix_spec; now exists post).
      congruence.
  - destruct (String.prefix sub (String c s)) eqn:E.
    + apply prefix_spec in E as [post E].
      split; [intros _; exists "", post; exact E | reflexivity].
    + rewrite IH. split.
      * intros (pre & post & H). exists (String c pre), post. simpl. now rewrite H.
      * intros (pre & post & H). destruct pre as [|d pre]; simpl in H.
        -- assert (String.prefix sub (String c s) = true)
             by (apply prefix_spec; now exists post).
           congruence.
        -- inversion H. now exists pre, post.
Qed.

Lemma endswith_spec (s p : string) : endswith s p = true <-> is_suffix p s.
Proof.
  unfold is_suffix.
  induction s as [|c s IH]; cbn [endswith].
  - destruct (String.eqb "" p) eqn:E.
    + apply String.eqb_eq in E. subst p.
      split; [intros _; now exists "" | reflexivity].
    + split; [discriminate|]. intros [pre H].
      destruct pre; simpl in H; [|discriminate].
      subst p. now rewrite String.eqb_refl in E.
  - destruct (String.eqb (String c s) p) eqn:E.
    + apply String.eqb_eq in E. subst p.
      split; [intros _; now exists "" | reflexivity].
    + rewrite IH. split.
      * intros [pre H]. exists (String c pre). simpl. now rewrite H.
      * intros [pre H]. destruct pre as [|d pre]; simpl in H.
        -- subst p. now rewrite String.eqb_refl in E.
        -- inversion H. now exists pre.
Qed.

Lemma startswith_spec (s p : string) : startswith s p = true <-> is_prefix p s.
Proof. apply prefix_spec. Qed.

(** The empty string occurs in, starts and ends every string. *)
Lemma str_in_empty (s : string) : str_in "" s = true.
Proof. destruct s; reflexivity. Qed.

Lemma startswith_empty (s : string) : startswith s "" = true.
Proof. destruct s; reflexivity. Qed.

Lemma endswith_empty (s : string) : endswith s "" = true.
Proof. apply endswith_spec. exists s. induction s; simpl; congruence. Qed.

Lemma substring_of_empty (sub : string) : is_substring sub "" -> sub = "".
Proof.
  intros (pre & post & H). destruct pre; simpl in H; [|discriminate].
  destruct sub; [reflexivity | discriminate].
Qed.

Lemma lower_empty (s : string) : lower s = "" -> s = "".
Proof. destruct s; simpl; [reflexivity | discriminate]. Qed.

(** ** Keyword categoriser *)

Lemma keyword_loop_true (keywords : list string) (payee_lower : string) :
  keyword_loop keywords payee_lower = true <->
  exists keyword, In keyword keywords /\ is_substring (lower keyword) payee_lower.
Proof.
  induction keywords as [|k ks IH]; simpl.
  - split; [discriminate | intros (k & [] & _)].
  - destruct (str_in (lower k) payee_lower) eqn:E.
    + split; [intros _|reflexivity]. exists k. split; [now left|].
      now apply str_in_spec.
    + rewrite IH. split; intros (k' & Hin & Hsub).
      * exists k'. split; [now right | exact Hsub].
      * destruct Hin as [->|Hin]; [|now exists k'].
        apply str_in_spec in Hsub. congruence.
Qed.

Lemma keyword_loop_match (payee : string) (entry : string * list string) :
  keyword_loop (snd entry) (lower payee) = true <-> keyword_match payee entry.
Proof. apply keyword_loop_true. Qed.

(** The outer loop returns the category of the first entry with a match. *)
Lemma category_loop_first (payee : string)
    (pre post : list (string * list string)) (c : string) (kws : list string) :
  keyword_match payee (c, kws) ->
  (forall e, In e pre -> ~ keyword_match payee e) ->
  category_loop (pre ++ (c, kws) :: post) (lower payee) = Some c.
Proof.
  intros Hm Hpre. induction pre as [|[c' kws'] pre IH]; simpl.
  - apply keyword_loop_match in Hm. simpl in Hm. now rewrite Hm.
  - destruct (keyword_loop kws' (lower payee)) eqn:E.
    + exfalso. apply (Hpre (c', kws')); [now left|].
      now apply keyword_loop_match.
    + apply IH. intros e He. apply Hpre. now right.
Qed.

Lemma category_loop_none (payee : string) (items : list (string * list string)) :
  (forall e, In e items -> ~ keyword_match payee e) ->
  category_loop items (lower payee) = None.
Proof.
  induction items as [|[c kws] items IH]; intros H; simpl; [reflexivity|].
  destruct (keyword_loop kws (lower payee)) eqn:E.
  - exfalso. apply (H (c, kws)); [now left|]. now apply keyword_loop_match.
  - apply IH. intros e He. apply H. now right.
Qed.

(** No keyword of the table is the empty string. *)
Lemma CATEGORY_KEYWORDS_nonempty (e : string * list string) (k : string) :
  In e CATEGORY_KEYWORDS -> In k (snd e) -> k <> "".
Proof.
  assert (H : forallb (fun e => forallb (fun k => negb (String.eqb k ""))
                                        (snd e)) CATEGORY_KEYWORDS = true)
    by reflexivity.
  rewrite forallb_forall in H. intros He Hk.
  specialize (H e He). rewrite forallb_forall in H. specialize (H k Hk).
  intros ->. discriminate.
Qed.

Lemma no_match_on_empty_payee (e : string * list string) :
  In e CATEGORY_KEYWORDS -> ~ keyword_match "" e.
Proof.
  intros He (k & Hk & Hsub). simpl in Hsub.
  apply substring_of_empty, lower_empty in Hsub.
  exact (CATEGORY_KEYWORDS_nonempty e k He Hk Hsub).
Qed.

(** C2. For every payee, [auto_categorize_transaction] returns the category of
    the first entry of [CATEGORY_KEYWORDS], in the order of the table, one of
    whose keywords (lower-cased) occurs in the lower-cased payee; it returns
    "Uncategorized" when no entry has such a keyword, and for the empty
    payee. *)
Theorem auto_categorize_first_match (payee : string) :
  (forall pre post c kws,
      CATEGORY_KEYWORDS = (pre ++ (c, kws) :: post)%list ->
      keyword_match payee (c, kws) ->
      (forall e, In e pre -> ~ keyword_match payee e) ->
      auto_categorize_transaction payee = c) /\
  ((forall e, In e CATEGORY_KEYWORDS -> ~ keyword_match payee e) ->
   auto_categorize_transaction payee = "Uncategorized") /\
  (payee = "" -> auto_categorize_transaction payee = "Uncategorized").
Proof.
  unfold auto_categorize_transaction.
  split; [|split].
  - intros pre post c kws Htab Hm Hpre.
    destruct (String.eqb payee "") eqn:E.
    + apply String.eqb_eq in E. subst payee. exfalso.
      apply (no_match_on_empty_payee (c, kws)); [|exact Hm].
      rewrite Htab. apply in_or_app. right. now left.
    + cbv zeta. rewrite Htab.
      now rewrite (category_loop_first payee pre post c kws Hm Hpre).
  - intros Hnone. destruct (String.eqb payee ""); [reflexivity|].
    cbv zeta. now rewrite (category_loop_none payee CATEGORY_KEYWORDS Hnone).
  - intros ->. reflexivity.
Qed.

Example categorize_starbucks :
  auto_categorize_transaction "STARBUCKS #123" = "Food & Dining".
Proof. reflexivity. Qed.

Example categorize_walmart_table_order :
  auto_categorize_transaction "Walmart Supercenter" = "Groceries".
Proof. reflexivity. Qed.

(** ** Rule engine *)

Section RuleEngineFacts.

Variable float_repr : Q -> string.

Lemma rules_loop_appends (txn : Transaction.t) (rules : list Rule.t)
    (updates : list (string * string)) :
  rules_loop float_repr txn rules updates
  = (updates ++ update_for float_repr rules txn)%list.
Proof.
  unfold update_for.
  induction rules as [|rule rest IH]; simpl.
  - now rewrite app_nil_r.
  - destruct (apply_rule float_repr txn rule); [|exact IH].
    destruct (String.eqb _ _); simpl; [now rewrite app_nil_r | reflexivity].
Qed.

Lemma transactions_loop_appends (rules : list Rule.t)
    (transactions : list Transaction.t) (updates : list (string * string)) :
  fold_left (fun updates txn => rules_loop float_repr txn rules updates)
            transactions updates
  = (updates ++ flat_map (update_for float_repr rules) transactions)%list.
Proof.
  revert updates. induction transactions as [|txn rest IH]; intros updates; simpl.
  - now rewrite app_nil_r.
  - now rewrite IH, rules_loop_appends, app_assoc.
Qed.

Lemma find_first (txn : Transaction.t) (pre post : list Rule.t) (rule : Rule.t) :
  apply_rule float_repr txn rule = true ->
  Forall (fun r => apply_rule float_repr txn r = false) pre ->
  find (apply_rule float_repr txn) (pre ++ rule :: post) = Some rule.
Proof.
  intros Hr Hpre. induction Hpre as [|r pre Hr' _ IH]; simpl.
  - now rewrite Hr.
  - now rewrite Hr'.
Qed.

(** In a list sorted by priority, no rule has a smaller priority than one
    that comes before it. *)
Lemma sorted_priority_least (pre post : list Rule.t) (rule r : Rule.t) :
  sorted_by_priority (pre ++ rule :: post) ->
  In r (rule :: post) -> (Rule.priority rule <= Rule.priority r)%Z.
Proof.
  unfold sorted_by_priority. intros Hs Hin.
  apply Sorted_StronglySorted in Hs; [|intros a b c; lia].
  induction pre as [|p pre IH]; simpl in Hs.
  - inversion Hs as [|? ? _ Hall]; subst.
    destruct Hin as [->|Hin]; [lia|].
    rewrite Forall_forall in Hall. now apply Hall.
  - inversion Hs; subst. now apply IH.
Qed.

(** C1. For rules sorted ascending by priority, the updates of
    [apply_rules_to_transactions] are the contributions of the transactions,
    in transaction order; a transaction contributes at most one update; when
    a rule applies, the first such rule (no rule that applies has a smaller
    priority) decides: the contribution is that rule's category under the
    transaction's id, or nothing when the transaction already has that
    category; a transaction no rule applies to contributes nothing. *)
Theorem apply_rules_first_match_wins
    (transactions_df : list Transaction.t) (rules_df : list Rule.t) :
  sorted_by_priority rules_df ->
  apply_rules_to_transactions float_repr transactions_df rules_df
  = flat_map (update_for float_repr rules_df) transactions_df /\
  forall txn,
    (length (update_for float_repr rules_df txn) <= 1)%nat /\
    (forall pre rule post,
        rules_df = (pre ++ rule :: post)%list ->
        apply_rule float_repr txn rule = true ->
        Forall (fun r => apply_rule float_repr txn r = false) pre ->
        (forall r, In r rules_df -> apply_rule float_repr txn r = true ->
                   (Rule.priority rule <= Rule.priority r)%Z) /\
        update_for float_repr rules_df txn
        = if String.eqb (Transaction.category txn) (Rule.rule_category rule)
          then []
          else [(Transaction.transaction_id txn, Rule.rule_category rule)]) /\
    ((forall r, In r rules_df -> apply_rule float_repr txn r = false) ->
     update_for float_repr rules_df txn = []).
Proof.
  intros Hsorted. split.
  - unfold apply_rules_to_transactions.
    now rewrite transactions_loop_appends.
  - intros txn. split; [|split].
    + unfold update_for.
      destruct (find _ rules_df); [destruct (String.eqb _ _)|]; simpl; lia.
    + intros pre rule post -> Hrule Hpre. split.
      * intros r Hin Hr. apply in_app_or in Hin as [Hin|Hin].
        -- rewrite Forall_forall in Hpre. specialize (Hpre r Hin). congruence.
        -- now apply (sorted_priority_least pre post).
      * unfold update_for. now rewrite (find_first txn pre post rule Hrule Hpre).
    + intros Hnone. unfold update_for.
      destruct (find _ rules_df) as [rule|] eqn:E; [|reflexivity].
      apply find_some in E as [Hin Hr]. specialize (Hnone rule Hin). congruence.
Qed.

(** C7. A rule whose condition is none of contains, equals, starts_with and
    ends_with applies to no transaction, whatever its field and value. *)
Theorem unknown_condition_no_match (txn : Transaction.t) (rule : Rule.t) :
  ~ In (Rule.rule_condition rule) known_conditions ->
  apply_rule float_repr txn rule = false.
Proof.
  intros Hnot. unfold apply_rule. cbv zeta.
  assert (Hne : forall c, In c known_conditions ->
                          String.eqb (Rule.rule_condition rule) c = false).
  { intros c Hc. apply String.eqb_neq. intros Heq. apply Hnot. now rewrite Heq. }
  unfold known_conditions in Hne.
  rewrite !Hne by (simpl; tauto). reflexivity.
Qed.

Lemma tests_against_empty (v : string) :
  (str_in v "" = true <-> v = "") /\
  (String.eqb "" v = true <-> v = "") /\
  (startswith "" v = true <-> v = "") /\
  (endswith "" v = true <-> v = "").
Proof.
  destruct v; simpl; repeat split; intros; congruence.
Qed.

(** C10. When the transaction has no field of the name [rule_field] gives,
    [apply_rule] tests the condition against the empty string: the rule then
    applies exactly when its lower-cased value is empty and its condition is
    one of contains, equals, starts_with and ends_with, and such a rule,
    first in the list, reassigns every transaction of another category. *)
Theorem absent_field_matches_empty_value (txn : Transaction.t) (rule : Rule.t) :
  lookup (Rule.rule_field rule) (Transaction.items txn) = None ->
  series_get txn (Rule.rule_field rule) (CStr "") = CStr "" /\
  (apply_rule float_repr txn rule = true <->
   lower (Rule.rule_value rule) = "" /\
   In (Rule.rule_condition rule) known_conditions) /\
  (lower (Rule.rule_value rule) = "" ->
   In (Rule.rule_condition rule) known_conditions ->
   Transaction.category txn <> Rule.rule_category rule ->
   forall rest,
     apply_rules_to_transactions float_repr [txn] (rule :: rest)
     = [(Transaction.transaction_id txn, Rule.rule_category rule)]).
Proof.
  intros Habsent.
  assert (Hget : series_get txn (Rule.rule_field rule) (CStr "") = CStr "")
    by (unfold series_get; now rewrite Habsent).
  assert (Hiff : apply_rule float_repr txn rule = true <->
                 lower (Rule.rule_value rule) = "" /\
                 In (Rule.rule_condition rule) known_conditions).
  { unfold apply_rule. rewrite Hget. cbv zeta. cbn [py_str lower].
    destruct (tests_against_empty (lower (Rule.rule_value rule)))
      as (Hin & Heq & Hst & Hen).
    unfold known_conditions.
    destruct (String.eqb (Rule.rule_condition rule) "contains") eqn:E1;
      [apply String.eqb_eq in E1; rewrite Hin, E1; simpl; tauto|].
    destruct (String.eqb (Rule.rule_condition rule) "equals") eqn:E2;
      [apply String.eqb_eq in E2; rewrite Heq, E2; simpl; tauto|].
    destruct (String.eqb (Rule.rule_condition rule) "starts_with") eqn:E3;
      [apply String.eqb_eq in E3; rewrite Hst, E3; simpl; tauto|].
    destruct (String.eqb (Rule.rule_condition rule) "ends_with") eqn:E4;
      [apply String.eqb_eq in E4; rewrite Hen, E4; simpl; tauto|].
    apply String.eqb_neq in E1, E2, E3, E4.
    split; [discriminate|]. intros [_ H]. simpl in H.
    destruct H as [H|[H|[H|[H|[]]]]]; congruence. }
  split; [exact Hget|]. split; [exact Hiff|].
  intros Hval Hcond Hcat rest.
  unfold apply_rules_to_transactions. simpl.
  replace (apply_rule float_repr txn rule) with true
    by (symmetry; apply Hiff; now split).
  apply String.eqb_neq in Hcat. now rewrite Hcat.
Qed.

End RuleEngineFacts.

(** The example of the specification: two rules on the same payee text, the
    one of priority 1 decides. *)
Lemma apply_rules_first_match_wins_example :
  apply_rules_to_transactions float_repr_whole
    [sample_txn "txn_id" "AMAZON.COM" (-25) "Uncategorized";
     sample_txn "txn_2" "Amazon Prime" (-15) "Shopping";
     sample_txn "txn_3" "Corner Cafe" (-4) "Uncategorized"]
    [sample_rule 1 "payee" "contains" "amazon" "Shopping";
     sample_rule 2 "payee" "contains" "amazon" "Other"]
  = [("txn_id", "Shopping")].
Proof.
  refine (eq_trans
            (proj1 (apply_rules_first_match_wins float_repr_whole _ _ _)) _).
  - repeat constructor; simpl; lia.
  - reflexivity.
Defined.

Lemma unknown_condition_no_match_example :
  apply_rule float_repr_whole
    (sample_txn "txn_id" "AMAZON.COM" (-25) "Uncategorized")
    (sample_rule 1 "payee" "matches_regex" "amazon" "Shopping")
  = false.
Proof.
  apply unknown_condition_no_match.
  unfold known_conditions. simpl.
  intros [H|[H|[H|[H|[]]]]]; discriminate.
Defined.

(** A rule on the field "merchant", which no transaction has, with an empty
    value: it reassigns the transaction. *)
Lemma absent_field_matches_empty_value_example :
  apply_rules_to_transactions float_repr_whole
    [sample_txn "txn_id" "AMAZON.COM" (-25) "Shopping"]
    [sample_rule 1 "merchant" "starts_with" "" "Other"]
  = [("txn_id", "Other")].
Proof.
  refine (proj2 (proj2 (absent_field_matches_empty_value float_repr_whole
                          (sample_txn "txn_id" "AMAZON.COM" (-25) "Shopping")
                          (sample_rule 1 "merchant" "starts_with" "" "Other")
                          _)) _ _ _ []).
  - reflexivity.
  - reflexivity.
  - unfold known_conditions. simpl. tauto.
  - simpl. discriminate.
Defined.

(** ** Amounts *)

Lemma Qltb_lt (x y : Q) : Qltb x y = true <-> (x < y)%Q.
Proof.
  unfold Qltb. rewrite negb_true_iff, <- not_true_iff_false, Qle_bool_iff.
  split; [apply Qnot_le_lt | apply Qlt_not_le].
Qed.

Lemma Qltb_ge (x y : Q) : Qltb x y = false <-> (y <= x)%Q.
Proof.
  unfold Qltb. now rewrite negb_false_iff, Qle_bool_iff.
Qed.

Lemma fold_Qplus (l : list Q) (a : Q) :
  (fold_left Qplus l a == a + Qsum l)%Q.
Proof.
  unfold Qsum. revert a. induction l as [|x l IH]; intros a; simpl.
  - lra.
  - rewrite (IH (a + x)%Q), (IH (0 + x)%Q). lra.
Qed.

Lemma Qsum_cons (x : Q) (l : list Q) : (Qsum (x :: l) == x + Qsum l)%Q.
Proof. unfold Qsum at 1. simpl. rewrite fold_Qplus. lra. Qed.


Lemma Qsum_nonpos (l : list Q) :
  Forall (fun x => x <= 0)%Q l -> (Qsum l <= 0)%Q.
Proof.
  induction 1 as [|x l Hx _ IH].
  - unfold Qsum. simpl. lra.
  - rewrite Qsum_cons. lra.
Qed.

(** ** Grouping *)

Lemma compare_lt_trans (a b c : string) :
  String.compare a b = Lt -> String.compare b c = Lt -> String.compare a c = Lt.
Proof.
  intros Hab Hbc.
  apply OrderedTypeEx.String_as_OT.cmp_lt in Hab, Hbc.
  apply OrderedTypeEx.String_as_OT.cmp_lt.
  exact (OrderedTypeEx.String_as_OT.lt_trans _ _ _ Hab Hbc).
Qed.

Lemma compare_refl (a : string) : String.compare a a = Eq.
Proof.
  destruct (String.compare a a) eqn:E; [reflexivity| |];
    pose proof (String.compare_antisym a a) as H; rewrite E in H; discriminate.
Qed.

Lemma compare_lt_neq (a b : string) : String.compare a b = Lt -> a <> b.
Proof. intros H ->. rewrite compare_refl in H. discriminate. Qed.

Lemma lookup_none {A : Type} (key : string) (items : list (string * A)) :
  lookup key items = None <-> ~ In key (map fst items).
Proof.
  induction items as [|[k v] items IH]; simpl.
  - tauto.
  - destruct (String.eqb key k) eqn:E.
    + apply String.eqb_eq in E. split; [discriminate | intros H; exfalso; auto].
    + apply String.eqb_neq in E. rewrite IH. split.
      * intros H [H'|H']; [congruence | auto].
      * intros H H'. auto.
Qed.

Lemma group_add_keys (key : string) (v : Q) (groups : list (string * Q)) (x : string) :
  In x (map fst (group_add key v groups)) <-> x = key \/ In x (map fst groups).
Proof.
  induction groups as [|[k s] rest IH]; simpl.
  - intuition.
  - destruct (String.compare key k) eqn:E; simpl.
    + apply String.compare_eq_iff in E. subst k. intuition.
    + intuition.
    + rewrite IH. intuition.
Qed.

Lemma group_add_ascending (key : string) (v : Q) (groups : list (string * Q)) :
  keys_ascending groups -> keys_ascending (group_add key v groups).
Proof.
  unfold keys_ascending.
  induction 1 as [|[k s] rest Hrest IH Hall]; simpl.
  - repeat constructor.
  - destruct (String.compare key k) eqn:E.
    + constructor; [exact Hrest | exact Hall].
    + constructor; [now constructor|].
      constructor; [exact E|].
      eapply Forall_impl; [|exact Hall].
      intros y Hy. simpl in *. eapply compare_lt_trans; eassumption.
    + constructor; [exact IH|].
      rewrite Forall_forall in *. intros [k' s'] Hin.
      assert (Hk : In k' (map fst (group_add key v rest)))
        by (apply in_map_iff; now exists (k', s')).
      apply group_add_keys in Hk as [->|Hk]; simpl.
      * rewrite String.compare_antisym, E. reflexivity.
      * apply in_map_iff in Hk as ([k'' s''] & Heq & Hin'). simpl in Heq.
        subst k''. exact (Hall _ Hin').
Qed.

Lemma below_head_absent (key : string) (groups : list (string * Q)) :
  keys_ascending groups ->
  Forall (fun y => String.compare key (fst y) = Lt) groups ->
  lookup key groups = None.
Proof.
  intros _ Hall. apply lookup_none. intros Hin.
  apply in_map_iff in Hin as (y & Hy & Hin).
  rewrite Forall_forall in Hall. specialize (Hall y Hin).
  apply compare_lt_neq in Hall. congruence.
Qed.

(** One more row adds its value to the total of its key and leaves the other
    totals as they are. *)
Lemma total_of_group_add (c key : string) (v : Q) (groups : list (string * Q)) :
  keys_ascending groups ->
  (total_of c (group_add key v groups)
   == total_of c groups + (if String.eqb c key then v else 0))%Q.
Proof.
  unfold total_of, keys_ascending.
  induction 1 as [|[k s] rest Hrest IH Hall]; simpl.
  - destruct (String.eqb c key); lra.
  - destruct (String.compare key k) eqn:E.
    + apply String.compare_eq_iff in E. subst k. simpl.
      destruct (String.eqb c key); lra.
    + simpl. destruct (String.eqb c key) eqn:Ec.
      * apply String.eqb_eq in Ec. subst c.
        assert (Hk : String.eqb key k = false)
          by (apply String.eqb_neq; now apply compare_lt_neq).
        rewrite Hk.
        rewrite (below_head_absent key rest Hrest); [lra|].
        eapply Forall_impl; [|exact Hall].
        intros y Hy. simpl in *. eapply compare_lt_trans; eassumption.
      * destruct (String.eqb c k); lra.
    + simpl. destruct (String.eqb c k) eqn:Ek.
      * apply String.eqb_eq in Ek. subst c.
        assert (Hk : String.eqb k key = false).
        { apply String.eqb_neq. intros ->. rewrite compare_refl in E.
          discriminate. }
        rewrite Hk. lra.
      * exact IH.
Qed.

Lemma fold_group_add_ascending (rows groups : list (string * Q)) :
  keys_ascending groups ->
  keys_ascending
    (fold_left (fun groups row => group_add (fst row) (snd row) groups)
               rows groups).
Proof.
  revert groups. induction rows as [|r rows IH]; intros groups H; simpl.
  - exact H.
  - apply IH. now apply group_add_ascending.
Qed.

Lemma groupby_sum_ascending (rows : list (string * Q)) :
  keys_ascending (groupby_sum rows).
Proof. apply fold_group_add_ascending. constructor. Qed.

Lemma fold_group_add_keys (rows groups : list (string * Q)) (x : string) :
  In x (map fst (fold_left
                   (fun groups row => group_add (fst row) (snd row) groups)
                   rows groups))
  <-> In x (map fst rows) \/ In x (map fst groups).
Proof.
  revert groups. induction rows as [|r rows IH]; intros groups; simpl.
  - tauto.
  - rewrite IH, group_add_keys. intuition.
Qed.

Lemma groupby_sum_keys (rows : list (string * Q)) (x : string) :
  In x (map fst (groupby_sum rows)) <-> In x (map fst rows).
Proof. unfold groupby_sum. rewrite fold_group_add_keys. simpl. tauto. Qed.

Lemma fold_group_add_total (c : string) (rows groups : list (string * Q)) :
  keys_ascending groups ->
  (total_of c (fold_left
                 (fun groups row => group_add (fst row) (snd row) groups)
                 rows groups)
   == total_of c groups
      + Qsum (map snd (filter (fun r => String.eqb (fst r) c) rows)))%Q.
Proof.
  revert groups. induction rows as [|r rows IH]; intros groups H; simpl.
  - unfold Qsum. simpl. lra.
  - rewrite IH by now apply group_add_ascending.
    rewrite total_of_group_add by exact H.
    rewrite (String.eqb_sym (fst r) c).
    destruct (String.eqb c (fst r)); simpl; [rewrite Qsum_cons|]; lra.
Qed.

(** The total a grouped series holds for a key is the sum of the rows of
    that key. *)
Lemma groupby_sum_total (c : string) (rows : list (string * Q)) :
  (total_of c (groupby_sum rows)
   == Qsum (map snd (filter (fun r => String.eqb (fst r) c) rows)))%Q.
Proof.
  unfold groupby_sum. rewrite fold_group_add_total by constructor.
  unfold total_of. simpl. lra.
Qed.

(** ** Budget reconciler *)

Lemma expenses_in_rows (c : string) (transactions_df : list Transaction.t) :
  map snd
      (filter (fun r => String.eqb (fst r) c)
              (map (fun t => (Transaction.category t, Transaction.amount t))
                   (filter is_expense transactions_df)))
  = expenses_in c transactions_df.
Proof.
  unfold expenses_in.
  induction transactions_df as [|t rest IH]; simpl; [reflexivity|].
  destruct (is_expense t); simpl; [|exact IH].
  destruct (String.eqb (Transaction.category t) c); simpl; [f_equal|]; exact IH.
Qed.

Lemma expenses_in_negative (c : string) (transactions_df : list Transaction.t) :
  Forall (fun x => x < 0)%Q (expenses_in c transactions_df).
Proof.
  unfold expenses_in. apply Forall_forall. intros x Hx.
  apply in_map_iff in Hx as (t & <- & Ht).
  apply filter_In in Ht as [_ Ht].
  apply andb_true_iff in Ht as [Ht _]. now apply Qltb_lt.
Qed.



Lemma progress_nth (budgets_df : list Budget.t)
    (transactions_df : list Transaction.t) (i : nat) :
  nth_error (calculate_budget_progress budgets_df transactions_df) i
  = option_map
      (fun b => Budget.set_spent b
                  (total_of (Budget.category b)
                     (groupby_sum
                        (map (fun t => (Transaction.category t,
                                        Transaction.amount t))
                             (filter is_expense transactions_df)))))
      (nth_error budgets_df i).
Proof.
  unfold calculate_budget_progress. cbv zeta. now rewrite nth_error_map.
Qed.

Lemma spent_total (c : string) (transactions_df : list Transaction.t) :
  (total_of c
     (groupby_sum
        (map (fun t => (Transaction.category t, Transaction.amount t))
             (filter is_expense transactions_df)))
   == Qsum (expenses_in c transactions_df))%Q.
Proof. now rewrite groupby_sum_total, expenses_in_rows. Qed.

(** C4. Every row of the result of [calculate_budget_progress] is the budget
    row at the same place with its [spent] column replaced; the value is the
    sum of the negative amounts of the transactions of the row's category, so
    it is negative or zero, and it is [0] when the category has no transaction
    of negative amount. *)
Theorem budget_progress_spent (budgets_df : list Budget.t)
    (transactions_df : list Transaction.t) :
  length (calculate_budget_progress budgets_df transactions_df)
  = length budgets_df /\
  forall i b,
    nth_error budgets_df i = Some b ->
    exists r,
      nth_error (calculate_budget_progress budgets_df transactions_df) i
      = Some r /\
      r = Budget.set_spent b (Budget.spent r) /\
      (Budget.spent r
       == Qsum (expenses_in (Budget.category b) transactions_df))%Q /\
      (Budget.spent r <= 0)%Q /\
      ((forall t, In t transactions_df ->
                  Transaction.category t = Budget.category b ->
                  ~ (Transaction.amount t < 0)%Q) ->
       Budget.spent r = 0%Q).
Proof.
  split.
  - unfold calculate_budget_progress. cbv zeta. apply length_map.
  - intros i b Hb. rewrite progress_nth, Hb. simpl.
    eexists. split; [reflexivity|]. simpl.
    split; [reflexivity|]. split; [apply spent_total|]. split.
    + rewrite spent_total. apply Qsum_nonpos.
      eapply Forall_impl; [|apply expenses_in_negative].
      intros x Hx. simpl in Hx. lra.
    + intros Hnone. unfold total_of.
      replace (lookup _ _) with (@None Q); [reflexivity|].
      symmetry. apply lookup_none. rewrite groupby_sum_keys.
      intros Hin. apply in_map_iff in Hin as ([c a] & Hc & Hin).
      apply in_map_iff in Hin as (t & Heq & Ht). inversion Heq; subst.
      apply filter_In in Ht as [Ht Hexp]. simpl in Hc.
      apply (Hnone t Ht Hc). now apply Qltb_lt.
Qed.

Example budget_progress_groceries :
  map Budget.spent
      (calculate_budget_progress
         [Budget.mk "u1" "2025-01" "Groceries" 500 0 "";
          Budget.mk "u1" "2025-01" "Travel" 300 0 ""]
         [sample_txn "t1" "Safeway" (-400) "Groceries";
          sample_txn "t2" "Refund" 30 "Groceries";
          sample_txn "t3" "Kroger" (-250) "Groceries";
          sample_txn "t4" "Payroll" 1200 "Income"])
  = [(-650)%Q; 0%Q].
Proof. reflexivity. Qed.







Example over_budget_figures :
  let f := budget_display (Budget.mk "u1" "2025-01" "Groceries" 500 (-650) "") in
  (shown_spent f == 650 /\ remaining f == -150 /\ percent f == 130)%Q.
Proof. repeat split. Qed.

(** ** Trend *)

Lemma Qabs_positive (p : Q) : ~ (p == 0)%Q -> (0 < Qabs p)%Q.
Proof.
  intros Hp. apply Qabs_case; intros H.
  - apply Qle_lt_or_eq in H as [H|H]; [exact H|]. exfalso. apply Hp. lra.
  - apply Qle_lt_or_eq in H as [H|H]; [lra|]. exfalso. apply Hp. exact H.
Qed.

(** The change has the sign of [current - previous]. *)
Lemma change_sign (current previous : Q) :
  ~ (previous == 0)%Q ->
  let change := ((current - previous) / Qabs previous * 100)%Q in
  ((previous < current)%Q -> (0 < change)%Q) /\
  ((current < previous)%Q -> (change < 0)%Q) /\
  ((current == previous)%Q -> (change == 0)%Q).
Proof.
  intros Hp change.
  assert (Hk : (0 < / Qabs previous)%Q)
    by (apply Qinv_lt_0_compat, Qabs_positive, Hp).
  assert (Hc : (change == (current - previous) * (/ Qabs previous * 100))%Q)
    by (unfold change, Qdiv; ring).
  assert (Hk' : (0 < / Qabs previous * 100)%Q) by lra.
  repeat split; intros H; rewrite Hc.
  - apply Qmult_lt_0_compat; lra.
  - assert (0 < (previous - current) * (/ Qabs previous * 100))%Q
      by (apply Qmult_lt_0_compat; lra).
    lra.
  - rewrite H. ring.
Qed.

Lemma change_magnitude (current previous : Q) :
  ~ (previous == 0)%Q ->
  (Qabs ((current - previous) / Qabs previous * 100)
   == Qabs ((current - previous) / previous) * 100)%Q.
Proof.
  intros Hp. unfold Qdiv.
  rewrite !Qabs_Qmult, !Qabs_Qinv.
  rewrite (Qabs_pos (Qabs previous)) by apply Qabs_nonneg.
  rewrite (Qabs_pos 100) by lra. reflexivity.
Qed.

(** C6. [calculate_trend] returns [(0, "neutral")] when [previous] is zero,
    as it does for [(0, 0)] and [(100, 0)];
    otherwise the magnitude of the relative change in percent, with "up" when
    [current] is above [previous], "down" when it is below and "neutral" when
    they are equal. *)
Theorem calculate_trend_spec (current previous : Q) :
  calculate_trend 0 0 = (0%Q, "neutral") /\
  calculate_trend 100 0 = (0%Q, "neutral") /\
  ((previous == 0)%Q -> calculate_trend current previous = (0%Q, "neutral")) /\
  (~ (previous == 0)%Q ->
   (fst (calculate_trend current previous)
    == Qabs ((current - previous) / previous) * 100)%Q /\
   ((previous < current)%Q -> snd (calculate_trend current previous) = "up") /\
   ((current < previous)%Q -> snd (calculate_trend current previous) = "down") /\
   ((current == previous)%Q ->
    snd (calculate_trend current previous) = "neutral")).
Proof.
  split; [reflexivity|]. split; [reflexivity|].
  unfold calculate_trend. split.
  - intros Hp. apply Qeq_bool_iff in Hp. now rewrite Hp.
  - intros Hp.
    destruct (Qeq_bool previous 0) eqn:E;
      [apply Qeq_bool_iff in E; contradiction|].
    cbv zeta. cbn [fst snd].
    destruct (change_sign current previous Hp) as (Hup & Hdown & Hsame).
    cbv zeta in Hup, Hdown, Hsame.
    split; [now apply change_magnitude|]. repeat split; intros H.
    + apply Hup, Qltb_lt in H. now rewrite H.
    + specialize (Hdown H).
      assert (H1 : Qltb 0 ((current - previous) / Qabs previous * 100) = false)
        by (apply Qltb_ge; lra).
      apply Qltb_lt in Hdown. now rewrite H1, Hdown.
    + specialize (Hsame H).
      assert (H1 : Qltb 0 ((current - previous) / Qabs previous * 100) = false)
        by (apply Qltb_ge; lra).
      assert (H2 : Qltb ((current - previous) / Qabs previous * 100) 0 = false)
        by (apply Qltb_ge; lra).
      now rewrite H1, H2.
Qed.

Example trend_zero_zero : calculate_trend 0 0 = (0%Q, "neutral").
Proof. reflexivity. Qed.

Example trend_hundred_zero : calculate_trend 100 0 = (0%Q, "neutral").
Proof. reflexivity. Qed.

(** ** Monthly summary *)

(** *** The period of a date *)

Lemma digit_inj (a b : Z) : digit a = digit b -> (a mod 10 = b mod 10)%Z.
Proof.
  unfold digit. intros H.
  apply (f_equal nat_of_ascii) in H.
  pose proof (Z.mod_pos_bound a 10) as Ha.
  pose proof (Z.mod_pos_bound b 10) as Hb.
  rewrite !nat_ascii_embedding in H by lia. lia.
Qed.

Lemma pad2_inj (a b : Z) :
  (0 <= a < 100)%Z -> (0 <= b < 100)%Z -> pad2 a = pad2 b -> a = b.
Proof.
  unfold pad2. intros Ha Hb H.
  injection H as H1 H2. apply digit_inj in H1, H2.
  Z.div_mod_to_equations. lia.
Qed.

Lemma pad4_inj (a b : Z) :
  (0 <= a < 10000)%Z -> (0 <= b < 10000)%Z -> pad4 a = pad4 b -> a = b.
Proof.
  unfold pad4, pad2. intros Ha Hb H.
  injection H as H1 H2 H3 H4. apply digit_inj in H1, H2, H3, H4.
  Z.div_mod_to_equations. lia.
Qed.

Lemma append_inv_head (a b c d : string) :
  String.length a = String.length b -> a ++ c = b ++ d -> a = b /\ c = d.
Proof.
  revert b. induction a as [|x a IH]; intros [|y b] Hlen H; simpl in *;
    try discriminate.
  - now split.
  - injection H as -> H. injection Hlen as Hlen.
    destruct (IH b Hlen H) as [-> ->]. now split.
Qed.

(** Two dates are rendered as the same year-month exactly when they have
    the same year and the same month. *)
Lemma strftime_month_year_inj (d d' : timestamp) :
  (0 <= year d < 10000)%Z -> (0 <= year d' < 10000)%Z ->
  (0 <= month d < 100)%Z -> (0 <= month d' < 100)%Z ->
  strftime_month_year d = strftime_month_year d' <->
  year d = year d' /\ month d = month d'.
Proof.
  unfold strftime_month_year. intros Hy Hy' Hm Hm'. split.
  - intros H.
    apply append_inv_head in H as [H1 H2]; [|reflexivity].
    apply append_inv_head in H2 as [_ H2]; [|reflexivity].
    split; [now apply pad4_inj | now apply pad2_inj].
  - intros [-> ->]. reflexivity.
Qed.

(** *** The summary *)

Lemma filter_filter {A : Type} (f g : A -> bool) (l : list A) :
  filter g (filter f l) = filter (fun x => f x && g x) l.
Proof.
  induction l as [|x l IH]; simpl; [reflexivity|].
  destruct (f x); simpl; [destruct (g x); now rewrite IH | exact IH].
Qed.

(** On a frame whose [date] column holds dates: when no transaction falls
    in the period, every field is zero; otherwise the income is the sum of
    the positive amounts of the period, the expenses are the absolute value
    of the sum of its negative amounts, the net is the income less the
    expenses, the count is the number of rows of the period, and the average
    is the sum of all its amounts over the count. *)
Lemma monthly_summary_of_dated_frame (df : list Transaction.t)
    (month_year : string) :
  let month_df := filter (in_period month_year) df in
  let s := calculate_monthly_summary df month_year in
  (month_df = [] -> s = mkSummary 0 0 0 0 0) /\
  (month_df <> [] ->
   income s
   = Qsum (map Transaction.amount
               (filter (fun t => in_period month_year t
                                 && Qltb 0 (Transaction.amount t)) df)) /\
   expenses s
   = Qabs (Qsum (map Transaction.amount
                     (filter (fun t => in_period month_year t
                                       && Qltb (Transaction.amount t) 0) df))) /\
   net s = (income s - expenses s)%Q /\
   transaction_count s = length month_df /\
   (0 < transaction_count s)%nat /\
   avg_transaction s
   = (Qsum (map Transaction.amount month_df)
      / inject_Z (Z.of_nat (transaction_count s)))%Q).
Proof.
  intros month_df s. subst s. unfold calculate_monthly_summary.
  fold (in_period month_year). fold month_df. cbv zeta.
  destruct month_df as [|t rest] eqn:E.
  - split; [reflexivity | intros H; contradiction].
  - split; [discriminate|]. intros _.
    cbn [length Nat.eqb income expenses net transaction_count avg_transaction].
    rewrite <- E. unfold month_df. rewrite !filter_filter.
    fold month_df. rewrite E.
    split; [reflexivity|]. split; [reflexivity|]. split; [reflexivity|].
    split; [reflexivity|]. split; [cbn [length]; lia|].
    unfold Qmean. rewrite length_map. reflexivity.
Qed.

Example monthly_summary_no_rows :
  calculate_monthly_summary [] "2025-01" = mkSummary 0 0 0 0 0.
Proof. reflexivity. Qed.

Example monthly_summary_other_month :
  calculate_monthly_summary
    [sample_txn "t1" "Payroll" 1200 "Income";
     sample_txn "t2" "Corner Cafe" (-4) "Food & Dining"] "2025-02"
  = mkSummary 0 0 0 0 0.
Proof. reflexivity. Qed.

Example monthly_summary_january :
  let s := calculate_monthly_summary
             [sample_txn "t1" "Payroll" 1200 "Income";
              sample_txn "t2" "Corner Cafe" (-4) "Food & Dining";
              sample_txn "t3" "Metro" (-6) "Transportation"] "2025-01" in
  (income s == 1200 /\ expenses s == 10 /\ net s == 1190 /\
   avg_transaction s == 1190 / 3)%Q /\ transaction_count s = 3%nat.
Proof. repeat split. Qed.

(** ** Top merchants *)

Lemma rank_insert_perm (x : string * Q) (ranked : list (string * Q)) :
  Permutation (rank_insert x ranked) (x :: ranked).
Proof.
  induction ranked as [|y rest IH]; simpl; [reflexivity|].
  destruct (Qle_bool (snd y) (snd x)); [reflexivity|].
  rewrite IH. apply perm_swap.
Qed.

Lemma sort_values_desc_perm (series : list (string * Q)) :
  Permutation (sort_values_desc series) series.
Proof.
  induction series as [|x rest IH]; simpl; [reflexivity|].
  now rewrite rank_insert_perm, IH.
Qed.

(** A ranking is in descending order of its values. *)
Lemma rank_insert_descending (x : string * Q) (ranked : list (string * Q)) :
  StronglySorted (fun a b => snd b <= snd a)%Q ranked ->
  StronglySorted (fun a b => snd b <= snd a)%Q (rank_insert x ranked).
Proof.
  induction 1 as [|y rest Hrest IH Hall]; simpl.
  - repeat constructor.
  - destruct (Qle_bool (snd y) (snd x)) eqn:E.
    + apply Qle_bool_iff in E.
      constructor; [now constructor|].
      constructor; [exact E|].
      eapply Forall_impl; [|exact Hall]. intros z Hz. simpl in Hz. lra.
    + assert (Hlt : (snd x < snd y)%Q).
      { apply Qnot_le_lt. intros H. apply Qle_bool_iff in H. congruence. }
      constructor; [exact IH|].
      apply (Permutation_Forall (Permutation_sym (rank_insert_perm x rest))).
      constructor; [lra | exact Hall].
Qed.

Lemma sort_values_desc_descending (series : list (string * Q)) :
  StronglySorted (fun a b => snd b <= snd a)%Q (sort_values_desc series).
Proof.
  induction series as [|x rest IH]; simpl; [constructor|].
  now apply rank_insert_descending.
Qed.

Lemma head_all {A : Type} (l : list A) : head (Z.of_nat (length l)) l = l.
Proof.
  unfold head.
  destruct (0 <=? Z.of_nat (length l))%Z eqn:E.
  - rewrite Nat2Z.id. apply firstn_all.
  - apply Z.leb_gt in E. lia.
Qed.

Lemma keys_ascending_nodup (groups : list (string * Q)) :
  keys_ascending groups -> NoDup (map fst groups).
Proof.
  induction 1 as [|[k s] rest _ IH Hall]; simpl; constructor; [|exact IH].
  intros Hin. apply in_map_iff in Hin as (y & Hy & Hin).
  rewrite Forall_forall in Hall. specialize (Hall y Hin). simpl in Hall.
  apply compare_lt_neq in Hall. congruence.
Qed.

(** There is one group for each distinct key. *)
Lemma groupby_sum_length (rows : list (string * Q)) :
  length (groupby_sum rows) = length (nodup string_dec (map fst rows)).
Proof.
  rewrite <- (length_map fst (groupby_sum rows)).
  apply Permutation_length, NoDup_Permutation.
  - apply keys_ascending_nodup, groupby_sum_ascending.
  - apply NoDup_nodup.
  - intros x. now rewrite groupby_sum_keys, nodup_In.
Qed.

(** The rows [get_top_merchants] groups: payee and absolute amount of each
    expense. *)
Lemma expense_rows (df : list Transaction.t) :
  map (fun t => (Transaction.payee t, Transaction.amount t))
      (map (fun t => Transaction.set_amount t (Qabs (Transaction.amount t)))
           (filter is_expense df))
  = map (fun t => (Transaction.payee t, Qabs (Transaction.amount t)))
        (filter is_expense df).
Proof. now rewrite map_map. Qed.

Example top_merchants_sample :
  get_top_merchants
    [sample_txn "t1" "Safeway" (-40) "Groceries";
     sample_txn "t2" "Metro" (-6) "Transportation";
     sample_txn "t3" "Payroll" 1200 "Income";
     sample_txn "t4" "Safeway" (-25) "Groceries";
     sample_txn "t5" "Corner Cafe" (-6) "Food & Dining"] 2
  = [mkMerchant "Safeway" 65; mkMerchant "Corner Cafe" 6].
Proof. reflexivity. Qed.

Lemma filter_perm {A : Type} (f : A -> bool) (l l' : list A) :
  Permutation l l' -> Permutation (filter f l) (filter f l').
Proof.
  induction 1 as [|x l l' _ IH|x y l|l l' l'' _ IH1 _ IH2]; simpl.
  - constructor.
  - destruct (f x); [now constructor | exact IH].
  - destruct (f x), (f y); try reflexivity. apply perm_swap.
  - now rewrite IH1.
Qed.

(** *** The ranking *)

Lemma head_prefix {A : Type} (n : Z) (l : list A) :
  exists rest, l = (head n l ++ rest)%list.
Proof.
  unfold head. destruct (0 <=? n)%Z; eexists; symmetry; apply firstn_skipn.
Qed.

Lemma head_map {A B : Type} (f : A -> B) (n : Z) (l : list A) :
  head n (map f l) = map f (head n l).
Proof.
  unfold head. rewrite length_map. destruct (0 <=? n)%Z; apply firstn_map.
Qed.

Lemma StronglySorted_prefix {A : Type} (R : A -> A -> Prop) (l1 l2 : list A) :
  StronglySorted R (l1 ++ l2) -> StronglySorted R l1.
Proof.
  induction l1 as [|x l1 IH]; simpl; intros H; [constructor|].
  inversion H as [|? ? Hs Hall]; subst. constructor; [now apply IH|].
  apply Forall_app in Hall. tauto.
Qed.

Lemma StronglySorted_map {A B : Type} (f : A -> B) (R : B -> B -> Prop)
    (l : list A) :
  StronglySorted (fun a b => R (f a) (f b)) l -> StronglySorted R (map f l).
Proof.
  induction 1 as [|x l _ IH Hall]; simpl; constructor; [exact IH|].
  apply Forall_map. exact Hall.
Qed.

Lemma lookup_in (key : string) (v : Q) (groups : list (string * Q)) :
  NoDup (map fst groups) -> In (key, v) groups -> lookup key groups = Some v.
Proof.
  induction groups as [|[k s] rest IH]; simpl; intros Hnd Hin; [contradiction|].
  inversion Hnd as [|? ? Hk Hrest]; subst.
  destruct Hin as [Heq|Hin].
  - inversion Heq; subst. now rewrite String.eqb_refl.
  - destruct (String.eqb key k) eqn:E; [|now apply IH].
    apply String.eqb_eq in E. subst k. exfalso. apply Hk.
    apply in_map_iff. now exists (key, v).
Qed.

Lemma spent_at_rows (p : string) (df : list Transaction.t) :
  map snd
      (filter (fun r => String.eqb (fst r) p)
              (map (fun t => (Transaction.payee t, Qabs (Transaction.amount t)))
                   (filter is_expense df)))
  = spent_at p df.
Proof.
  unfold spent_at.
  induction df as [|t rest IH]; simpl; [reflexivity|].
  destruct (is_expense t); simpl; [|exact IH].
  destruct (String.eqb (Transaction.payee t) p); simpl; [f_equal|]; exact IH.
Qed.

(** The rows of [get_top_merchants], from the ranked groups. *)
Lemma top_merchants_rows (df : list Transaction.t) (n : Z) :
  get_top_merchants df n
  = head n
      (map (fun e => mkMerchant (fst e) (snd e))
           (sort_values_desc
              (groupby_sum
                 (map (fun t => (Transaction.payee t,
                                 Qabs (Transaction.amount t)))
                      (filter is_expense df))))).
Proof.
  unfold get_top_merchants, top_merchants_by. cbv zeta.
  now rewrite expense_rows, head_map.
Qed.

(** C8, as stated, fails: "Bakery" has its expense before "Arcade" and the
    same total, and "Arcade" is ranked first. *)
Lemma top_merchants_ties_not_insertion_order :
  get_top_merchants tied_frame 2
  = [mkMerchant "Arcade" 5; mkMerchant "Bakery" 5] /\
  ~ ties_in_insertion_order tied_frame (get_top_merchants tied_frame 2).
Proof.
  split; [reflexivity|].
  intros H.
  specialize (H 0%nat 1%nat (mkMerchant "Arcade" 5) (mkMerchant "Bakery" 5)).
  simpl in H.
  assert (Hlt : (1 < 0)%nat)
    by (apply H; [lia | reflexivity | reflexivity | reflexivity]).
  lia.
Qed.

(** The same frame with its two rows exchanged has the same result, whatever
    the ranking step does with equal values. *)
Lemma tied_frame_order_is_lost
    (ranking : list (string * Q) -> list (string * Q)) (n : Z) :
  top_merchants_by ranking (rev tied_frame) n
  = top_merchants_by ranking tied_frame n.
Proof. reflexivity. Qed.

(** No ranking step that keeps the entries it is given can put the ties of
    both frames in the order of their transactions. *)
Lemma no_ranking_keeps_insertion_order
    (ranking : list (string * Q) -> list (string * Q)) :
  (forall series, Permutation series (ranking series)) ->
  ~ (ties_in_insertion_order tied_frame
       (top_merchants_by ranking tied_frame 2) /\
     ties_in_insertion_order (rev tied_frame)
       (top_merchants_by ranking (rev tied_frame) 2)).
Proof.
  intros Hperm [H1 H2].
  rewrite tied_frame_order_is_lost in H2.
  unfold top_merchants_by in H1, H2. cbv zeta in H1, H2.
  change (groupby_sum _) with [("Arcade", 5%Q); ("Bakery", 5%Q)] in H1, H2.
  destruct (Permutation_length_2_inv (Hperm [("Arcade", 5%Q); ("Bakery", 5%Q)]))
    as [E|E]; rewrite E in H1, H2.
  - specialize (H1 0%nat 1%nat (mkMerchant "Arcade" 5) (mkMerchant "Bakery" 5)).
    simpl in H1.
    assert (1 < 0)%nat by (apply H1; [lia | reflexivity..]). lia.
  - specialize (H2 0%nat 1%nat (mkMerchant "Bakery" 5) (mkMerchant "Arcade" 5)).
    simpl in H2.
    assert (1 < 0)%nat by (apply H2; [lia | reflexivity..]). lia.
Qed.

(** C8, amended. [get_top_merchants] returns the first [n] rows (all but the
    last [-n] for a negative [n]) of a ranking of the payees: the ranking
    holds every payee with an expense once and no other payee, each with the
    sum of the absolute values of its expenses, added in row order, and it is
    in descending order of these sums. Nothing more is said of the order of
    payees with equal sums, which is not the order of their transactions. *)
Theorem top_merchants_ranked (df : list Transaction.t) (n : Z) :
  exists ranked,
    get_top_merchants df n = head n ranked /\
    ranked_descending ranked /\
    NoDup (map Merchant ranked) /\
    (forall p, In p (map Merchant ranked) <-> In p (expense_payees df)) /\
    (forall r, In r ranked ->
               (Total_Spent r == Qsum (spent_at (Merchant r) df))%Q).
Proof.
  rewrite top_merchants_rows.
  set (rows := map (fun t => (Transaction.payee t, Qabs (Transaction.amount t)))
                   (filter is_expense df)).
  set (groups := groupby_sum rows).
  set (ranked := map (fun e => mkMerchant (fst e) (snd e))
                     (sort_values_desc groups)).
  assert (Hkeys : map Merchant ranked = map fst (sort_values_desc groups)).
  { unfold ranked. rewrite map_map. reflexivity. }
  assert (Hperm : Permutation (map Merchant ranked) (map fst groups)).
  { rewrite Hkeys. apply Permutation_map, sort_values_desc_perm. }
  exists ranked. split; [reflexivity|]. split; [|split; [|split]].
  - unfold ranked_descending, ranked. apply StronglySorted_map.
    apply sort_values_desc_descending.
  - apply (Permutation_NoDup (Permutation_sym Hperm)).
    apply keys_ascending_nodup, groupby_sum_ascending.
  - intros p. split; intros H.
    + apply (Permutation_in _ Hperm) in H.
      apply (proj1 (groupby_sum_keys rows p)) in H.
      unfold rows in H. now rewrite map_map in H.
    + apply (Permutation_in _ (Permutation_sym Hperm)).
      apply (proj2 (groupby_sum_keys rows p)). unfold rows. now rewrite map_map.
  - intros r Hin.
    unfold ranked in Hin. apply in_map_iff in Hin as ([k v] & <- & Hin).
    cbn [Merchant Total_Spent fst snd].
    apply (Permutation_in _ (sort_values_desc_perm groups)) in Hin.
    pose proof (groupby_sum_total k rows) as Htot. fold groups in Htot.
    unfold total_of in Htot.
    rewrite (lookup_in k v groups) in Htot; [|  | exact Hin].
    + rewrite Htot. unfold rows. now rewrite spent_at_rows.
    + apply keys_ascending_nodup, groupby_sum_ascending.
Qed.

(** * Further properties *)

(** ** Keyword categoriser: what it returns *)

Lemma append_assoc (a b c : string) : (a ++ b) ++ c = a ++ b ++ c.
Proof. induction a as [|x a IH]; simpl; [reflexivity | now rewrite IH]. Qed.

Lemma append_empty_r (a : string) : a ++ "" = a.
Proof. induction a as [|x a IH]; simpl; [reflexivity | now rewrite IH]. Qed.

Lemma lower_append (a b : string) : lower (a ++ b) = lower a ++ lower b.
Proof. induction a as [|x a IH]; simpl; [reflexivity | now rewrite IH]. Qed.

Lemma lower_ascii_idempotent (c : ascii) :
  lower_ascii (lower_ascii c) = lower_ascii c.
Proof.
  unfold lower_ascii.
  destruct ((65 <=? nat_of_ascii c)%nat && (nat_of_ascii c <=? 90)%nat) eqn:E.
  - apply andb_true_iff in E as [E1 E2].
    apply Nat.leb_le in E1, E2.
    rewrite nat_ascii_embedding by lia.
    destruct ((65 <=? nat_of_ascii c + 32)%nat
              && (nat_of_ascii c + 32 <=? 90)%nat) eqn:E'; [|reflexivity].
    apply andb_true_iff in E' as [_ E']. apply Nat.leb_le in E'. lia.
  - now rewrite E.
Qed.

Lemma lower_idempotent (s : string) : lower (lower s) = lower s.
Proof.
  induction s as [|c s IH]; simpl; [reflexivity|].
  now rewrite lower_ascii_idempotent, IH.
Qed.

Lemma is_substring_trans (a b c : string) :
  is_substring a b -> is_substring b c -> is_substring a c.
Proof.
  intros (p1 & q1 & ->) (p2 & q2 & ->).
  exists (p2 ++ p1), (q1 ++ q2). now rewrite !append_assoc.
Qed.

Lemma is_substring_lower (a b : string) :
  is_substring a b -> is_substring (lower a) (lower b).
Proof.
  intros (p & q & ->). exists (lower p), (lower q).
  now rewrite !lower_append.
Qed.

Lemma first_index_le (c : string) (l : list string) :
  (first_index c l <= length l)%nat.
Proof.
  induction l as [|x l IH]; simpl; [lia|].
  destruct (String.eqb c x); lia.
Qed.

Lemma first_index_in (c : string) (l : list string) :
  (first_index c l < length l)%nat <-> In c l.
Proof.
  induction l as [|x l IH]; simpl; [split; [lia | tauto]|].
  destruct (String.eqb c x) eqn:E.
  - apply String.eqb_eq in E. subst. split; [now left | lia].
  - apply String.eqb_neq in E. split.
    + intros H. right. apply IH. lia.
    + intros [H|H]; [congruence|]. apply IH in H. lia.
Qed.

(** What the outer loop returns is the category of an entry. *)
Lemma category_loop_in (items : list (string * list string))
    (payee_lower c : string) :
  category_loop items payee_lower = Some c -> In c (map fst items).
Proof.
  induction items as [|[c0 kws] items IH]; simpl; [discriminate|].
  destruct (keyword_loop kws payee_lower).
  - intros H. inversion H. now left.
  - intros H. right. now apply IH.
Qed.

Lemma keyword_loop_mono (keywords : list string) (s s' : string) :
  is_substring s s' ->
  keyword_loop keywords s = true -> keyword_loop keywords s' = true.
Proof.
  intros Hsub H. apply keyword_loop_true in H as (k & Hk & Hin).
  apply keyword_loop_true. exists k. split; [exact Hk|].
  eapply is_substring_trans; eassumption.
Qed.

(** A longer text is matched by an entry that comes no later. *)
Lemma category_loop_mono (items : list (string * list string)) (s s' : string) :
  NoDup (map fst items) ->
  is_substring s s' ->
  (loop_rank items (category_loop items s')
   <= loop_rank items (category_loop items s))%nat.
Proof.
  intros Hnd Hsub.
  induction items as [|[c0 kws] items IH]; simpl; [lia|].
  inversion Hnd as [|? ? Hc0 Hnd']; subst.
  destruct (keyword_loop kws s) eqn:E.
  - rewrite (keyword_loop_mono kws s s' Hsub E). simpl. lia.
  - destruct (keyword_loop kws s') eqn:E'.
    + simpl. rewrite String.eqb_refl. lia.
    + specialize (IH Hnd'). unfold loop_rank in *.
      destruct (category_loop items s') as [c'|] eqn:R';
        destruct (category_loop items s) as [c|] eqn:R; simpl.
      * apply category_loop_in in R, R'.
        assert (String.eqb c c0 = false)
          by (apply String.eqb_neq; intros ->; contradiction).
        assert (String.eqb c' c0 = false)
          by (apply String.eqb_neq; intros ->; contradiction).
        rewrite H, H0. lia.
      * apply category_loop_in in R'.
        assert (String.eqb c' c0 = false)
          by (apply String.eqb_neq; intros ->; contradiction).
        rewrite H. lia.
      * apply category_loop_in in R.
        assert (String.eqb c c0 = false)
          by (apply String.eqb_neq; intros ->; contradiction).
        rewrite H. lia.
      * lia.
Qed.

Lemma CATEGORY_KEYWORDS_nodup : NoDup (map fst CATEGORY_KEYWORDS).
Proof.
  simpl. repeat constructor; simpl; intuition discriminate.
Qed.

(** The result of the categoriser, from the result of its loop. *)
Lemma auto_categorize_rank (payee : string) :
  payee <> "" ->
  category_rank (auto_categorize_transaction payee)
  = loop_rank CATEGORY_KEYWORDS (category_loop CATEGORY_KEYWORDS (lower payee)).
Proof.
  intros H. unfold auto_categorize_transaction, category_rank.
  apply String.eqb_neq in H. rewrite H. cbv zeta.
  destruct (category_loop CATEGORY_KEYWORDS (lower payee)); reflexivity.
Qed.

Lemma auto_categorize_cases (payee : string) :
  auto_categorize_transaction payee = "Uncategorized" \/
  In (auto_categorize_transaction payee) (map fst CATEGORY_KEYWORDS).
Proof.
  unfold auto_categorize_transaction.
  destruct (String.eqb payee ""); [now left|]. cbv zeta.
  destruct (category_loop CATEGORY_KEYWORDS (lower payee)) eqn:E; [|now left].
  right. now apply category_loop_in in E.
Qed.

(** X1. Whatever the payee, the category [auto_categorize_transaction]
    returns is one of [DEFAULT_CATEGORIES], and it is never one of the four
    categories the keyword table has no entry for. *)
Theorem auto_categorize_known_category (payee : string) :
  In (auto_categorize_transaction payee) DEFAULT_CATEGORIES /\
  ~ In (auto_categorize_transaction payee)
       ["Education"; "Gifts & Donations"; "Investments"; "Other"].
Proof.
  destruct (auto_categorize_cases payee) as [H|H].
  - rewrite H. split; [simpl; tauto|].
    simpl. intuition discriminate.
  - simpl in H. split.
    + simpl. intuition.
    + intros H'. simpl in H'.
      repeat (destruct H as [H|H];
              [rewrite <- H in H'; intuition discriminate|]).
      exact H.
Qed.

(** X2. The categoriser does not see the case of the letters: two payees
    with the same lower-cased text get the same category. *)
Theorem auto_categorize_case_insensitive (payee payee' : string) :
  lower payee = lower payee' ->
  auto_categorize_transaction payee = auto_categorize_transaction payee'.
Proof.
  intros H. unfold auto_categorize_transaction. rewrite H.
  destruct payee, payee'; simpl in *; try discriminate; reflexivity.
Qed.

Lemma auto_categorize_case_insensitive_example :
  auto_categorize_transaction "NETFLIX.COM"
  = auto_categorize_transaction "Netflix.com".
Proof. apply auto_categorize_case_insensitive. reflexivity. Defined.

(** X3. Text added around a payee never sends it to a later entry of the
    table: the category of the longer payee comes no later than the category
    of the shorter one, "Uncategorized" counting as last. *)
Theorem auto_categorize_extension (payee payee' : string) :
  is_substring payee payee' ->
  (category_rank (auto_categorize_transaction payee')
   <= category_rank (auto_categorize_transaction payee))%nat.
Proof.
  intros Hsub.
  destruct (string_dec payee "") as [->|Hne].
  - change (auto_categorize_transaction "") with "Uncategorized".
    destruct (auto_categorize_cases payee') as [->|H]; [lia|].
    apply first_index_in in H. unfold category_rank. simpl in *. lia.
  - assert (Hne' : payee' <> "").
    { intros ->. apply substring_of_empty in Hsub. contradiction. }
    rewrite !auto_categorize_rank by assumption.
    apply category_loop_mono;
      [apply CATEGORY_KEYWORDS_nodup | now apply is_substring_lower].
Qed.

Lemma auto_categorize_extension_example :
  (category_rank (auto_categorize_transaction "Uber Eats order 4411")
   <= category_rank (auto_categorize_transaction "Uber"))%nat.
Proof.
  apply auto_categorize_extension.
  exists "", " Eats order 4411". reflexivity.
Defined.

(** X4. The keywords "walmart" and "target" of "Shopping" are never reached:
    a payee that holds one of them is given one of the first three
    categories of the table, where "Groceries" lists them too. *)
Theorem auto_categorize_shadowed_keywords (payee : string) :
  is_substring "walmart" (lower payee) \/ is_substring "target" (lower payee) ->
  In (auto_categorize_transaction payee)
     ["Income"; "Food & Dining"; "Groceries"].
Proof.
  intros H.
  assert (Hne : payee <> "").
  { intros ->. destruct H as [H|H]; apply substring_of_empty in H;
      discriminate. }
  assert (Hrank : (category_rank (auto_categorize_transaction payee) <= 2)%nat).
  { rewrite auto_categorize_rank by exact Hne.
    destruct H as [H|H].
    - apply (Nat.le_trans _ _ _
               (category_loop_mono CATEGORY_KEYWORDS "walmart" (lower payee)
                  CATEGORY_KEYWORDS_nodup H)).
      apply Nat.le_refl.
    - apply (Nat.le_trans _ _ _
               (category_loop_mono CATEGORY_KEYWORDS "target" (lower payee)
                  CATEGORY_KEYWORDS_nodup H)).
      apply Nat.le_refl. }
  unfold category_rank in Hrank. cbn [map fst CATEGORY_KEYWORDS] in Hrank.
  cbn [first_index] in Hrank.
  destruct (String.eqb (auto_categorize_transaction payee) "Income") eqn:E1;
    [apply String.eqb_eq in E1; rewrite E1; simpl; tauto|].
  destruct (String.eqb (auto_categorize_transaction payee) "Food & Dining")
    eqn:E2; [apply String.eqb_eq in E2; rewrite E2; simpl; tauto|].
  destruct (String.eqb (auto_categorize_transaction payee) "Groceries")
    eqn:E3; [apply String.eqb_eq in E3; rewrite E3; simpl; tauto|].
  lia.
Qed.

Lemma auto_categorize_shadowed_keywords_example :
  In (auto_categorize_transaction "TARGET T-1234 Oakland")
     ["Income"; "Food & Dining"; "Groceries"].
Proof.
  apply auto_categorize_shadowed_keywords.
  right. exists "", " t-1234 oakland". reflexivity.
Defined.

(** ** Rule engine: conditions and updates *)

Lemma prefix_is_substring (p s : string) : is_prefix p s -> is_substring p s.
Proof. intros [post ->]. now exists "", post. Qed.

Lemma suffix_is_substring (p s : string) : is_suffix p s -> is_substring p s.
Proof. intros [pre ->]. exists pre, "". now rewrite append_empty_r. Qed.

Section RuleEngineMore.

Variable float_repr : Q -> string.

(** The text [apply_rule] tests, and the value it tests it against. *)
Lemma apply_rule_cases (txn : Transaction.t) (rule : Rule.t) :
  let field_value :=
    lower (py_str float_repr
             (series_get txn (Rule.rule_field rule) (CStr ""))) in
  let rule_value := lower (Rule.rule_value rule) in
  (Rule.rule_condition rule = "contains" ->
   apply_rule float_repr txn rule = true <-> is_substring rule_value field_value) /\
  (Rule.rule_condition rule = "equals" ->
   apply_rule float_repr txn rule = true <-> field_value = rule_value) /\
  (Rule.rule_condition rule = "starts_with" ->
   apply_rule float_repr txn rule = true <-> is_prefix rule_value field_value) /\
  (Rule.rule_condition rule = "ends_with" ->
   apply_rule float_repr txn rule = true <-> is_suffix rule_value field_value).
Proof.
  intros field_value rule_value. unfold apply_rule.
  fold field_value. fold rule_value. cbv zeta.
  split; [|split; [|split]]; intros Hcond; rewrite Hcond; cbn [String.eqb].
  - apply str_in_spec.
  - apply String.eqb_eq.
  - apply startswith_spec.
  - apply endswith_spec.
Qed.

(** X5. Between two rules on the same field with the same value: where the
    "equals" rule applies, the rule with any of the four conditions applies;
    where the "starts_with" or the "ends_with" rule applies, the "contains"
    rule applies. *)
Theorem rule_conditions_hierarchy (txn : Transaction.t) (rule rule' : Rule.t) :
  Rule.rule_field rule = Rule.rule_field rule' ->
  Rule.rule_value rule = Rule.rule_value rule' ->
  apply_rule float_repr txn rule = true ->
  (Rule.rule_condition rule = "equals" /\
   In (Rule.rule_condition rule') known_conditions) \/
  (In (Rule.rule_condition rule) ["starts_with"; "ends_with"] /\
   Rule.rule_condition rule' = "contains") ->
  apply_rule float_repr txn rule' = true.
Proof.
  intros Hf Hv Happ Hcond.
  destruct (apply_rule_cases txn rule) as (Hc & He & Hs & Hn).
  destruct (apply_rule_cases txn rule') as (Hc' & He' & Hs' & Hn').
  cbv zeta in *. rewrite <- Hf, <- Hv in Hc', He', Hs', Hn'.
  destruct Hcond as [[Heq Hin]|[Hin Hcont]].
  - apply (He Heq) in Happ.
    unfold known_conditions in Hin. simpl in Hin.
    destruct Hin as [H|[H|[H|[H|[]]]]]; symmetry in H.
    + apply (Hc' H). rewrite Happ. exists "", "". simpl.
      now rewrite append_empty_r.
    + now apply (He' H).
    + apply (Hs' H). rewrite Happ. exists "". now rewrite append_empty_r.
    + apply (Hn' H). rewrite Happ. now exists "".
  - apply (Hc' Hcont). simpl in Hin. destruct Hin as [H|[H|[]]]; symmetry in H.
    + apply prefix_is_substring. now apply (Hs H).
    + apply suffix_is_substring. now apply (Hn H).
Qed.

(** X6. [apply_rules_to_transactions] emits at most as many updates as there
    are transactions, and every update it emits names a transaction of the
    frame and the category of a rule of the list that applies to that
    transaction and differs from the category the transaction has. *)
Theorem apply_rules_updates_sound (transactions_df : list Transaction.t)
    (rules_df : list Rule.t) :
  (length (apply_rules_to_transactions float_repr transactions_df rules_df)
   <= length transactions_df)%nat /\
  forall id c,
    In (id, c) (apply_rules_to_transactions float_repr transactions_df rules_df) ->
    exists txn rule,
      In txn transactions_df /\ In rule rules_df /\
      Transaction.transaction_id txn = id /\
      Rule.rule_category rule = c /\
      apply_rule float_repr txn rule = true /\
      Transaction.category txn <> c.
Proof.
  unfold apply_rules_to_transactions. rewrite transactions_loop_appends.
  cbn [app]. split.
  - induction transactions_df as [|t rest IH]; simpl; [lia|].
    rewrite length_app. unfold update_for at 1.
    destruct (find _ rules_df); [destruct (String.eqb _ _)|]; simpl; lia.
  - intros id c Hin. apply in_flat_map in Hin as (t & Ht & Hin).
    unfold update_for in Hin.
    destruct (find _ rules_df) as [r|] eqn:E; [|contradiction].
    apply find_some in E as [Hr Happ].
    destruct (String.eqb _ _) eqn:Ec; [contradiction|].
    destruct Hin as [Hin|[]]. inversion Hin; subst.
    exists t, r. apply String.eqb_neq in Ec. auto 10.
Qed.

(** X7. The updates for a frame given in two parts are the updates for the
    first part followed by the updates for the second. *)
Theorem apply_rules_in_batches (part1 part2 : list Transaction.t)
    (rules_df : list Rule.t) :
  apply_rules_to_transactions float_repr (part1 ++ part2) rules_df
  = (apply_rules_to_transactions float_repr part1 rules_df
     ++ apply_rules_to_transactions float_repr part2 rules_df)%list.
Proof.
  unfold apply_rules_to_transactions.
  now rewrite !transactions_loop_appends, flat_map_app.
Qed.

Lemma find_stops (txn : Transaction.t) (pre post : list Rule.t) (rule : Rule.t) :
  apply_rule float_repr txn rule = true ->
  find (apply_rule float_repr txn) (pre ++ rule :: post)
  = find (apply_rule float_repr txn) (pre ++ [rule]).
Proof.
  intros H. induction pre as [|r pre IH]; simpl.
  - now rewrite H.
  - now rewrite IH.
Qed.

(** X8. The rules listed after a rule that applies to every transaction of
    the frame have no effect on the updates. *)
Theorem rules_after_catch_all_are_dead (transactions_df : list Transaction.t)
    (pre post : list Rule.t) (rule : Rule.t) :
  (forall txn, In txn transactions_df -> apply_rule float_repr txn rule = true) ->
  apply_rules_to_transactions float_repr transactions_df (pre ++ rule :: post)
  = apply_rules_to_transactions float_repr transactions_df (pre ++ [rule]).
Proof.
  intros Hall. unfold apply_rules_to_transactions.
  rewrite !transactions_loop_appends. cbn [app].
  induction transactions_df as [|t rest IH]; simpl; [reflexivity|].
  rewrite IH by (intros txn Hin; apply Hall; now right).
  f_equal. unfold update_for.
  now rewrite (find_stops t pre post rule (Hall t (or_introl eq_refl))).
Qed.

End RuleEngineMore.

Lemma rule_conditions_hierarchy_example :
  apply_rule float_repr_whole
    (sample_txn "txn_id" "Amazon" (-25) "Uncategorized")
    (sample_rule 2 "payee" "ends_with" "AMAZON" "Shopping")
  = true.
Proof.
  apply (rule_conditions_hierarchy float_repr_whole
           (sample_txn "txn_id" "Amazon" (-25) "Uncategorized")
           (sample_rule 1 "payee" "equals" "AMAZON" "Shopping")).
  - reflexivity.
  - reflexivity.
  - reflexivity.
  - left. split; [reflexivity|]. unfold known_conditions. simpl. tauto.
Defined.

Lemma rules_after_catch_all_are_dead_example :
  apply_rules_to_transactions float_repr_whole
    [sample_txn "t1" "Corner Cafe" (-4) "Uncategorized";
     sample_txn "t2" "Metro" (-6) "Uncategorized"]
    [sample_rule 1 "amount" "starts_with" "-" "Other";
     sample_rule 2 "payee" "contains" "cafe" "Food & Dining"]
  = apply_rules_to_transactions float_repr_whole
      [sample_txn "t1" "Corner Cafe" (-4) "Uncategorized";
       sample_txn "t2" "Metro" (-6) "Uncategorized"]
      [sample_rule 1 "amount" "starts_with" "-" "Other"].
Proof.
  apply (rules_after_catch_all_are_dead float_repr_whole _ []).
  intros txn [<-|[<-|[]]]; reflexivity.
Defined.

(** ** The Transactions sheet: updates of categories *)

Lemma py_index_none (x : string) (cells : list string) :
  py_index x cells = None <-> ~ In x cells.
Proof.
  induction cells as [|c rest IH]; simpl; [tauto|].
  destruct (String.eqb c x) eqn:E.
  - apply String.eqb_eq in E. split; [discriminate | intros H; tauto].
  - apply String.eqb_neq in E.
    destruct (py_index x rest) as [j|]; simpl.
    + split; [discriminate|]. intros H.
      assert (Hn : ~ In x rest) by tauto.
      apply IH in Hn. discriminate.
    + split; [|reflexivity]. intros _ [H|H]; [congruence|].
      destruct IH as [IH _]. exact (IH eq_refl H).
Qed.

Lemma py_index_some (x : string) (cells : list string) (i : nat) :
  py_index x cells = Some i -> nth_error cells i = Some x.
Proof.
  revert i. induction cells as [|c rest IH]; simpl; intros i; [discriminate|].
  destruct (String.eqb c x) eqn:E.
  - intros H. inversion H. apply String.eqb_eq in E. now subst.
  - destruct (py_index x rest) as [j|]; simpl; [|discriminate].
    intros H. inversion H. now apply IH.
Qed.

(** Looking for a text that is not empty, the empty cells dropped at the end
    of the column make no difference. *)
Lemma py_index_cons (x c : string) (cells : list string) :
  py_index x (c :: cells)
  = if String.eqb c x then Some 0%nat else option_map S (py_index x cells).
Proof. reflexivity. Qed.

Lemma py_index_drop_trailing (x : string) (cells : list string) :
  x <> "" -> py_index x (drop_trailing_empty cells) = py_index x cells.
Proof.
  intros Hx. induction cells as [|c rest IH]; [reflexivity|].
  cbn [drop_trailing_empty]. rewrite (py_index_cons x c rest), <- IH.
  destruct (drop_trailing_empty rest) as [|k kept] eqn:E.
  - destruct (String.eqb c "") eqn:Ec.
    + apply String.eqb_eq in Ec. subst c.
      destruct (String.eqb "" x) eqn:Ex; [|reflexivity].
      apply String.eqb_eq in Ex. congruence.
    + rewrite py_index_cons. reflexivity.
  - now rewrite py_index_cons.
Qed.

(** Under [distinct_ids], the place of an identifier in column B is one more
    than its place among the data rows. *)
Lemma col_values_B_index (sheet : transactions_sheet) (x : string) :
  x <> "" -> x <> nth 1 (header sheet) "" ->
  py_index x (col_values_B sheet)
  = option_map S (py_index x (map Transaction.transaction_id (data sheet))).
Proof.
  intros Hx Hh. unfold col_values_B.
  rewrite py_index_drop_trailing by exact Hx. simpl.
  assert (H : String.eqb (nth 1 (header sheet) "") x = false)
    by (apply String.eqb_neq; congruence).
  now rewrite H.
Qed.

Lemma update_row_on_id (x : string) (f : Transaction.t -> Transaction.t)
    (rows : list Transaction.t) (j : nat) :
  NoDup (map Transaction.transaction_id rows) ->
  py_index x (map Transaction.transaction_id rows) = Some j ->
  update_row j f rows
  = map (fun r => if String.eqb (Transaction.transaction_id r) x
                  then f r else r) rows.
Proof.
  revert j. induction rows as [|r rest IH]; simpl; intros j Hnd H;
    [discriminate|].
  inversion Hnd as [|? ? Hr Hnd']; subst.
  destruct (String.eqb (Transaction.transaction_id r) x) eqn:E.
  - inversion H; subst. simpl. f_equal.
    apply String.eqb_eq in E. subst x.
    symmetry. rewrite <- (map_id rest) at 2. apply map_ext_in.
    intros t Ht.
    destruct (String.eqb (Transaction.transaction_id t)
                         (Transaction.transaction_id r)) eqn:E'; [|reflexivity].
    apply String.eqb_eq in E'. exfalso. apply Hr. rewrite <- E'.
    now apply in_map.
  - destruct (py_index x (map Transaction.transaction_id rest)) as [j'|] eqn:Ej;
      simpl in H; [|discriminate].
    inversion H; subst. simpl. f_equal. now apply IH.
Qed.

Lemma absent_id_untouched (x : string) (f : Transaction.t -> Transaction.t)
    (rows : list Transaction.t) :
  ~ In x (map Transaction.transaction_id rows) ->
  map (fun r => if String.eqb (Transaction.transaction_id r) x
                then f r else r) rows
  = rows.
Proof.
  intros H. rewrite <- (map_id rows) at 2. apply map_ext_in.
  intros t Ht.
  destruct (String.eqb (Transaction.transaction_id t) x) eqn:E; [|reflexivity].
  apply String.eqb_eq in E. exfalso. apply H. rewrite <- E. now apply in_map.
Qed.

Lemma update_row_twice (j : nat) (f g : Transaction.t -> Transaction.t)
    (rows : list Transaction.t) :
  update_row j g (update_row j f rows) = update_row j (fun r => g (f r)) rows.
Proof.
  revert j. induction rows as [|r rest IH]; intros [|j]; simpl;
    try reflexivity. now rewrite IH.
Qed.

Lemma recategorise_ids (x c now : string) (rows : list Transaction.t) :
  map Transaction.transaction_id (map (recategorise x c now) rows)
  = map Transaction.transaction_id rows.
Proof.
  rewrite map_map. apply map_ext. intros r. unfold recategorise.
  destruct (String.eqb _ _); reflexivity.
Qed.

(** Writing the two cells of one update, on rows with distinct ids. *)
Lemma write_update (sheet : transactions_sheet) (x c now : string) (j : nat) :
  NoDup (map Transaction.transaction_id (data sheet)) ->
  py_index x (map Transaction.transaction_id (data sheet)) = Some j ->
  write_cell ColL (S j + 1) now (write_cell ColF (S j + 1) c sheet)
  = mkSheet (header sheet) (map (recategorise x c now) (data sheet)).
Proof.
  intros Hnd Hj. replace (S j + 1)%nat with (S (S j)) by lia.
  unfold write_cell. simpl. f_equal.
  rewrite update_row_twice.
  rewrite (update_row_on_id x _ _ j Hnd Hj). reflexivity.
Qed.

(** X9. On a sheet whose identifiers are distinct, not empty and not the
    title of their column, [update_transaction_category] succeeds exactly
    when the identifier is in the sheet; it then gives the row of that
    identifier the new category and modification time and leaves the header
    and every other row as they are; otherwise it leaves the sheet as it
    is. *)
Theorem update_transaction_category_spec (sheet : transactions_sheet)
    (now x c : string) :
  distinct_ids sheet ->
  x <> "" -> x <> nth 1 (header sheet) "" ->
  let result := update_transaction_category sheet now x c in
  (fst result = true <-> In x (map Transaction.transaction_id (data sheet))) /\
  (fst result = false -> snd result = sheet) /\
  header (snd result) = header sheet /\
  data (snd result) = map (recategorise x c now) (data sheet).
Proof.
  intros (Hnd & _ & _) Hx Hh result. subst result.
  unfold update_transaction_category. cbv zeta.
  rewrite (col_values_B_index sheet x Hx Hh).
  destruct (py_index x (map Transaction.transaction_id (data sheet)))
    as [j|] eqn:Ej; simpl option_map; cbv iota.
  - rewrite (write_update sheet x c now j Hnd Ej). simpl.
    repeat split; try discriminate; try reflexivity.
    intros _. apply py_index_some in Ej. eapply nth_error_In. exact Ej.
  - apply py_index_none in Ej. simpl.
    repeat split; try reflexivity; try discriminate; try contradiction.
    unfold recategorise. now rewrite absent_id_untouched.
Qed.

Lemma update_transaction_category_spec_example :
  data (snd (update_transaction_category
               (mkSheet transactions_headers
                  [sample_txn "id-1" "Corner Cafe" (-4) "Uncategorized";
                   sample_txn "id-2" "Metro" (-6) "Uncategorized"])
               "2025-02-01 10:00:00" "id-2" "Transportation"))
  = [sample_txn "id-1" "Corner Cafe" (-4) "Uncategorized";
     set_modified_at (sample_txn "id-2" "Metro" (-6) "Transportation")
                     "2025-02-01 10:00:00"].
Proof.
  refine (eq_trans
            (proj2 (proj2 (proj2
               (update_transaction_category_spec
                  (mkSheet transactions_headers
                     [sample_txn "id-1" "Corner Cafe" (-4) "Uncategorized";
                      sample_txn "id-2" "Metro" (-6) "Uncategorized"])
                  "2025-02-01 10:00:00" "id-2" "Transportation" _ _ _)))) _).
  - unfold distinct_ids. simpl. repeat split.
    + repeat constructor; simpl; intuition discriminate.
    + intuition discriminate.
    + intuition discriminate.
  - discriminate.
  - discriminate.
  - reflexivity.
Defined.

Lemma drop_trailing_head (c : string) (rest : list string) :
  c <> "" -> exists kept, drop_trailing_empty (c :: rest) = c :: kept.
Proof.
  intros Hc. simpl. destruct (drop_trailing_empty rest) as [|k kept].
  - apply String.eqb_neq in Hc. rewrite Hc. now exists [].
  - now exists (k :: kept).
Qed.

(** X10. The header row is searched like the others: given the title of
    column B as identifier, [update_transaction_category] reports success,
    writes the category and the time into cells F and L of the header row,
    and leaves every transaction as it is. *)
Theorem update_transaction_category_header (sheet : transactions_sheet)
    (now c : string) :
  nth 1 (header sheet) "" <> "" ->
  update_transaction_category sheet now (nth 1 (header sheet) "") c
  = (true, mkSheet (set_nth 11 now (set_nth 5 c (header sheet))) (data sheet)).
Proof.
  intros Hh. unfold update_transaction_category, col_values_B. cbv zeta.
  destruct (drop_trailing_head (nth 1 (header sheet) "")
              (map Transaction.transaction_id (data sheet)) Hh) as [kept ->].
  simpl. rewrite String.eqb_refl. reflexivity.
Qed.

Lemma update_transaction_category_header_example :
  update_transaction_category
    (mkSheet transactions_headers
       [sample_txn "id-1" "Corner Cafe" (-4) "Uncategorized"])
    "2025-02-01 10:00:00" "transaction_id" "Travel"
  = (true,
     mkSheet
       [ "user_id"; "transaction_id"; "date"; "payee"; "amount"; "Travel";
         "account_name"; "account_id"; "notes"; "pending"; "created_at";
         "2025-02-01 10:00:00" ]
       [sample_txn "id-1" "Corner Cafe" (-4) "Uncategorized"]).
Proof.
  apply (update_transaction_category_header
           (mkSheet transactions_headers
              [sample_txn "id-1" "Corner Cafe" (-4) "Uncategorized"])).
  discriminate.
Defined.

Lemma update_row_frame (j : nat) (c : column) (v : string)
    (rows : list Transaction.t) :
  map without_category (update_row j (set_column c v) rows)
  = map without_category rows.
Proof.
  revert j. induction rows as [|r rest IH]; intros [|j]; simpl;
    try reflexivity.
  - f_equal. destruct c; reflexivity.
  - now rewrite IH.
Qed.

Lemma write_cell_frame (c : column) (row_index : nat) (v : string)
    (sheet : transactions_sheet) :
  map without_category (data (write_cell c row_index v sheet))
  = map without_category (data sheet).
Proof.
  destruct row_index as [|[|k]]; simpl; try reflexivity.
  apply update_row_frame.
Qed.

Lemma batch_update_frame (batch : list (column * nat * string))
    (sheet : transactions_sheet) :
  map without_category (data (batch_update batch sheet))
  = map without_category (data sheet).
Proof.
  unfold batch_update. revert sheet.
  induction batch as [|u batch IH]; intros sheet; simpl; [reflexivity|].
  now rewrite IH, write_cell_frame.
Qed.

(** X11. Whatever the updates, [batch_update_transaction_categories] reports
    success, keeps the number of rows, and changes nothing in a row but its
    category and its modification time. *)
Theorem batch_update_changes_categories_only (sheet : transactions_sheet)
    (now : string) (updates : list (string * string)) :
  let result := batch_update_transaction_categories sheet now updates in
  fst result = true /\
  length (data (snd result)) = length (data sheet) /\
  map without_category (data (snd result)) = map without_category (data sheet).
Proof.
  intros result. subst result.
  unfold batch_update_transaction_categories. cbv zeta. cbn [fst snd].
  assert (H : map without_category
                (data match prepare_batch (col_values_B sheet) now updates with
                      | [] => sheet
                      | _ :: _ =>
                          batch_update
                            (prepare_batch (col_values_B sheet) now updates)
                            sheet
                      end)
              = map without_category (data sheet)).
  { destruct (prepare_batch (col_values_B sheet) now updates) eqn:E;
      [reflexivity|]. apply batch_update_frame. }
  split; [reflexivity|]. split; [|exact H].
  apply (f_equal (@length _)) in H. now rewrite !length_map in H.
Qed.

(** ** The rules page: pressing the button twice *)

Lemma date_insert_perm (t : Transaction.t) (sorted : list Transaction.t) :
  Permutation (date_insert t sorted) (t :: sorted).
Proof.
  induction sorted as [|u rest IH]; simpl; [reflexivity|].
  destruct (timestamp_geb _ _); [reflexivity|].
  rewrite IH. apply perm_swap.
Qed.

Lemma sort_by_date_desc_perm (df : list Transaction.t) :
  Permutation (sort_by_date_desc df) df.
Proof.
  induction df as [|t rest IH]; simpl; [reflexivity|].
  now rewrite date_insert_perm, IH.
Qed.

(** The rows [load_user_transactions] returns are the rows of the user. *)
Lemma load_user_transactions_in (sheet : transactions_sheet) (uid : string)
    (t : Transaction.t) :
  In t (load_user_transactions sheet uid)
  <-> In t (data sheet) /\ Transaction.user_id t = uid.
Proof.
  unfold load_user_transactions. cbv zeta.
  split.
  - intros H. apply (Permutation_in _ (sort_by_date_desc_perm _)) in H.
    apply filter_In in H as [H1 H2]. apply String.eqb_eq in H2. now split.
  - intros [H1 H2].
    apply (Permutation_in _ (Permutation_sym (sort_by_date_desc_perm _))).
    apply filter_In. split; [exact H1 | now apply String.eqb_eq].
Qed.

Lemma sheet_eta (sheet : transactions_sheet) :
  sheet = mkSheet (header sheet) (data sheet).
Proof. destruct sheet. reflexivity. Qed.

(** The batch, cell by cell, on rows with distinct ids: each update that
    names a row of the sheet rewrites that row. *)
Lemma batch_update_rows (ids : list string) (now : string)
    (updates : list (string * string)) (head : list string)
    (rows : list Transaction.t) :
  NoDup (map Transaction.transaction_id rows) ->
  (forall x, In x (map fst updates) ->
             py_index x ids
             = option_map S (py_index x (map Transaction.transaction_id rows))) ->
  batch_update (prepare_batch ids now updates) (mkSheet head rows)
  = mkSheet head
      (fold_left (fun rows u => map (recategorise (fst u) (snd u) now) rows)
                 updates rows).
Proof.
  revert rows. induction updates as [|[x c] rest IH]; intros rows Hnd Hidx;
    [reflexivity|].
  cbn [prepare_batch fold_left fst snd].
  rewrite (Hidx x (or_introl eq_refl)).
  assert (Hrest : forall rows',
             map Transaction.transaction_id rows'
             = map Transaction.transaction_id rows ->
             batch_update (prepare_batch ids now rest) (mkSheet head rows')
             = mkSheet head
                 (fold_left
                    (fun rows u => map (recategorise (fst u) (snd u) now) rows)
                    rest rows')).
  { intros rows' Hids. apply IH.
    - now rewrite Hids.
    - intros y Hy. rewrite Hids. apply Hidx. now right. }
  destruct (py_index x (map Transaction.transaction_id rows)) as [j|] eqn:Ej;
    cbn [option_map].
  - unfold batch_update. cbn [fold_left fst snd].
    pose proof (write_update (mkSheet head rows) x c now j Hnd Ej) as Hw.
    cbn [header data] in Hw. rewrite Hw.
    apply Hrest, recategorise_ids.
  - apply py_index_none in Ej.
    replace (map (recategorise x c now) rows) with rows
      by (symmetry; unfold recategorise; now apply absent_id_untouched).
    now apply Hrest.
Qed.

Lemma fold_map_rows (updates : list (string * string)) (now : string)
    (rows : list Transaction.t) :
  fold_left (fun rows u => map (recategorise (fst u) (snd u) now) rows)
            updates rows
  = map (final_row updates now) rows.
Proof.
  unfold final_row. revert rows.
  induction updates as [|u rest IH]; intros rows; simpl.
  - now rewrite map_id.
  - now rewrite IH, map_map.
Qed.

(** The rows after [batch_update_transaction_categories], when every update
    names a transaction by an identifier that is not empty and not the title
    of column B. *)
Lemma batch_update_categories_rows (sheet : transactions_sheet) (now : string)
    (updates : list (string * string)) :
  NoDup (map Transaction.transaction_id (data sheet)) ->
  (forall x, In x (map fst updates) ->
             x <> "" /\ x <> nth 1 (header sheet) "") ->
  snd (batch_update_transaction_categories sheet now updates)
  = mkSheet (header sheet) (map (final_row updates now) (data sheet)).
Proof.
  intros Hnd Hids. unfold batch_update_transaction_categories.
  cbv zeta. cbn [snd].
  transitivity (batch_update (prepare_batch (col_values_B sheet) now updates)
                             sheet).
  { destruct (prepare_batch (col_values_B sheet) now updates); reflexivity. }
  rewrite (sheet_eta sheet) at 2.
  rewrite batch_update_rows; [now rewrite fold_map_rows | exact Hnd |].
  intros x Hx. destruct (Hids x Hx). now apply col_values_B_index.
Qed.

Lemma final_row_cons (x c now : string) (rest : list (string * string))
    (r : Transaction.t) :
  final_row ((x, c) :: rest) now r = final_row rest now (recategorise x c now r).
Proof. reflexivity. Qed.

Lemma recategorise_other (x c now : string) (r : Transaction.t) :
  Transaction.transaction_id r <> x -> recategorise x c now r = r.
Proof.
  intros H. unfold recategorise. apply String.eqb_neq in H. now rewrite H.
Qed.

Lemma recategorise_same (c now : string) (r : Transaction.t) :
  recategorise (Transaction.transaction_id r) c now r
  = set_modified_at (set_category r c) now.
Proof. unfold recategorise. now rewrite String.eqb_refl. Qed.

Lemma final_row_untouched (updates : list (string * string)) (now : string)
    (t : Transaction.t) :
  ~ In (Transaction.transaction_id t) (map fst updates) ->
  final_row updates now t = t.
Proof.
  induction updates as [|[x c] rest IH]; intros H; [reflexivity|].
  rewrite final_row_cons, recategorise_other.
  - apply IH. intros Hin. apply H. now right.
  - intros Heq. apply H. now left.
Qed.

Lemma final_row_stays (updates : list (string * string)) (now c : string)
    (t : Transaction.t) :
  (forall u, In u updates -> fst u = Transaction.transaction_id t -> snd u = c) ->
  final_row updates now (set_modified_at (set_category t c) now)
  = set_modified_at (set_category t c) now.
Proof.
  induction updates as [|[x c'] rest IH]; intros H; [reflexivity|].
  rewrite final_row_cons.
  assert (Hrest : forall u, In u rest ->
                            fst u = Transaction.transaction_id t -> snd u = c)
    by (intros u Hu; apply H; now right).
  destruct (string_dec (Transaction.transaction_id t) x) as [E|E].
  - assert (Hc : c' = c) by (apply (H (x, c') (or_introl eq_refl)); now symmetry).
    subst c' x.
    change (Transaction.transaction_id t)
      with (Transaction.transaction_id
              (set_modified_at (set_category t c) now)) at 1.
    rewrite recategorise_same.
    change (set_modified_at
              (set_category (set_modified_at (set_category t c) now) c) now)
      with (set_modified_at (set_category t c) now).
    now apply IH.
  - rewrite recategorise_other by exact E. now apply IH.
Qed.

Lemma final_row_set (updates : list (string * string)) (now c : string)
    (t : Transaction.t) :
  (forall u, In u updates -> fst u = Transaction.transaction_id t -> snd u = c) ->
  In (Transaction.transaction_id t) (map fst updates) ->
  final_row updates now t = set_modified_at (set_category t c) now.
Proof.
  induction updates as [|[x c'] rest IH]; intros H Hin; [contradiction|].
  rewrite final_row_cons.
  assert (Hrest : forall u, In u rest ->
                            fst u = Transaction.transaction_id t -> snd u = c)
    by (intros u Hu; apply H; now right).
  destruct (string_dec (Transaction.transaction_id t) x) as [E|E].
  - assert (Hc : c' = c) by (apply (H (x, c') (or_introl eq_refl)); now symmetry).
    subst c' x. rewrite recategorise_same. now apply final_row_stays.
  - rewrite recategorise_other by exact E. apply IH; [exact Hrest|].
    destruct Hin as [Hin|Hin]; [simpl in Hin; congruence | exact Hin].
Qed.

Lemma flat_map_all_nil {A B : Type} (f : A -> list B) (l : list A) :
  (forall x, In x l -> f x = []) -> flat_map f l = [].
Proof.
  induction l as [|x l IH]; simpl; intros H; [reflexivity|].
  rewrite (H x (or_introl eq_refl)). apply IH. intros y Hy. apply H. now right.
Qed.

Lemma same_id_same_row (rows : list Transaction.t) (t u : Transaction.t) :
  NoDup (map Transaction.transaction_id rows) ->
  In t rows -> In u rows ->
  Transaction.transaction_id t = Transaction.transaction_id u -> t = u.
Proof.
  induction rows as [|r rest IH]; simpl; intros Hnd Ht Hu Hid; [contradiction|].
  inversion Hnd as [|? ? Hr Hnd']; subst.
  destruct Ht as [->|Ht], Hu as [->|Hu].
  - reflexivity.
  - exfalso. apply Hr. rewrite Hid. now apply in_map.
  - exfalso. apply Hr. rewrite <- Hid. now apply in_map.
  - now apply IH.
Qed.

Section RulesPageFacts.

Variable float_repr : Q -> string.

(** A rule that reads neither the category nor the modification time applies
    to a row as it did before the row was given a category. *)
Lemma apply_rule_after_update (t : Transaction.t) (rule : Rule.t) (c now : string) :
  Rule.rule_field rule <> "category" ->
  Rule.rule_field rule <> "modified_at" ->
  apply_rule float_repr (set_modified_at (set_category t c) now) rule
  = apply_rule float_repr t rule.
Proof.
  intros Hc Hm. unfold apply_rule. f_equal.
  assert (Hget : series_get (set_modified_at (set_category t c) now)
                            (Rule.rule_field rule) (CStr "")
                 = series_get t (Rule.rule_field rule) (CStr "")).
  { unfold series_get, Transaction.items. cbn [lookup].
    apply String.eqb_neq in Hc, Hm. rewrite Hc, Hm. reflexivity. }
  now rewrite Hget.
Qed.

Lemma find_rule_after_update (t : Transaction.t) (rules : list Rule.t)
    (c now : string) :
  (forall r, In r rules -> Rule.rule_field r <> "category"
                           /\ Rule.rule_field r <> "modified_at") ->
  find (apply_rule float_repr (set_modified_at (set_category t c) now)) rules
  = find (apply_rule float_repr t) rules.
Proof.
  induction rules as [|r rest IH]; simpl; intros H; [reflexivity|].
  destruct (H r (or_introl eq_refl)) as [Hc Hm].
  rewrite (apply_rule_after_update t r c now Hc Hm).
  destruct (apply_rule float_repr t r); [reflexivity|].
  apply IH. intros r' Hr'. apply H. now right.
Qed.

(** The updates for a frame name the rows they come from. *)
Lemma updates_ids (rules : list Rule.t) (txns : list Transaction.t)
    (x c : string) :
  In (x, c) (flat_map (update_for float_repr rules) txns) ->
  exists t, In t txns /\ Transaction.transaction_id t = x
            /\ update_for float_repr rules t = [(x, c)].
Proof.
  intros H. apply in_flat_map in H as (t & Ht & Hin).
  exists t. unfold update_for in *.
  destruct (find _ rules); [|contradiction].
  destruct (String.eqb _ _); [contradiction|].
  destruct Hin as [Hin|[]]. inversion Hin; subst. auto.
Qed.

(** Every row of the user is settled once the updates are written. *)
Lemma settled_after_updates (rows txns : list Transaction.t)
    (rules : list Rule.t) (now : string) (t : Transaction.t) :
  NoDup (map Transaction.transaction_id rows) ->
  (forall u, In u txns -> In u rows) ->
  (forall r, In r rules -> Rule.rule_field r <> "category"
                           /\ Rule.rule_field r <> "modified_at") ->
  In t txns ->
  update_for float_repr rules
    (final_row (flat_map (update_for float_repr rules) txns) now t)
  = [].
Proof.
  intros Hnd Hsub Hrules Ht.
  set (updates := flat_map (update_for float_repr rules) txns).
  assert (Hown : forall u, In u updates ->
                           fst u = Transaction.transaction_id t ->
                           update_for float_repr rules t = [u]).
  { intros [x c] Hu Hx. simpl in Hx. subst x.
    apply updates_ids in Hu as (t0 & Ht0 & Hid & Hup).
    assert (Heq : t0 = t)
      by exact (same_id_same_row rows t0 t Hnd (Hsub _ Ht0) (Hsub _ Ht) Hid).
    now subst t0. }
  destruct (in_dec string_dec (Transaction.transaction_id t) (map fst updates))
    as [Hin|Hout].
  - apply in_map_iff in Hin as ([x c] & Hx & Hu). simpl in Hx.
    pose proof (Hown _ Hu Hx) as Hup.
    rewrite (final_row_set updates now c t).
    + unfold update_for in *. rewrite find_rule_after_update by exact Hrules.
      destruct (find (apply_rule float_repr t) rules) as [r|]; [|reflexivity].
      destruct (String.eqb (Transaction.category t) (Rule.rule_category r));
        [discriminate|].
      inversion Hup; subst. cbn [Transaction.category set_modified_at set_category].
      now rewrite String.eqb_refl.
    + intros u' Hu' Hx'. pose proof (Hown _ Hu' Hx') as Hup'.
      rewrite Hup in Hup'. inversion Hup'. reflexivity.
    + apply in_map_iff. now exists (x, c).
  - rewrite final_row_untouched by exact Hout.
    destruct (update_for float_repr rules t) as [|u l] eqn:E; [reflexivity|].
    exfalso. apply Hout.
    assert (Hu : In u updates).
    { unfold updates. apply in_flat_map. exists t. split; [exact Ht|].
      rewrite E. now left. }
    assert (Hid : fst u = Transaction.transaction_id t).
    { unfold update_for in E. destruct (find _ rules); [|discriminate].
      destruct (String.eqb _ _); [discriminate|]. inversion E. reflexivity. }
    rewrite <- Hid. now apply in_map.
Qed.

(** X12. On a sheet whose identifiers are distinct, not empty and not the
    title of their column, with rules that read neither the category nor the
    modification time: once "Apply Rules to All Transactions" has been
    pressed, the rules ask for no further update of the transactions of the
    user, and pressing the button again leaves the sheet as it is. *)
Theorem apply_rules_button_twice (sheet : transactions_sheet)
    (rules_df : list Rule.t) (uid now now' : string) :
  distinct_ids sheet ->
  (forall r, In r rules_df -> Rule.rule_field r <> "category"
                              /\ Rule.rule_field r <> "modified_at") ->
  let sheet' := apply_rules_button float_repr sheet rules_df uid now in
  apply_rules_to_transactions float_repr
    (load_user_transactions sheet' uid) rules_df = [] /\
  apply_rules_button float_repr sheet' rules_df uid now' = sheet'.
Proof.
  intros (Hnd & Hempty & Hhead) Hrules sheet'.
  assert (Hnone : apply_rules_to_transactions float_repr
                    (load_user_transactions sheet' uid) rules_df = []).
  { subst sheet'. unfold apply_rules_button. cbv zeta.
    set (txns := load_user_transactions sheet uid).
    set (updates := apply_rules_to_transactions float_repr txns rules_df).
    destruct (0 <? length updates)%nat eqn:E.
    - assert (Hupd : updates = flat_map (update_for float_repr rules_df) txns).
      { unfold updates, apply_rules_to_transactions.
        now rewrite transactions_loop_appends. }
      rewrite batch_update_categories_rows; [|exact Hnd|].
      + unfold apply_rules_to_transactions.
        rewrite transactions_loop_appends. cbn [app].
        assert (Hall : forall t',
                   In t' (load_user_transactions
                            (mkSheet (header sheet)
                               (map (final_row updates now) (data sheet))) uid) ->
                   update_for float_repr rules_df t' = []).
        { intros t' Ht'. apply load_user_transactions_in in Ht' as [Hin Hu].
          cbn [data] in Hin. apply in_map_iff in Hin as (t & <- & Ht).
          assert (Huser : Transaction.user_id (final_row updates now t)
                          = Transaction.user_id t).
          { unfold final_row. clear.
            revert t. induction updates as [|u rest IH]; intros t; simpl;
              [reflexivity|].
            rewrite IH. unfold recategorise.
            destruct (String.eqb _ _); reflexivity. }
          rewrite Huser in Hu.
          rewrite Hupd.
          apply (settled_after_updates (data sheet) txns); try assumption.
          - intros u Hu'. now apply load_user_transactions_in in Hu' as [? _].
          - apply load_user_transactions_in. now split. }
        now apply flat_map_all_nil.
      + intros x Hx. rewrite Hupd in Hx.
        apply in_map_iff in Hx as ([x' c] & Hx' & Hin). simpl in Hx'. subst x'.
        apply updates_ids in Hin as (t & Ht & Hid & _).
        apply load_user_transactions_in in Ht as [Ht _].
        assert (In x (map Transaction.transaction_id (data sheet)))
          by (rewrite <- Hid; now apply in_map).
        split; intros ->; contradiction.
    - apply Nat.ltb_ge in E. fold txns. fold updates.
      destruct updates; [reflexivity | simpl in E; lia]. }
  split; [exact Hnone|].
  unfold apply_rules_button at 1. cbv zeta. now rewrite Hnone.
Qed.

End RulesPageFacts.

Lemma apply_rules_button_twice_example :
  apply_rules_to_transactions float_repr_whole
    (load_user_transactions
       (apply_rules_button float_repr_whole
          (mkSheet transactions_headers
             [sample_txn "id-1" "AMAZON.COM" (-25) "Uncategorized";
              sample_txn "id-2" "Metro" (-6) "Uncategorized";
              sample_txn "id-3" "Amazon Prime" (-15) "Shopping"])
          [sample_rule 1 "payee" "contains" "amazon" "Shopping";
           sample_rule 2 "amount" "starts_with" "-" "Other"]
          "u1" "2025-02-01 10:00:00")
       "u1")
    [sample_rule 1 "payee" "contains" "amazon" "Shopping";
     sample_rule 2 "amount" "starts_with" "-" "Other"]
  = [].
Proof.
  refine (proj1 (apply_rules_button_twice float_repr_whole
                   (mkSheet transactions_headers
                      [sample_txn "id-1" "AMAZON.COM" (-25) "Uncategorized";
                       sample_txn "id-2" "Metro" (-6) "Uncategorized";
                       sample_txn "id-3" "Amazon Prime" (-15) "Shopping"])
                   [sample_rule 1 "payee" "contains" "amazon" "Shopping";
                    sample_rule 2 "amount" "starts_with" "-" "Other"]
                   "u1" "2025-02-01 10:00:00" "2025-02-01 10:05:00" _ _)).
  - unfold distinct_ids. simpl. repeat split.
    + repeat constructor; simpl; intuition discriminate.
    + intuition discriminate.
    + intuition discriminate.
  - intros r [<-|[<-|[]]]; split; discriminate.
Defined.

(** ** The categorization page *)

(** The rows after [update_transaction_category], as in X9. *)
Lemma update_transaction_category_rows (sheet : transactions_sheet)
    (now x c : string) :
  NoDup (map Transaction.transaction_id (data sheet)) ->
  x <> "" -> x <> nth 1 (header sheet) "" ->
  data (snd (update_transaction_category sheet now x c))
  = map (recategorise x c now) (data sheet).
Proof.
  intros Hnd Hx Hh. unfold update_transaction_category. cbv zeta.
  rewrite (col_values_B_index sheet x Hx Hh).
  destruct (py_index x (map Transaction.transaction_id (data sheet)))
    as [j|] eqn:Ej; simpl option_map; cbv iota.
  - now rewrite (write_update sheet x c now j Hnd Ej).
  - apply py_index_none in Ej. simpl.
    unfold recategorise. now rewrite absent_id_untouched.
Qed.

Lemma load_filter_length (sheet : transactions_sheet) (uid : string)
    (p : Transaction.t -> bool) :
  length (filter p (load_user_transactions sheet uid))
  = length (filter (fun t => String.eqb (Transaction.user_id t) uid && p t)
                   (data sheet)).
Proof.
  unfold load_user_transactions. cbv zeta.
  rewrite (Permutation_length (filter_perm p _ _ (sort_by_date_desc_perm _))).
  now rewrite filter_filter.
Qed.

(** Counting the rows that pass a test, after the row of one identifier is
    rewritten. *)
Lemma count_after_recategorise (p : Transaction.t -> bool)
    (rows : list Transaction.t) (t : Transaction.t) (c now : string) :
  NoDup (map Transaction.transaction_id rows) ->
  In t rows ->
  (length (filter p (map (recategorise (Transaction.transaction_id t) c now)
                         rows))
   + (if p t then 1 else 0)
   = length (filter p rows)
     + (if p (set_modified_at (set_category t c) now) then 1 else 0))%nat.
Proof.
  induction rows as [|r rest IH]; simpl; intros Hnd Hin; [contradiction|].
  inversion Hnd as [|? ? Hr Hnd']; subst.
  destruct Hin as [->|Hin].
  - rewrite recategorise_same.
    replace (map (recategorise (Transaction.transaction_id t) c now) rest)
      with rest
      by (symmetry; unfold recategorise; now apply absent_id_untouched).
    destruct (p t), (p (set_modified_at (set_category t c) now)); simpl; lia.
  - assert (Hne : Transaction.transaction_id r <> Transaction.transaction_id t).
    { intros Heq. apply Hr. rewrite Heq. now apply in_map. }
    rewrite (recategorise_other _ c now r Hne).
    specialize (IH Hnd' Hin).
    destruct (p r); simpl; lia.
Qed.

(** X13. On a sheet whose identifiers are distinct, not empty and not the
    title of their column, "Save Category" with a category other than
    "Uncategorized" leaves the user one uncategorized transaction fewer when
    there is one; with "Uncategorized" itself it leaves as many. *)
Theorem save_category_progress (sheet : transactions_sheet)
    (uid now category : string) :
  distinct_ids sheet ->
  uncategorized (load_user_transactions sheet uid) <> [] ->
  let sheet' := save_category sheet uid now category in
  (category <> "Uncategorized" ->
   S (length (uncategorized (load_user_transactions sheet' uid)))
   = length (uncategorized (load_user_transactions sheet uid))) /\
  (category = "Uncategorized" ->
   length (uncategorized (load_user_transactions sheet' uid))
   = length (uncategorized (load_user_transactions sheet uid))).
Proof.
  intros (Hnd & Hempty & Hhead) Hsome sheet'. subst sheet'.
  unfold save_category. cbv zeta.
  destruct (uncategorized (load_user_transactions sheet uid)) as [|txn rest]
    eqn:E; [contradiction|].
  assert (Htxn : In txn (uncategorized (load_user_transactions sheet uid)))
    by (rewrite E; now left).
  unfold uncategorized in Htxn. apply filter_In in Htxn as [Hload Hcat].
  apply load_user_transactions_in in Hload as [Hin Huser].
  assert (Hid : In (Transaction.transaction_id txn)
                   (map Transaction.transaction_id (data sheet)))
    by now apply in_map.
  assert (Hx : Transaction.transaction_id txn <> "")
    by (intros Heq; rewrite Heq in Hid; contradiction).
  assert (Hh : Transaction.transaction_id txn <> nth 1 (header sheet) "")
    by (intros Heq; rewrite Heq in Hid; contradiction).
  rewrite <- E. unfold uncategorized. rewrite !load_filter_length.
  rewrite (update_transaction_category_rows sheet now _ category Hnd Hx Hh).
  pose proof (count_after_recategorise
                (fun t => String.eqb (Transaction.user_id t) uid
                          && String.eqb (Transaction.category t) "Uncategorized")
                (data sheet) txn category now Hnd Hin) as Hcount.
  cbv beta in Hcount.
  change (Transaction.user_id (set_modified_at (set_category txn category) now))
    with (Transaction.user_id txn) in Hcount.
  change (Transaction.category (set_modified_at (set_category txn category) now))
    with category in Hcount.
  apply String.eqb_eq in Huser. rewrite Huser, Hcat in Hcount.
  cbn [andb] in Hcount.
  split; intros Hc.
  - apply String.eqb_neq in Hc. rewrite Hc in Hcount. lia.
  - apply String.eqb_eq in Hc. rewrite Hc in Hcount. lia.
Qed.

Lemma save_category_progress_example :
  S (length (uncategorized
               (load_user_transactions
                  (save_category
                     (mkSheet transactions_headers
                        [sample_txn "id-1" "Corner Cafe" (-4) "Uncategorized";
                         sample_txn "id-2" "Metro" (-6) "Uncategorized"])
                     "u1" "2025-02-01 10:00:00" "Food & Dining")
                  "u1")))
  = length (uncategorized
              (load_user_transactions
                 (mkSheet transactions_headers
                    [sample_txn "id-1" "Corner Cafe" (-4) "Uncategorized";
                     sample_txn "id-2" "Metro" (-6) "Uncategorized"])
                 "u1")).
Proof.
  refine (proj1 (save_category_progress
                   (mkSheet transactions_headers
                      [sample_txn "id-1" "Corner Cafe" (-4) "Uncategorized";
                       sample_txn "id-2" "Metro" (-6) "Uncategorized"])
                   "u1" "2025-02-01 10:00:00" "Food & Dining" _ _) _).
  - unfold distinct_ids. simpl. repeat split.
    + repeat constructor; simpl; intuition discriminate.
    + intuition discriminate.
    + intuition discriminate.
  - discriminate.
  - discriminate.
Defined.

(** ** The Budget_Monthly sheet: [set_budget] *)

Lemma first_label_split (p : Budget.t -> bool) (rows : list Budget.t) (i : nat) :
  first_label p rows = Some i ->
  exists pre b post,
    rows = (pre ++ b :: post)%list /\ length pre = i /\ p b = true /\
    forallb (fun x => negb (p x)) pre = true.
Proof.
  revert i. induction rows as [|b rest IH]; simpl; intros i H; [discriminate|].
  destruct (p b) eqn:E.
  - inversion H; subst. now exists [], b, rest.
  - destruct (first_label p rest) as [j|]; simpl in H; [|discriminate].
    inversion H; subst.
    destruct (IH j eq_refl) as (pre & b' & post & -> & Hlen & Hb & Hpre).
    exists (b :: pre), b', post. simpl. rewrite E, Hlen. auto.
Qed.

Lemma first_label_none (p : Budget.t -> bool) (rows : list Budget.t) :
  first_label p rows = None -> filter p rows = [].
Proof.
  induction rows as [|b rest IH]; simpl; [reflexivity|].
  destruct (p b); [discriminate|].
  destruct (first_label p rest); [discriminate|]. intros _. now apply IH.
Qed.

Lemma update_budget_row_split (f : Budget.t -> Budget.t)
    (pre post : list Budget.t) (b : Budget.t) :
  update_budget_row (length pre) f (pre ++ b :: post)
  = (pre ++ f b :: post)%list.
Proof. induction pre as [|x pre IH]; simpl; [reflexivity | now rewrite IH]. Qed.

Lemma filter_none {A : Type} (p : A -> bool) (l : list A) :
  forallb (fun x => negb (p x)) l = true -> filter p l = [].
Proof.
  induction l as [|x l IH]; simpl; [reflexivity|].
  destruct (p x); simpl; [discriminate | exact IH].
Qed.

Lemma find_after_none {A : Type} (p : A -> bool) (pre post : list A) (x : A) :
  forallb (fun y => negb (p y)) pre = true ->
  p x = true -> find p (pre ++ x :: post) = Some x.
Proof.
  induction pre as [|y pre IH]; simpl; intros Hpre Hx.
  - now rewrite Hx.
  - apply andb_true_iff in Hpre as [Hy Hpre].
    apply negb_true_iff in Hy. rewrite Hy. now apply IH.
Qed.

Lemma find_filter {A : Type} (p q : A -> bool) (l : list A) :
  find p (filter q l) = find (fun x => q x && p x) l.
Proof.
  induction l as [|x l IH]; simpl; [reflexivity|].
  destruct (q x); simpl; [destruct (p x); [reflexivity | exact IH] | exact IH].
Qed.

(** What [load_user_budgets] keeps for a month that is given. *)
Lemma load_user_budgets_month (sheet : list Budget.t) (uid m : string) :
  m <> "" ->
  load_user_budgets sheet uid (Some m)
  = filter (fun b => String.eqb (Budget.user_id b) uid
                     && String.eqb (Budget.month_year b) m) sheet.
Proof.
  intros Hm. unfold load_user_budgets. cbv zeta.
  apply String.eqb_neq in Hm. rewrite Hm. apply filter_filter.
Qed.

(** X14. [set_budget] succeeds exactly when the sheet already holds a record
    (with none, it reports failure and writes nothing). When it succeeds, the
    budgets then loaded for the user and the month hold the category, its
    first row carrying the amount and the time given, with the [spent] value
    the row had before, or 0 for a new row. *)
Theorem set_budget_then_load (sheet : list Budget.t)
    (now uid month category : string) (amount : Q) :
  month <> "" ->
  let result := set_budget sheet now uid month category amount in
  (fst result = true <-> sheet <> []) /\
  (sheet = [] -> snd result = []) /\
  (sheet <> [] ->
   exists b,
     find (fun b => String.eqb (Budget.category b) category)
          (load_user_budgets (snd result) uid (Some month)) = Some b /\
     Budget.budgeted b = amount /\
     Budget.last_updated b = now /\
     Budget.spent b
     = match find (budget_key uid month category) sheet with
       | Some old => Budget.spent old
       | None => 0%Q
       end).
Proof.
  intros Hm result. subst result.
  destruct sheet as [|b0 rest].
  - cbn [set_budget fst snd].
    split; [split; [discriminate | intros H; now contradiction H]|].
    split; [reflexivity | intros H; now contradiction H].
  - split; [|split; [discriminate|]].
    + unfold set_budget. destruct (first_label _ _); simpl; split;
        try discriminate; reflexivity.
    + intros _. rewrite load_user_budgets_month by exact Hm.
      rewrite find_filter. unfold set_budget.
      set (sheet := b0 :: rest).
      assert (Hkey : forall b,
                 (String.eqb (Budget.user_id b) uid
                  && String.eqb (Budget.month_year b) month
                  && String.eqb (Budget.category b) category)
                 = budget_key uid month category b) by reflexivity.
      destruct (first_label (budget_key uid month category) sheet) as [i|] eqn:E.
      * apply first_label_split in E
          as (pre & b & post & Hsheet & Hlen & Hb & Hpre).
        rewrite Hsheet. subst i. cbn [snd]. rewrite update_budget_row_split.
        exists (set_last_updated (set_budgeted b amount) now).
        split; [|split; [reflexivity|split; [reflexivity|]]].
        -- apply (find_after_none (fun x => _ && _ && _)); [exact Hpre|].
           exact Hb.
        -- now rewrite (find_after_none _ pre post b Hpre Hb).
      * cbn [snd].
        exists (Budget.mk uid month category amount 0 now).
        pose proof (first_label_none _ _ E) as Hnone.
        split; [|split; [reflexivity|split; [reflexivity|]]].
        -- assert (Hall : forallb (fun x => negb (budget_key uid month category x))
                                  sheet = true).
           { apply forallb_forall. intros x Hx. apply negb_true_iff.
             destruct (budget_key uid month category x) eqn:Ex; [|reflexivity].
             assert (In x (filter (budget_key uid month category) sheet))
               by (apply filter_In; now split).
             rewrite Hnone in H. contradiction. }
           apply (find_after_none (fun x => _ && _ && _) sheet []); [exact Hall|].
           cbn [Budget.user_id Budget.month_year Budget.category].
           now rewrite !String.eqb_refl.
        -- destruct (find (budget_key uid month category) sheet) as [old|] eqn:F;
             [|reflexivity].
           apply find_some in F as [Hin Hold].
           assert (In old (filter (budget_key uid month category) sheet))
             by (apply filter_In; now split).
           rewrite Hnone in H. contradiction.
Qed.

Lemma set_budget_then_load_example :
  fst (set_budget [Budget.mk "u1" "2025-01" "Groceries" 500 0 "2025-01-02 08:00:00"]
                  "2025-01-03 09:00:00" "u1" "2025-01" "Travel" 300)
  = true <->
  [Budget.mk "u1" "2025-01" "Groceries" 500 0 "2025-01-02 08:00:00"] <> [].
Proof.
  refine (proj1 (set_budget_then_load
                   [Budget.mk "u1" "2025-01" "Groceries" 500 0
                              "2025-01-02 08:00:00"]
                   "2025-01-03 09:00:00" "u1" "2025-01" "Travel" 300 _)).
  discriminate.
Defined.

Lemma filter_app_key (p : Budget.t -> bool) (pre post : list Budget.t)
    (b : Budget.t) :
  filter p (pre ++ b :: post)
  = (filter p pre ++ (if p b then [b] else []) ++ filter p post)%list.
Proof.
  rewrite filter_app. simpl. destruct (p b); reflexivity.
Qed.

Lemma set_budget_rows (sheet : list Budget.t)
    (now uid month category : string) (amount : Q) :
  sheet <> [] ->
  snd (set_budget sheet now uid month category amount)
  = match first_label (budget_key uid month category) sheet with
    | Some label =>
        update_budget_row label
          (fun b => set_last_updated (set_budgeted b amount) now) sheet
    | None => (sheet ++ [Budget.mk uid month category amount 0 now])%list
    end.
Proof.
  intros H. destruct sheet as [|b0 rest]; [contradiction|].
  unfold set_budget. destruct (first_label _ _); reflexivity.
Qed.

(** X15. [set_budget] never gives a key a second row: a sheet in which every
    (user, month, category) has at most one row is still such a sheet after
    the call, and the rows of the other keys are the rows they were. *)
Theorem set_budget_keeps_keys_unique (sheet : list Budget.t)
    (now uid month category : string) (amount : Q) :
  (forall u m c, (length (filter (budget_key u m c) sheet) <= 1)%nat) ->
  let sheet' := snd (set_budget sheet now uid month category amount) in
  (forall u m c, (length (filter (budget_key u m c) sheet') <= 1)%nat) /\
  filter (fun b => negb (budget_key uid month category b)) sheet'
  = filter (fun b => negb (budget_key uid month category b)) sheet.
Proof.
  intros Huniq sheet'. subst sheet'.
  assert (Hcases : sheet = [] \/ sheet <> [])
    by (destruct sheet; [now left | right; discriminate]).
  destruct Hcases as [->|Hne]; [split; [exact Huniq | reflexivity]|].
  rewrite (set_budget_rows sheet now uid month category amount Hne).
  assert (Hsame : forall b u m c,
             budget_key u m c (set_last_updated (set_budgeted b amount) now)
             = budget_key u m c b) by reflexivity.
  destruct (first_label (budget_key uid month category) sheet) as [i|] eqn:E.
  - apply first_label_split in E as (pre & b & post & -> & Hlen & Hb & Hpre).
    subst i. rewrite update_budget_row_split. split.
    + intros u m c. specialize (Huniq u m c).
      rewrite filter_app_key in Huniq. rewrite filter_app_key, Hsame.
      rewrite !length_app in *.
      destruct (budget_key u m c b); cbn [length] in *; lia.
    + rewrite !filter_app_key. rewrite Hsame, Hb. reflexivity.
  - pose proof (first_label_none _ _ E) as Hnone. split.
    + intros u m c. rewrite filter_app, length_app. cbn [filter].
      destruct (budget_key u m c (Budget.mk uid month category amount 0 now))
        eqn:Ek; cbn [length]; [|specialize (Huniq u m c); lia].
      unfold budget_key in Ek. cbn [Budget.user_id Budget.month_year
                                     Budget.category] in Ek.
      apply andb_true_iff in Ek as [Ek Ec]. apply andb_true_iff in Ek as [Eu Em].
      apply String.eqb_eq in Eu, Em, Ec. subst u m c.
      rewrite Hnone. cbn [length]. lia.
    + rewrite filter_app. cbn [filter].
      replace (budget_key uid month category
                 (Budget.mk uid month category amount 0 now)) with true.
      * cbn [negb]. now rewrite app_nil_r.
      * unfold budget_key. cbn [Budget.user_id Budget.month_year
                                Budget.category].
        now rewrite !String.eqb_refl.
Qed.

Lemma set_budget_keeps_keys_unique_example :
  filter (fun b => negb (budget_key "u1" "2025-01" "Groceries" b))
    (snd (set_budget
            [Budget.mk "u1" "2025-01" "Groceries" 500 0 "2025-01-02 08:00:00"]
            "2025-01-03 09:00:00" "u1" "2025-01" "Groceries" 650))
  = filter (fun b => negb (budget_key "u1" "2025-01" "Groceries" b))
      [Budget.mk "u1" "2025-01" "Groceries" 500 0 "2025-01-02 08:00:00"].
Proof.
  refine (proj2 (set_budget_keeps_keys_unique
                   [Budget.mk "u1" "2025-01" "Groceries" 500 0
                              "2025-01-02 08:00:00"]
                   "2025-01-03 09:00:00" "u1" "2025-01" "Groceries" 650 _)).
  intros u m c. simpl. destruct (budget_key u m c _); simpl; lia.
Defined.

(** ** The dashboard and the monthly summary *)

(** X17. When the frame is not empty, the dashboard shows for the current
    month what [calculate_monthly_summary] computes for it: the same income,
    the same expenses (the absolute value of the monthly spending) and the
    same number of transactions, also when the month has no transaction. *)
Theorem dashboard_agrees_with_summary (transactions_df : list Transaction.t)
    (current_month : string) :
  transactions_df <> [] ->
  exists m,
    dashboard transactions_df current_month = Some m /\
    let s := calculate_monthly_summary transactions_df current_month in
    monthly_income m = income s /\
    Qabs (monthly_spending m) = expenses s /\
    shown_transaction_count m = transaction_count s /\
    total_balance m = Qsum (map Transaction.amount transactions_df).
Proof.
  intros Hne. unfold dashboard.
  destruct transactions_df as [|t0 rest0]; [contradiction|].
  change (0 <? length (t0 :: rest0))%nat with true. cbv iota zeta.
  eexists. split; [reflexivity|].
  cbn [monthly_income monthly_spending shown_transaction_count total_balance].
  unfold calculate_monthly_summary.
  remember (filter _ (t0 :: rest0)) as month_df eqn:Hm. clear Hm.
  cbv zeta. destruct month_df as [|t rest].
  - cbn. repeat split; reflexivity.
  - change (length (t :: rest) =? 0)%nat with false. cbv iota.
    cbn [income expenses net transaction_count avg_transaction].
    repeat split; reflexivity.
Qed.

Lemma dashboard_agrees_with_summary_example :
  exists m,
    dashboard [sample_txn "t1" "Payroll" 1200 "Income";
               sample_txn "t2" "Corner Cafe" (-4) "Food & Dining"] "2025-02"
    = Some m /\
    let s := calculate_monthly_summary
               [sample_txn "t1" "Payroll" 1200 "Income";
                sample_txn "t2" "Corner Cafe" (-4) "Food & Dining"] "2025-02" in
    monthly_income m = income s /\
    Qabs (monthly_spending m) = expenses s /\
    shown_transaction_count m = transaction_count s /\
    total_balance m
    = Qsum (map Transaction.amount
                [sample_txn "t1" "Payroll" 1200 "Income";
                 sample_txn "t2" "Corner Cafe" (-4) "Food & Dining"]).
Proof.
  apply (dashboard_agrees_with_summary
           [sample_txn "t1" "Payroll" 1200 "Income";
            sample_txn "t2" "Corner Cafe" (-4) "Food & Dining"] "2025-02").
  discriminate.
Defined.

(** ** Top merchants: how many rows *)

Lemma firstn_firstn_min {A : Type} (n m : nat) (l : list A) :
  (n <= m)%nat -> firstn n (firstn m l) = firstn n l.
Proof.
  intros H. rewrite firstn_firstn. now rewrite Nat.min_l.
Qed.

(** X19. For [n >= 0], [get_top_merchants] returns [n] rows, or one row for
    each payee with an expense when there are fewer; for [n < 0] it returns
    all of them but the last [-n]; and the top [n] are the first [n] rows of
    the top [m] for every [m >= n >= 0]. *)
Theorem top_merchants_rows_count (df : list Transaction.t) (n m : Z) :
  ((0 <= n)%Z ->
   length (get_top_merchants df n)
   = Nat.min (Z.to_nat n) (distinct_expense_payees df)) /\
  ((n < 0)%Z ->
   length (get_top_merchants df n)
   = (distinct_expense_payees df - Z.to_nat (- n))%nat) /\
  ((0 <= n <= m)%Z ->
   get_top_merchants df n = firstn (Z.to_nat n) (get_top_merchants df m)).
Proof.
  rewrite !top_merchants_rows.
  set (ranked := map (fun e => mkMerchant (fst e) (snd e)) _).
  assert (Hlen : length ranked = distinct_expense_payees df).
  { unfold ranked. rewrite length_map.
    rewrite (Permutation_length (sort_values_desc_perm _)), groupby_sum_length.
    unfold distinct_expense_payees, expense_payees. now rewrite map_map. }
  unfold head. split; [|split].
  - intros Hn. apply Z.leb_le in Hn. rewrite Hn.
    now rewrite length_firstn, Hlen.
  - intros Hn. apply Z.ltb_lt in Hn. rewrite Z.ltb_antisym in Hn.
    apply negb_true_iff in Hn. rewrite Hn.
    rewrite length_firstn, Hlen. lia.
  - intros [Hn Hm].
    assert (H0 : (0 <=? n)%Z = true) by now apply Z.leb_le.
    assert (H1 : (0 <=? m)%Z = true) by (apply Z.leb_le; lia).
    rewrite H0, H1. symmetry. apply firstn_firstn_min. lia.
Qed.

(** ** The budgets page: the progress bar *)

(** X20. Whatever the budget row, the value handed to the progress bar is
    between 0 and 1, and it is 1 exactly when the budgeted amount is positive
    and the magnitude of the spending has reached it. *)
Theorem progress_value_in_range (budget : Budget.t) :
  (0 <= progress_value budget <= 1)%Q /\
  ((progress_value budget == 1)%Q <->
   (0 < Budget.budgeted budget)%Q /\
   (Budget.budgeted budget <= Qabs (Budget.spent budget))%Q).
Proof.
  unfold progress_value, py_min, budget_display. cbv zeta. cbn [percent].
  pose proof (Qabs_nonneg (Budget.spent budget)) as Hs.
  destruct (Qltb 0 (Budget.budgeted budget)) eqn:EB.
  - apply Qltb_lt in EB.
    set (B := Budget.budgeted budget) in *.
    set (s := Qabs (Budget.spent budget)) in *.
    assert (Hr : (s / B * 100 / 100 == s / B)%Q) by (field; lra).
    assert (H0 : (0 <= s / B)%Q).
    { unfold Qdiv. apply Qmult_le_0_compat; [exact Hs|].
      apply Qlt_le_weak, Qinv_lt_0_compat, EB. }
    destruct (Qltb 1 (s / B * 100 / 100)) eqn:E1.
    + apply Qltb_lt in E1. rewrite Hr in E1.
      split; [lra|]. split; [intros _|reflexivity].
      split; [exact EB|].
      apply Qlt_le_weak. apply (Qmult_lt_r _ _ (/ B)).
      * now apply Qinv_lt_0_compat.
      * setoid_replace (B * / B)%Q with 1%Q by (field; lra). exact E1.
    + apply Qltb_ge in E1. rewrite Hr in *.
      split; [lra|]. split.
      * intros H1. split; [exact EB|].
        assert (Hs1 : (s == 1 * B)%Q).
        { rewrite <- H1. field. lra. }
        lra.
      * intros [_ Hle].
        assert (H1 : (1 <= s / B)%Q).
        { apply Qle_shift_div_l; lra. }
        lra.
  - apply Qltb_ge in EB.
    assert (H0 : (0 / 100 == 0)%Q) by reflexivity.
    destruct (Qltb 1 (0 / 100)) eqn:E1.
    + apply Qltb_lt in E1. lra.
    + split; [rewrite H0; lra|]. split.
      * intros H1. rewrite H0 in H1. lra.
      * intros [H _]. lra.
Qed.

(** ** The rules as loaded *)

Lemma priority_insert_perm (r : Rule.t) (sorted : list Rule.t) :
  Permutation (priority_insert r sorted) (r :: sorted).
Proof.
  induction sorted as [|s rest IH]; simpl; [reflexivity|].
  destruct (Rule.priority r <=? Rule.priority s)%Z; [reflexivity|].
  rewrite IH. apply perm_swap.
Qed.

Lemma sort_by_priority_perm (df : list Rule.t) :
  Permutation (sort_by_priority df) df.
Proof.
  induction df as [|r rest IH]; simpl; [reflexivity|].
  now rewrite priority_insert_perm, IH.
Qed.

Lemma priority_insert_sorted (r : Rule.t) (sorted : list Rule.t) :
  StronglySorted (fun a b => (Rule.priority a <= Rule.priority b)%Z) sorted ->
  StronglySorted (fun a b => (Rule.priority a <= Rule.priority b)%Z)
                 (priority_insert r sorted).
Proof.
  induction 1 as [|s rest Hrest IH Hall]; simpl.
  - repeat constructor.
  - destruct (Rule.priority r <=? Rule.priority s)%Z eqn:E.
    + apply Z.leb_le in E. constructor; [now constructor|].
      constructor; [exact E|].
      eapply Forall_impl; [|exact Hall]. intros x Hx. simpl in Hx. lia.
    + apply Z.leb_gt in E. constructor; [exact IH|].
      apply (Permutation_Forall (Permutation_sym (priority_insert_perm r rest))).
      constructor; [lia | exact Hall].
Qed.

Lemma sort_by_priority_sorted (df : list Rule.t) :
  sorted_by_priority (sort_by_priority df).
Proof.
  unfold sorted_by_priority. apply StronglySorted_Sorted.
  induction df as [|r rest IH]; simpl; [constructor|].
  now apply priority_insert_sorted.
Qed.

Lemma load_user_rules_in (sheet : list Rule.t) (uid : string) (r : Rule.t) :
  In r (load_user_rules sheet uid) <-> In r sheet /\ Rule.user_id r = uid.
Proof.
  unfold load_user_rules. cbv zeta. split.
  - intros H. apply (Permutation_in _ (sort_by_priority_perm _)) in H.
    apply filter_In in H as [H1 H2]. apply String.eqb_eq in H2. now split.
  - intros [H1 H2].
    apply (Permutation_in _ (Permutation_sym (sort_by_priority_perm _))).
    apply filter_In. split; [exact H1 | now apply String.eqb_eq].
Qed.

Section LoadedRules.

Variable float_repr : Q -> string.

(** X21. With the rules as [load_user_rules] returns them, whatever the order
    of the rows of the sheet: every update [apply_rules_to_transactions]
    emits for a transaction carries the category of a rule of the user that
    applies to it and whose priority number is the least among the rules of
    the user that apply to it. *)
Theorem loaded_rules_least_priority_wins (sheet : list Rule.t) (uid : string)
    (transactions_df : list Transaction.t) (id c : string) :
  In (id, c)
     (apply_rules_to_transactions float_repr transactions_df
        (load_user_rules sheet uid)) ->
  exists txn rule,
    In txn transactions_df /\ Transaction.transaction_id txn = id /\
    In rule sheet /\ Rule.user_id rule = uid /\
    apply_rule float_repr txn rule = true /\
    Rule.rule_category rule = c /\
    forall rule',
      In rule' sheet -> Rule.user_id rule' = uid ->
      apply_rule float_repr txn rule' = true ->
      (Rule.priority rule <= Rule.priority rule')%Z.
Proof.
  unfold apply_rules_to_transactions. rewrite transactions_loop_appends.
  cbn [app]. intros Hin.
  apply in_flat_map in Hin as (txn & Htxn & Hin).
  unfold update_for in Hin.
  destruct (find (apply_rule float_repr txn) (load_user_rules sheet uid))
    as [rule|] eqn:E; [|contradiction].
  destruct (String.eqb _ _); [contradiction|].
  destruct Hin as [Hin|[]]. inversion Hin; subst.
  pose proof (find_some _ _ E) as [Hrule Happ].
  apply load_user_rules_in in Hrule as [Hsheet Huser].
  exists txn, rule. repeat split; try assumption.
  intros rule' Hsheet' Huser' Happ'.
  assert (Hin' : In rule' (load_user_rules sheet uid))
    by (apply load_user_rules_in; now split).
  clear Hin Hsheet Hsheet' Huser Huser'.
  pose proof (sort_by_priority_sorted
                (filter (fun r => String.eqb (Rule.user_id r) uid) sheet))
    as Hsorted.
  unfold load_user_rules in *. cbv zeta in *.
  set (rules := sort_by_priority _) in *.
  clearbody rules.
  induction rules as [|r rest IH]; [contradiction|].
  simpl in E. destruct (apply_rule float_repr txn r) eqn:Er.
  - inversion E; subst r.
    apply (sorted_priority_least [] rest rule rule' Hsorted).
    destruct Hin' as [->|H]; [now left | now right].
  - destruct Hin' as [->|H]; [congruence|].
    apply IH; try assumption.
    unfold sorted_by_priority in *. now inversion Hsorted.
Qed.

End LoadedRules.

Lemma loaded_rules_least_priority_wins_example :
  exists txn rule,
    In txn [sample_txn "txn_id" "AMAZON.COM" (-25) "Uncategorized"] /\
    Transaction.transaction_id txn = "txn_id" /\
    In rule [sample_rule 2 "payee" "contains" "amazon" "Other";
             sample_rule 1 "payee" "contains" "amazon" "Shopping"] /\
    Rule.user_id rule = "u1" /\
    apply_rule float_repr_whole txn rule = true /\
    Rule.rule_category rule = "Shopping" /\
    forall rule',
      In rule' [sample_rule 2 "payee" "contains" "amazon" "Other";
                sample_rule 1 "payee" "contains" "amazon" "Shopping"] ->
      Rule.user_id rule' = "u1" ->
      apply_rule float_repr_whole txn rule' = true ->
      (Rule.priority rule <= Rule.priority rule')%Z.
Proof.
  apply (loaded_rules_least_priority_wins float_repr_whole
           [sample_rule 2 "payee" "contains" "amazon" "Other";
            sample_rule 1 "payee" "contains" "amazon" "Shopping"] "u1"
           [sample_txn "txn_id" "AMAZON.COM" (-25) "Uncategorized"]).
  left. reflexivity.
Defined.

(** ** Regular expressions: the test decides the matching *)

Lemma append_nil_inv (a b : string) : a ++ b = "" -> a = "" /\ b = "".
Proof. destruct a; simpl; [auto | discriminate]. Qed.

Lemma nullable_spec (r : regex) : nullable r = true <-> matches r "".
Proof.
  split.
  - induction r; simpl; intros H; try discriminate.
    + constructor.
    + apply andb_true_iff in H as [H1 H2].
      change "" with ("" ++ ""). constructor; auto.
    + apply orb_true_iff in H as [H|H]; [apply MAltL | apply MAltR]; auto.
    + constructor.
  - intros H. remember "" as e eqn:He.
    induction H; simpl; subst; try discriminate; try reflexivity.
    + apply append_nil_inv in He as [-> ->].
      rewrite IHmatches1, IHmatches2; reflexivity.
    + rewrite IHmatches; reflexivity.
    + rewrite IHmatches by reflexivity. apply orb_true_r.
Qed.

Lemma matches_seq (r s : regex) (x : string) :
  matches (RSeq r s) x <->
  exists a b, x = a ++ b /\ matches r a /\ matches s b.
Proof.
  split.
  - intros H. inversion H; subst. eauto.
  - intros (a & b & -> & Ha & Hb). now constructor.
Qed.

Lemma matches_alt (r s : regex) (x : string) :
  matches (RAlt r s) x <-> matches r x \/ matches s x.
Proof.
  split.
  - intros H. inversion H; subst; auto.
  - intros [H|H]; [now apply MAltL | now apply MAltR].
Qed.

(** A text that matches [r*] and has a first character starts with a match
    of [r] that has a first character. *)
Lemma matches_star_cons (r : regex) (c : ascii) (s : string) :
  matches (RStar r) (String c s) ->
  exists a b, s = a ++ b /\ matches r (String c a) /\ matches (RStar r) b.
Proof.
  intros H. remember (RStar r) as rs eqn:Hr. remember (String c s) as x eqn:Hx.
  revert c s Hx.
  induction H; intros c0 s0 Hx; try discriminate.
  inversion Hr; subst r0.
  destruct a as [|c1 a].
  - simpl in Hx. now apply IHmatches2.
  - simpl in Hx. inversion Hx; subst. eauto.
Qed.

Lemma deriv_spec (r : regex) (c : ascii) (s : string) :
  matches (deriv c r) s <-> matches r (String c s).
Proof.
  revert s. induction r as [| |p|r IHr t IHt|r IHr t IHt|r IHr]; intros s; simpl.
  - split; intros H; inversion H.
  - split; intros H; inversion H.
  - destruct (p c) eqn:E.
    + split; intros H; inversion H; subst; [now constructor | constructor].
    + split; intros H; inversion H; subst. congruence.
  - assert (Hfirst : matches (RSeq (deriv c r) t) s ->
                     matches (RSeq r t) (String c s)).
    { intros H. apply matches_seq in H as (a & b & -> & Ha & Hb).
      apply IHr in Ha. change (String c (a ++ b)) with (String c a ++ b).
      now constructor. }
    assert (Hback : matches (RSeq r t) (String c s) ->
                    matches (RSeq (deriv c r) t) s \/
                    (matches r "" /\ matches (deriv c t) s)).
    { intros H. apply matches_seq in H as (a & b & Hx & Ha & Hb).
      destruct a as [|c1 a]; simpl in Hx.
      - right. subst b. split; [exact Ha | now apply IHt].
      - inversion Hx; subst. left. apply matches_seq.
        exists a, b. split; [reflexivity|]. split; [now apply IHr | exact Hb]. }
    destruct (nullable r) eqn:N.
    + split.
      * intros H. apply matches_alt in H as [H|H]; [now apply Hfirst|].
        apply IHt in H. apply nullable_spec in N.
        change (String c s) with ("" ++ String c s). now constructor.
      * intros H. apply matches_alt.
        destruct (Hback H) as [H'|[_ H']]; auto.
    + split; [exact Hfirst|].
      intros H. destruct (Hback H) as [H'|[H' _]]; [exact H'|].
      apply nullable_spec in H'. congruence.
  - rewrite !matches_alt, IHr, IHt. reflexivity.
  - split.
    + intros H. apply matches_seq in H as (a & b & -> & Ha & Hb).
      apply IHr in Ha. change (String c (a ++ b)) with (String c a ++ b).
      now constructor.
    + intros H. apply matches_star_cons in H as (a & b & -> & Ha & Hb).
      apply matches_seq. exists a, b. split; [reflexivity|].
      split; [now apply IHr | exact Hb].
Qed.

Lemma re_fullmatch_spec (r : regex) (s : string) :
  re_fullmatch r s = true <-> matches r s.
Proof.
  revert r. induction s as [|c s IH]; intros r; simpl.
  - apply nullable_spec.
  - rewrite IH. apply deriv_spec.
Qed.

Lemma matches_class (p : ascii -> bool) (x : string) :
  matches (RClass p) x <-> exists c, x = String c "" /\ p c = true.
Proof.
  split.
  - intros H. inversion H; subst. eauto.
  - intros (c & -> & Hc). now constructor.
Qed.

Lemma matches_star_class (p : ascii -> bool) (x : string) :
  matches (RStar (RClass p)) x <-> all_chars p x = true.
Proof.
  split.
  - intros H. remember (RStar (RClass p)) as rs eqn:Hr.
    induction H; try discriminate; [reflexivity|].
    inversion Hr; subst r. apply matches_class in H as (c & -> & Hc).
    simpl. rewrite Hc. now apply IHmatches2.
  - induction x as [|c x IH]; simpl; intros H; [constructor|].
    apply andb_true_iff in H as [Hc Hx].
    change (String c x) with (String c "" ++ x).
    constructor; [now constructor | now apply IH].
Qed.

Lemma matches_plus_class (p : ascii -> bool) (x : string) :
  matches (RPlus (RClass p)) x <-> x <> "" /\ all_chars p x = true.
Proof.
  unfold RPlus. rewrite matches_seq. split.
  - intros (a & b & -> & Ha & Hb).
    apply matches_class in Ha as (c & -> & Hc).
    apply matches_star_class in Hb. simpl. rewrite Hc, Hb.
    split; [discriminate | reflexivity].
  - intros [Hne Hall]. destruct x as [|c x]; [contradiction|].
    simpl in Hall. apply andb_true_iff in Hall as [Hc Hx].
    exists (String c ""), x. split; [reflexivity|].
    split; [now constructor | now apply matches_star_class].
Qed.

Lemma matches_two_or_more (p : ascii -> bool) (x : string) :
  matches (RSeq (RClass p) (RSeq (RClass p) (RStar (RClass p)))) x <->
  (2 <= String.length x)%nat /\ all_chars p x = true.
Proof.
  rewrite matches_seq. split.
  - intros (a & b & -> & Ha & Hb).
    apply matches_class in Ha as (c & -> & Hc).
    apply (matches_plus_class p) in Hb as [Hne Hb].
    destruct b; [contradiction|]. simpl in *. rewrite Hc.
    split; [lia | exact Hb].
  - intros [Hlen Hall]. destruct x as [|c [|d x]]; simpl in Hlen; try lia.
    simpl in Hall. apply andb_true_iff in Hall as [Hc Hall].
    exists (String c ""), (String d x). split; [reflexivity|].
    split; [now constructor|].
    apply (matches_plus_class p). split; [discriminate | exact Hall].
Qed.

Lemma matches_dollar (x : string) :
  matches RDollar x <-> x = "" \/ x = newline.
Proof.
  unfold RDollar. rewrite matches_alt, matches_class. split.
  - intros [H|(c & -> & Hc)].
    + inversion H. now left.
    + right. apply Ascii.eqb_eq in Hc. now subst.
  - intros [->| ->]; [left; constructor|].
    right. exists (ascii_of_nat 10). split; [reflexivity | apply Ascii.eqb_refl].
Qed.

Lemma matches_char (c : ascii) (x : string) :
  matches (RClass (Ascii.eqb c)) x <-> x = String c "".
Proof.
  rewrite matches_class. split.
  - intros (d & -> & Hd). apply Ascii.eqb_eq in Hd. now subst.
  - intros ->. exists c. split; [reflexivity | apply Ascii.eqb_refl].
Qed.

(** X22. [validate_email] accepts exactly the texts made of a local part, an
    "@", a domain, a ".", and an ending of two or more letters, where the
    local part and the domain are not empty and hold only the characters of
    their classes; and, as [$] allows it, the same texts followed by one line
    feed. *)
Theorem validate_email_spec (email : string) :
  validate_email email = true <->
  exists local_part domain ending tail,
    email = local_part ++ "@" ++ domain ++ "." ++ ending ++ tail /\
    local_part <> "" /\ all_chars local_class local_part = true /\
    domain <> "" /\ all_chars domain_class domain = true /\
    (2 <= String.length ending)%nat /\ all_chars letter_class ending = true /\
    (tail = "" \/ tail = newline).
Proof.
  unfold validate_email, EMAIL_PATTERN. rewrite re_fullmatch_spec.
  split.
  - intros H.
    apply matches_seq in H as (l & x1 & -> & Hl & H).
    apply matches_seq in H as (at_ & x2 & -> & Hat & H).
    apply matches_seq in H as (d & x3 & -> & Hd & H).
    apply matches_seq in H as (dot & x4 & -> & Hdot & H).
    apply matches_seq in H as (e & t & -> & He & Ht).
    apply matches_plus_class in Hl as [Hl1 Hl2].
    apply matches_plus_class in Hd as [Hd1 Hd2].
    apply matches_char in Hat, Hdot. subst at_ dot.
    apply matches_two_or_more in He as [He1 He2].
    apply matches_dollar in Ht.
    exists l, d, e, t. repeat split; assumption.
  - intros (l & d & e & t & -> & Hl1 & Hl2 & Hd1 & Hd2 & He1 & He2 & Ht).
    constructor; [now apply matches_plus_class|].
    constructor; [now apply matches_char|].
    constructor; [now apply matches_plus_class|].
    constructor; [now apply matches_char|].
    constructor; [now apply matches_two_or_more | now apply matches_dollar].
Qed.

Example validate_email_plain : validate_email "ada@example.com" = true.
Proof. reflexivity. Qed.

Example validate_email_line_feed :
  validate_email ("ada@example.com" ++ newline) = true.
Proof. reflexivity. Qed.

Example validate_email_two_dots : validate_email "a@b..co" = true.
Proof. reflexivity. Qed.

Example validate_email_short_ending : validate_email "a@b.c" = false.
Proof. reflexivity. Qed.

Example validate_email_two_ats : validate_email "a@@b.co" = false.
Proof. reflexivity. Qed.

Example validate_email_space : validate_email "a@b.co " = false.
Proof. reflexivity. Qed.

Lemma re_search_class_spec (p : ascii -> bool) (s : string) :
  re_search_class p s = true <->
  exists pre c post, s = pre ++ String c post /\ p c = true.
Proof.
  induction s as [|c s IH]; simpl.
  - split; [discriminate|]. intros (pre & d & post & H & _).
    destruct pre; discriminate.
  - destruct (p c) eqn:E.
    + split; [intros _|reflexivity]. now exists "", c, s.
    + rewrite IH. split.
      * intros (pre & d & post & -> & Hd). now exists (String c pre), d, post.
      * intros (pre & d & post & H & Hd). destruct pre as [|x pre]; simpl in H.
        -- inversion H; subst. congruence.
        -- inversion H; subst. now exists pre, d, post.
Qed.

Lemma lower_has_no_upper (s : string) :
  re_search_class upper_class (lower s) = false.
Proof.
  induction s as [|c s IH]; simpl; [reflexivity|].
  rewrite IH.
  assert (H : upper_class (lower_ascii c) = false).
  { unfold upper_class, in_range, lower_ascii.
    destruct ((65 <=? nat_of_ascii c)%nat && (nat_of_ascii c <=? 90)%nat) eqn:E.
    - apply andb_true_iff in E as [E1 E2]. apply Nat.leb_le in E1, E2.
      rewrite nat_ascii_embedding by lia.
      apply andb_false_iff. right. apply Nat.leb_gt. lia.
    - exact E. }
  now rewrite H.
Qed.

(** X23. [validate_password_strength] accepts a password exactly when it has
    at least 8 characters, among them an uppercase letter, a lowercase letter
    and a digit; it returns an empty message exactly then; and it accepts no
    password that is its own lower-cased text. *)
Theorem validate_password_strength_spec (password : string) :
  (fst (validate_password_strength password) = true <->
   (8 <= String.length password)%nat /\
   (exists pre c post, password = pre ++ String c post /\ upper_class c = true) /\
   (exists pre c post, password = pre ++ String c post /\ lower_class c = true) /\
   (exists pre c post, password = pre ++ String c post /\ digit_class c = true)) /\
  (snd (validate_password_strength password) = "" <->
   fst (validate_password_strength password) = true) /\
  fst (validate_password_strength (lower password)) = false.
Proof.
  split; [|split].
  - rewrite <- !re_search_class_spec. unfold validate_password_strength.
    destruct (String.length password <? 8)%nat eqn:E1.
    + apply Nat.ltb_lt in E1. simpl. split; [discriminate|]. intros [H _]. lia.
    + apply Nat.ltb_ge in E1.
      destruct (re_search_class upper_class password),
               (re_search_class lower_class password),
               (re_search_class digit_class password); simpl;
        intuition discriminate.
  - unfold validate_password_strength.
    destruct (String.length password <? 8)%nat;
      [simpl; split; discriminate|].
    destruct (re_search_class upper_class password),
             (re_search_class lower_class password),
             (re_search_class digit_class password); simpl;
      split; intros H; try discriminate; reflexivity.
  - unfold validate_password_strength. rewrite lower_has_no_upper.
    destruct (String.length (lower password) <? 8)%nat; reflexivity.
Qed.

(** ** Accounts: the Users sheet, sign-up and sign-in *)

Lemma drop_trailing_in (x : string) (cells : list string) :
  x <> "" -> (In x (drop_trailing_empty cells) <-> In x cells).
Proof.
  intros Hx. induction cells as [|c rest IH]; [reflexivity|].
  cbn [drop_trailing_empty].
  destruct (drop_trailing_empty rest) as [|k kept] eqn:E.
  - destruct (String.eqb_spec c "") as [->|Hc]; cbn [In] in *.
    + split; [tauto|]. intros [H|H]; [congruence | tauto].
    + split; [tauto|]. intros [H|H]; [auto | tauto].
  - cbn [In] in *. tauto.
Qed.

Lemma col_values_C_tail (users : list User.t) :
  tl (col_values_C users) = drop_trailing_empty (map User.email users).
Proof.
  unfold col_values_C. cbn [drop_trailing_empty].
  destruct (drop_trailing_empty (map User.email users)); reflexivity.
Qed.

Lemma existsb_eqb_in (x : string) (l : list string) :
  existsb (String.eqb x) l = true <-> In x l.
Proof.
  rewrite existsb_exists. split.
  - intros (y & Hy & E). apply String.eqb_eq in E. now subst.
  - intros H. exists x. split; [exact H | apply String.eqb_refl].
Qed.

Lemma create_user_known (sheets : accounts)
    (new_id created_at full_name email hashed_password : string) :
  email <> "" -> In email (map User.email (users_sheet sheets)) ->
  create_user sheets new_id created_at full_name email hashed_password
  = (None, sheets).
Proof.
  intros Hne Hin. unfold create_user. rewrite col_values_C_tail.
  apply (proj2 (drop_trailing_in email _ Hne)) in Hin.
  apply (proj2 (existsb_eqb_in _ _)) in Hin.
  now rewrite Hin.
Qed.

Lemma create_user_new (sheets : accounts)
    (new_id created_at full_name email hashed_password : string) :
  email <> "" -> ~ In email (map User.email (users_sheet sheets)) ->
  create_user sheets new_id created_at full_name email hashed_password
  = (Some new_id,
     mkAccounts
       (users_sheet sheets
        ++ [User.mk new_id full_name email hashed_password "" "" created_at])%list
       (user_data_sheet sheets ++ [UserData.mk new_id "" "" "{}"])%list).
Proof.
  intros Hne Hin. unfold create_user. rewrite col_values_C_tail.
  destruct (existsb (String.eqb email)
              (drop_trailing_empty (map User.email (users_sheet sheets)))) eqn:E;
    [|reflexivity].
  apply (proj1 (existsb_eqb_in _ _)) in E.
  apply (proj1 (drop_trailing_in email _ Hne)) in E.
  contradiction.
Qed.

Lemma NoDup_snoc {A : Type} (l : list A) (x : A) :
  NoDup l -> ~ In x l -> NoDup (l ++ [x]).
Proof.
  intros Hl Hx. apply (Permutation_NoDup (l := x :: l)).
  - apply Permutation_cons_append.
  - now constructor.
Qed.

(** X24. [create_user], for an email that is not the empty text, refuses
    exactly the emails the sheet holds, then leaving both sheets as they are;
    otherwise it returns the new identifier and adds one row to each of the
    two sheets; and a sheet whose emails are distinct stays such a sheet. *)
Theorem create_user_keeps_emails_unique (sheets : accounts)
    (new_id created_at full_name email hashed_password : string) :
  email <> "" ->
  NoDup (map User.email (users_sheet sheets)) ->
  let result :=
    create_user sheets new_id created_at full_name email hashed_password in
  (fst result = None <-> In email (map User.email (users_sheet sheets))) /\
  (fst result = None -> snd result = sheets) /\
  (fst result <> None ->
   fst result = Some new_id /\
   length (users_sheet (snd result)) = S (length (users_sheet sheets)) /\
   length (user_data_sheet (snd result)) = S (length (user_data_sheet sheets)) /\
   map UserData.user_id (user_data_sheet (snd result))
   = (map UserData.user_id (user_data_sheet sheets) ++ [new_id])%list) /\
  NoDup (map User.email (users_sheet (snd result))).
Proof.
  intros Hne Hnd result. subst result.
  destruct (in_dec string_dec email (map User.email (users_sheet sheets)))
    as [Hin|Hin].
  - rewrite (create_user_known _ _ _ _ _ _ Hne Hin). cbn [fst snd].
    split; [split; auto|]. split; [reflexivity|].
    split; [intros Hno; now contradiction Hno | exact Hnd].
  - rewrite (create_user_new _ _ _ _ _ _ Hne Hin).
    cbn [fst snd users_sheet user_data_sheet].
    split; [split; [discriminate | contradiction]|].
    split; [discriminate|]. split.
    + intros _. rewrite !length_app, map_app. cbn [length map].
      repeat split; lia.
    + rewrite map_app. cbn [map User.email]. now apply NoDup_snoc.
Qed.

Lemma create_user_keeps_emails_unique_example :
  NoDup (map User.email
           (users_sheet
              (snd (create_user
                      (mkAccounts
                         [User.mk "u1" "Ada" "ada@example.com" "$2b$x" "" ""
                                  "2025-01-02 08:00:00"]
                         [UserData.mk "u1" "" "" "{}"])
                      "u2" "2025-01-03 09:00:00" "Bob" "bob@example.com"
                      "$2b$y")))).
Proof.
  refine (proj2 (proj2 (proj2
           (create_user_keeps_emails_unique
              (mkAccounts
                 [User.mk "u1" "Ada" "ada@example.com" "$2b$x" "" ""
                          "2025-01-02 08:00:00"]
                 [UserData.mk "u1" "" "" "{}"])
              "u2" "2025-01-03 09:00:00" "Bob" "bob@example.com" "$2b$y"
              _ _)))).
  - discriminate.
  - simpl. constructor; [simpl; tauto | constructor].
Defined.

(** What "Sign Up" does, by cases: nothing to the sheets, or, all the checks
    of the form passed and the email new, one row more in each sheet. *)
Lemma sign_up_cases (sheets : accounts)
    (new_id created_at hashed_password : string)
    (full_name email password password_confirm : string) :
  let result := sign_up sheets new_id created_at hashed_password
                        full_name email password password_confirm in
  (snd result = sheets /\
   fst result <> "Account created successfully! Please sign in.") \/
  (full_name <> "" /\ email <> "" /\ password <> "" /\
   password = password_confirm /\
   validate_email email = true /\
   fst (validate_password_strength password) = true /\
   ~ In email (map User.email (users_sheet sheets)) /\
   snd result
   = mkAccounts
       (users_sheet sheets
        ++ [User.mk new_id full_name email hashed_password "" "" created_at])%list
       (user_data_sheet sheets ++ [UserData.mk new_id "" "" "{}"])%list /\
   (fst result = "Account created successfully! Please sign in."
    <-> new_id <> "")).
Proof.
  intros result. subst result. unfold sign_up.
  destruct (String.eqb_spec full_name "") as [|Hn];
    [left; split; [reflexivity | discriminate]|].
  destruct (String.eqb_spec email "") as [|He];
    [left; split; [reflexivity | discriminate]|].
  destruct (String.eqb_spec password "") as [|Hp];
    [left; split; [reflexivity | discriminate]|].
  destruct (String.eqb_spec password_confirm "") as [|Hc];
    [left; split; [reflexivity | discriminate]|].
  cbn [orb].
  destruct (String.eqb_spec password password_confirm) as [Heq|Hneq];
    cbn [negb]; [|left; split; [reflexivity | discriminate]].
  destruct (validate_email email) eqn:Hv; cbn [negb];
    [|left; split; [reflexivity | discriminate]].
  destruct (validate_password_strength password) as [is_valid msg] eqn:Hs.
  destruct is_valid; cbn [negb].
  - destruct (in_dec string_dec email (map User.email (users_sheet sheets)))
      as [Hin|Hin].
    + rewrite (create_user_known _ _ _ _ _ _ He Hin).
      left; split; [reflexivity | discriminate].
    + rewrite (create_user_new _ _ _ _ _ _ He Hin).
      right. repeat split; try assumption.
      * destruct (String.eqb new_id ""); reflexivity.
      * destruct (String.eqb_spec new_id "") as [->|Hid];
          cbn [fst]; [discriminate | intros _; exact Hid].
      * intros Hid. destruct (String.eqb_spec new_id "") as [->|_];
          [now contradiction Hid | reflexivity].
  - left. split; [reflexivity|]. cbn [fst].
    unfold validate_password_strength in Hs.
    destruct (String.length password <? 8)%nat;
      [inversion Hs; discriminate|].
    destruct (re_search_class upper_class password); cbn [negb] in Hs;
      [|inversion Hs; discriminate].
    destruct (re_search_class lower_class password); cbn [negb] in Hs;
      [|inversion Hs; discriminate].
    destruct (re_search_class digit_class password); cbn [negb] in Hs;
      inversion Hs; discriminate.
Qed.

Section LoginPageProperties.

Variable numericise : string -> option Q.
Variable checkpw : string -> string -> bool.

Lemma other_emails_not_found (users : list User.t) (email : string) :
  ~ In email (map User.email users) ->
  forallb (fun record =>
             negb (cell_eq_str (UserRecord.email record) email))
          (get_all_records numericise users) = true.
Proof.
  induction users as [|r users IH]; cbn [map In]; intros H; [reflexivity|].
  cbn [get_all_records map forallb UserRecord.email].
  apply andb_true_iff. split.
  - unfold read_cell. destruct (numericise (User.email r)); [reflexivity|].
    cbn [cell_eq_str]. apply negb_true_iff, String.eqb_neq. tauto.
  - apply IH. tauto.
Qed.

(** X25. An account made by "Sign Up" can be signed in to: when the form
    reports success, the email and the hash are not texts the sheet hands
    back as numbers, and the hash checks against the password, "Sign In" with
    the same email and password reports success and leaves a session that is
    logged in, with the new identifier and the email as current user. *)
Theorem sign_up_then_sign_in (sheets : accounts) (state : session_state)
    (new_id created_at hashed_password : string)
    (full_name email password password_confirm : string) :
  numericise email = None ->
  numericise hashed_password = None ->
  checkpw password hashed_password = true ->
  fst (sign_up sheets new_id created_at hashed_password
               full_name email password password_confirm)
  = "Account created successfully! Please sign in." ->
  let sheets' := snd (sign_up sheets new_id created_at hashed_password
                              full_name email password password_confirm) in
  exists state',
    sign_in numericise checkpw sheets' state email password
    = ("Logged in successfully!", state') /\
    is_logged_in state' = SBool true /\
    shows_login_page state' = false /\
    get_current_user_id state' = SValue (read_cell numericise new_id) /\
    get_current_user_email state' = SValue (CStr email).
Proof.
  intros Hemail Hhash Hcheck Hmsg sheets'. subst sheets'.
  pose proof (sign_up_cases sheets new_id created_at hashed_password
                full_name email password password_confirm) as Hcases.
  cbv zeta in Hcases.
  destruct Hcases
    as [[_ Hno]|(Hn & He & Hp & Hpc & Hv & Hs & Hin & Hsheets & Hid)];
    [now contradiction Hno|].
  rewrite Hsheets. unfold sign_in.
  apply String.eqb_neq in He, Hp. rewrite He, Hp. cbn [orb].
  unfold get_user_by_email. cbn [users_sheet].
  unfold get_all_records at 1. rewrite map_app. cbn [map].
  fold (get_all_records numericise (users_sheet sheets)).
  rewrite find_after_none.
  - cbn [UserRecord.hashed_password UserRecord.user_id UserRecord.email
         UserRecord.full_name User.hashed_password User.user_id User.email
         User.full_name].
    unfold read_cell at 1. rewrite Hhash. cbn [verify_password].
    rewrite Hcheck. eexists. split; [reflexivity|].
    repeat split.
    unfold get_current_user_email, read_cell. rewrite Hemail. reflexivity.
  - now apply other_emails_not_found.
  - cbn [UserRecord.email User.email]. unfold read_cell. rewrite Hemail.
    apply String.eqb_refl.
Qed.

End LoginPageProperties.

Lemma sign_up_then_sign_in_example :
  get_current_user_email
    (snd (sign_in numericise_digits checkpw_prefix
            (snd (sign_up (mkAccounts [] []) "u1" "2025-01-02 08:00:00"
                          "$2b$Secret123" "Ada" "ada@example.com"
                          "Secret123" "Secret123"))
            [] "ada@example.com" "Secret123"))
  = SValue (CStr "ada@example.com").
Proof.
  destruct (sign_up_then_sign_in numericise_digits checkpw_prefix
              (mkAccounts [] []) [] "u1" "2025-01-02 08:00:00"
              "$2b$Secret123" "Ada" "ada@example.com" "Secret123" "Secret123"
              eq_refl eq_refl eq_refl eq_refl)
    as (state' & Hin & _ & _ & _ & Hemail).
  rewrite Hin. exact Hemail.
Defined.

(** X26. "Sign Up" keeps the Users sheet well formed: when every email of the
    sheet passes [validate_email] and no email occurs twice, the same holds
    afterwards; and the form changes the sheets only when the two passwords
    are equal, the password passes [validate_password_strength] and the email
    is not in the sheet, the change being one row more in each sheet. *)
Theorem sign_up_keeps_sheet_well_formed (sheets : accounts)
    (new_id created_at hashed_password : string)
    (full_name email password password_confirm : string) :
  Forall (fun r => validate_email (User.email r) = true) (users_sheet sheets) ->
  NoDup (map User.email (users_sheet sheets)) ->
  let sheets' := snd (sign_up sheets new_id created_at hashed_password
                              full_name email password password_confirm) in
  Forall (fun r => validate_email (User.email r) = true) (users_sheet sheets') /\
  NoDup (map User.email (users_sheet sheets')) /\
  (sheets' <> sheets ->
   password = password_confirm /\
   fst (validate_password_strength password) = true /\
   ~ In email (map User.email (users_sheet sheets)) /\
   users_sheet sheets'
   = (users_sheet sheets
      ++ [User.mk new_id full_name email hashed_password "" "" created_at])%list /\
   length (user_data_sheet sheets') = S (length (user_data_sheet sheets))).
Proof.
  intros Hvalid Hnd sheets'. subst sheets'.
  pose proof (sign_up_cases sheets new_id created_at hashed_password
                full_name email password password_confirm) as Hcases.
  cbv zeta in Hcases.
  destruct Hcases
    as [[Hsame _]|(Hn & He & Hp & Hpc & Hv & Hs & Hin & Hsheets & Hid)].
  - rewrite Hsame. repeat split; try assumption; now contradiction H.
  - rewrite Hsheets. cbn [users_sheet user_data_sheet]. split; [|split].
    + apply Forall_app. split; [assumption|]. constructor; [exact Hv | constructor].
    + rewrite map_app. cbn [map User.email]. now apply NoDup_snoc.
    + intros _. rewrite length_app. cbn [length]. repeat split; try assumption. lia.
Qed.

Lemma sign_up_keeps_sheet_well_formed_example :
  NoDup (map User.email
           (users_sheet
              (snd (sign_up
                      (mkAccounts
                         [User.mk "u1" "Ada" "ada@example.com" "$2b$x" "" ""
                                  "2025-01-02 08:00:00"]
                         [UserData.mk "u1" "" "" "{}"])
                      "u2" "2025-01-03 09:00:00" "$2b$y" "Bob"
                      "bob@example.com" "Secret123" "Secret123")))).
Proof.
  refine (proj1 (proj2
           (sign_up_keeps_sheet_well_formed
              (mkAccounts
                 [User.mk "u1" "Ada" "ada@example.com" "$2b$x" "" ""
                          "2025-01-02 08:00:00"]
                 [UserData.mk "u1" "" "" "{}"])
              "u2" "2025-01-03 09:00:00" "$2b$y" "Bob" "bob@example.com"
              "Secret123" "Secret123" _ _))).
  - constructor; [reflexivity | constructor].
  - simpl. constructor; [simpl; tauto | constructor].
Defined.

(** ** The session *)

Lemma lookup_session_default (key k : string) (v : session_value)
    (state : session_state) :
  lookup key (session_default k v state)
  = match lookup key state with
    | Some x => Some x
    | None => if String.eqb key k then Some v else None
    end.
Proof.
  unfold session_default, session_has.
  destruct (lookup k state) as [x|] eqn:E.
  - destruct (lookup key state) eqn:E2; [reflexivity|].
    destruct (String.eqb_spec key k) as [->|_]; [congruence | reflexivity].
  - unfold session_set. cbn [lookup].
    destruct (String.eqb_spec key k) as [->|_].
    + now rewrite E.
    + destruct (lookup key state); reflexivity.
Qed.

(** [init_session_state] gives a value to the keys that have none and leaves
    the others as they are. *)
Lemma init_session_state_lookup (key : string) (state : session_state) :
  lookup key (init_session_state state)
  = match lookup key state with
    | Some x => Some x
    | None => lookup key (init_session_state [])
    end.
Proof.
  unfold init_session_state. rewrite !lookup_session_default.
  cbn [lookup]. destruct (lookup key state); [|reflexivity].
  reflexivity.
Qed.

Lemma logout_user_lookup (key : string) (state : session_state) :
  lookup key (logout_user state)
  = if existsb (String.eqb key) SESSION_KEYS
    then lookup key (init_session_state [])
    else lookup key state.
Proof.
  unfold logout_user, init_session_state. rewrite !lookup_session_default.
  unfold session_set, SESSION_KEYS. cbn [lookup existsb].
  unfold SESSION_LOGGED_IN, SESSION_USER_ID, SESSION_USER_EMAIL,
    SESSION_USER_NAME, SESSION_DATA_CACHE, SESSION_LAST_SYNC.
  destruct (String.eqb_spec key "last_sync") as [->|_]; [reflexivity|].
  destruct (String.eqb_spec key "data_cache") as [->|_]; [reflexivity|].
  destruct (String.eqb_spec key "user_name") as [->|_]; [reflexivity|].
  destruct (String.eqb_spec key "user_email") as [->|_]; [reflexivity|].
  destruct (String.eqb_spec key "user_id") as [->|_]; [reflexivity|].
  destruct (String.eqb_spec key "logged_in") as [->|_]; reflexivity.
Qed.

Lemma init_fresh_other_keys (key : string) :
  existsb (String.eqb key) SESSION_KEYS = false ->
  lookup key (init_session_state []) = None.
Proof.
  unfold init_session_state. rewrite !lookup_session_default.
  unfold SESSION_KEYS. cbn [lookup existsb]. intros E.
  repeat (apply orb_false_iff in E; destruct E as [?H E]).
  repeat match goal with
         | H : String.eqb _ _ = false |- _ => rewrite H; clear H
         end.
  reflexivity.
Qed.

(** X27. Logging out gives the six keys of the session the values a fresh
    session starts with, whatever they were, and touches no other key; the
    login page is shown next; [init_session_state], run at each start of the
    script, changes nothing in a session that has been logged out of, and
    never replaces a value that is there, so a session that is logged in
    stays so. *)
Theorem logout_gives_fresh_session (state : session_state) :
  (forall key, In key SESSION_KEYS ->
     lookup key (logout_user state) = lookup key (init_session_state [])) /\
  (forall key, ~ In key SESSION_KEYS ->
     lookup key (logout_user state) = lookup key state) /\
  shows_login_page (logout_user state) = true /\
  (forall key,
     lookup key (init_session_state (logout_user state))
     = lookup key (logout_user state)) /\
  (forall key v,
     lookup key state = Some v ->
     lookup key (init_session_state state) = Some v) /\
  (forall user_id email full_name,
     is_logged_in (init_session_state (login_user user_id email full_name state))
     = SBool true).
Proof.
  split; [|split; [|split; [|split; [|split]]]].
  - intros key Hin. rewrite logout_user_lookup.
    apply existsb_eqb_in in Hin. now rewrite Hin.
  - intros key Hin. rewrite logout_user_lookup.
    destruct (existsb (String.eqb key) SESSION_KEYS) eqn:E; [|reflexivity].
    apply existsb_eqb_in in E. contradiction.
  - reflexivity.
  - intros key. rewrite init_session_state_lookup, logout_user_lookup.
    destruct (existsb (String.eqb key) SESSION_KEYS) eqn:E.
    + destruct (lookup key (init_session_state [])); reflexivity.
    + destruct (lookup key state); [reflexivity|].
      now apply init_fresh_other_keys.
  - intros key v H. now rewrite init_session_state_lookup, H.
  - intros user_id email full_name. unfold is_logged_in, session_get.
    rewrite init_session_state_lookup. reflexivity.
Qed.


(** ** Month names *)

Lemma digit_code (n : Z) :
  nat_of_ascii (digit n) = Z.to_nat (48 + n mod 10).
Proof.
  unfold digit. apply nat_ascii_embedding.
  pose proof (Z.mod_pos_bound n 10 ltac:(lia)). lia.
Qed.

Lemma digit_is_digit (n : Z) : digit_class (digit n) = true.
Proof.
  unfold digit_class, in_range. rewrite digit_code.
  pose proof (Z.mod_pos_bound n 10 ltac:(lia)).
  apply andb_true_iff. split; apply Nat.leb_le; lia.
Qed.

Lemma digit_value (n : Z) :
  (Z.of_nat (nat_of_ascii (digit n)) - 48 = n mod 10)%Z.
Proof.
  rewrite digit_code. pose proof (Z.mod_pos_bound n 10 ltac:(lia)). lia.
Qed.

Lemma digits_value_pad4 (y : Z) :
  (0 <= y <= 9999)%Z -> digits_value 0 (pad4 y) = y.
Proof.
  intros Hy. unfold pad4, pad2. cbn [digits_value].
  rewrite !digit_value. Z.div_mod_to_equations. lia.
Qed.

(** One character of a class at the head of a pattern. *)
Lemma re_fullmatch_class (p : ascii -> bool) (r : regex) (c : ascii)
    (rest : string) :
  p c = true ->
  re_fullmatch (RSeq (RClass p) r) (String c rest) = re_fullmatch r rest.
Proof.
  intros Hc. apply eq_true_iff_eq. rewrite !re_fullmatch_spec. split.
  - intros H. apply matches_seq in H as (a & b & Hx & Ha & Hb).
    apply matches_class in Ha as (d & -> & _). simpl in Hx.
    inversion Hx; subst. exact Hb.
  - intros H. change (String c rest) with (String c "" ++ rest).
    constructor; [now constructor | exact H].
Qed.

Lemma month_cases (m : Z) :
  (1 <= m <= 12)%Z ->
  In m [1; 2; 3; 4; 5; 6; 7; 8; 9; 10; 11; 12]%Z.
Proof. intros H. cbn [In]. lia. Qed.

(** Reading back the year-month text of a date. *)
Lemma strptime_of_strftime (y m : Z) :
  (1 <= y <= 9999)%Z -> (1 <= m <= 12)%Z ->
  strptime_month_year (pad4 y ++ "-" ++ pad2 m) = Some (y, m).
Proof.
  intros Hy Hm. unfold strptime_month_year.
  assert (Hmatch : re_fullmatch MONTH_YEAR_PATTERN (pad4 y ++ "-" ++ pad2 m)
                   = true).
  { unfold MONTH_YEAR_PATTERN, pad4. unfold pad2 at 1. cbn [append].
    rewrite !re_fullmatch_class by (apply digit_is_digit || reflexivity).
    apply month_cases in Hm. cbn [In] in Hm.
    repeat (destruct Hm as [<-|Hm]; [reflexivity|]). destruct Hm. }
  rewrite Hmatch.
  assert (Hyear : substring 0 4 (pad4 y ++ "-" ++ pad2 m) = pad4 y)
    by reflexivity.
  assert (Hmonth : substring 5 2 (pad4 y ++ "-" ++ pad2 m) = pad2 m)
    by reflexivity.
  rewrite Hyear, Hmonth, digits_value_pad4 by lia.
  assert (Hm' : digits_value 0 (pad2 m) = m).
  { unfold pad2. cbn [digits_value]. rewrite !digit_value.
    Z.div_mod_to_equations. lia. }
  rewrite Hm'. destruct (Z.leb_spec 1 y); [reflexivity | lia].
Qed.

Lemma append_cancel_l (a b c : string) : a ++ b = a ++ c -> b = c.
Proof.
  induction a as [|x a IH]; simpl; intros H; [exact H|].
  inversion H. now apply IH.
Qed.

(** X28. [get_month_name] reads the year-month texts the application writes:
    for a date of the years 1 to 9999, [strptime] gives back the year and the
    month of the text [strftime] made; from the year 1000 on the name is the
    English name of the month, a space and the four digits of the year; and
    two such dates get the same name only when they are of the same month of
    the same year. *)
Theorem get_month_name_of_period (d d' : timestamp) :
  (1000 <= year d <= 9999)%Z -> (1 <= month d <= 12)%Z ->
  (1000 <= year d' <= 9999)%Z -> (1 <= month d' <= 12)%Z ->
  strptime_month_year (strftime_month_year d) = Some (year d, month d) /\
  get_month_name (strftime_month_year d)
  = nth (Z.to_nat (month d - 1)) MONTH_NAMES "" ++ " " ++ pad4 (year d) /\
  (get_month_name (strftime_month_year d)
   = get_month_name (strftime_month_year d') ->
   strftime_month_year d = strftime_month_year d').
Proof.
  intros Hy Hm Hy' Hm'.
  assert (Hname : forall y m, (1000 <= y <= 9999)%Z -> (1 <= m <= 12)%Z ->
            get_month_name (pad4 y ++ "-" ++ pad2 m)
            = nth (Z.to_nat (m - 1)) MONTH_NAMES "" ++ " " ++ pad4 y).
  { intros y m Hy0 Hm0. unfold get_month_name.
    rewrite strptime_of_strftime by lia. unfold strftime_B_Y, strftime_Y.
    destruct (Z.ltb_spec y 1000); [lia | reflexivity]. }
  unfold strftime_month_year.
  split; [apply strptime_of_strftime; lia|].
  split; [now apply Hname|].
  rewrite !Hname by assumption. intros Heq.
  assert (Hsame : month d = month d' /\ pad4 (year d) = pad4 (year d')).
  { apply month_cases in Hm, Hm'. cbn [In] in Hm, Hm'.
    unfold pad4, pad2 in Heq.
    repeat (destruct Hm as [Hm|Hm]; [rewrite <- Hm in * |]);
      try (now destruct Hm);
      repeat (destruct Hm' as [Hm'|Hm']; [rewrite <- Hm' in * |]);
      try (now destruct Hm');
      cbn in Heq; try discriminate Heq;
      (split; [reflexivity|]); unfold pad4, pad2; inversion Heq; reflexivity. }
  destruct Hsame as [-> ->]. reflexivity.
Qed.

Lemma get_month_name_of_period_example :
  get_month_name (strftime_month_year (mkTimestamp 2025 1 15))
  = "January 2025".
Proof.
  refine (proj1 (proj2 (get_month_name_of_period
                          (mkTimestamp 2025 1 15) (mkTimestamp 2025 2 1)
                          _ _ _ _))); simpl; lia.
Defined.

(** ** Top merchants: whatever the arithmetic of the amounts *)

Section AnyArithmetic.

Import Amounts.

Variable A : arithmetic.

Lemma any_group_add_keys (key : string) (v : num A)
    (groups : list (string * state A)) (x : string) :
  In x (map fst (group_add key v groups)) <-> x = key \/ In x (map fst groups).
Proof.
  induction groups as [|[k s] rest IH]; cbn [group_add map fst In].
  - intuition.
  - destruct (String.compare key k) eqn:E; cbn [map fst In].
    + apply String.compare_eq_iff in E. subst k. intuition.
    + intuition.
    + rewrite IH. intuition.
Qed.

Lemma any_group_add_ascending (key : string) (v : num A)
    (groups : list (string * state A)) :
  StronglySorted (fun x y => String.compare (fst x) (fst y) = Lt) groups ->
  StronglySorted (fun x y => String.compare (fst x) (fst y) = Lt)
                 (group_add key v groups).
Proof.
  induction 1 as [|[k s] rest Hrest IH Hall]; cbn [group_add].
  - repeat constructor.
  - destruct (String.compare key k) eqn:E.
    + constructor; [exact Hrest | exact Hall].
    + constructor; [now constructor|].
      constructor; [exact E|].
      eapply Forall_impl; [|exact Hall].
      intros y Hy. cbn [fst] in *. eapply compare_lt_trans; eassumption.
    + constructor; [exact IH|].
      rewrite Forall_forall in *. intros [k' s'] Hin.
      assert (Hk : In k' (map fst (group_add key v rest)))
        by (apply in_map_iff; now exists (k', s')).
      apply any_group_add_keys in Hk as [->|Hk]; cbn [fst].
      * rewrite String.compare_antisym, E. reflexivity.
      * apply in_map_iff in Hk as ([k'' s''] & Heq & Hin'). cbn [fst] in Heq.
        subst k''. exact (Hall _ Hin').
Qed.

Lemma ascending_head_absent (k : string) (s : state A)
    (rest : list (string * state A)) (key : string) :
  Forall (fun y => String.compare (fst (k, s)) (fst y) = Lt) rest ->
  String.compare key k = Lt \/ key = k ->
  ~ In key (map fst rest).
Proof.
  intros Hall Hkey Hin. apply in_map_iff in Hin as ([k' s'] & Heq & Hin).
  cbn [fst] in Heq. subst k'. rewrite Forall_forall in Hall.
  specialize (Hall _ Hin). cbn [fst] in Hall.
  destruct Hkey as [Hlt| ->].
  - pose proof (compare_lt_trans _ _ _ Hlt Hall) as H.
    now apply compare_lt_neq in H.
  - now apply compare_lt_neq in Hall.
Qed.

(** The entries after one more row: the entry of its key has made one step
    with the value, from the state it had or, when the key is new, from the
    start; the others are as they were. *)
Lemma any_group_add_entries (key : string) (v : num A)
    (groups : list (string * state A)) (k : string) (s : state A) :
  StronglySorted (fun x y => String.compare (fst x) (fst y) = Lt) groups ->
  In (k, s) (group_add key v groups) ->
  (k = key /\
   ((exists s0, In (key, s0) groups /\ s = step A s0 v) \/
    (~ In key (map fst groups) /\ s = step A (start A) v))) \/
  (k <> key /\ In (k, s) groups).
Proof.
  induction 1 as [|[k0 s0] rest Hrest IH Hall]; cbn [group_add].
  - intros [Heq|[]]. injection Heq as <- <-. left. split; [reflexivity|].
    right. split; [intros [] | reflexivity].
  - destruct (String.compare key k0) eqn:E.
    + apply String.compare_eq_iff in E. subst k0. intros [Heq|Hin].
      * injection Heq as <- <-. left. split; [reflexivity|]. left.
        exists s0. split; [now left | reflexivity].
      * right. split; [|now right]. intros Hk. subst k.
        apply (ascending_head_absent key s0 rest key Hall); [now right|].
        apply in_map_iff. now exists (key, s).
    + intros [Heq|Hin].
      * injection Heq as <- <-. left. split; [reflexivity|]. right.
        split; [|reflexivity]. cbn [map fst In]. intros [Hk|Hin].
        -- subst k0. rewrite compare_refl in E. discriminate.
        -- now apply (ascending_head_absent k0 s0 rest key Hall); [left|].
      * right. split; [|exact Hin]. intros Hk. subst k.
        destruct Hin as [Heq|Hin].
        -- injection Heq as Hk _. subst k0.
           rewrite compare_refl in E. discriminate.
        -- apply (ascending_head_absent k0 s0 rest key Hall); [now left|].
           apply in_map_iff. now exists (key, s).
    + intros [Heq|Hin].
      * injection Heq as <- <-. right. split; [|now left].
        intros Hk. subst k0. rewrite compare_refl in E. discriminate.
      * destruct (IH Hin) as [[Hk [(s1 & Hs1 & Hs)|[Habs Hs]]]|[Hne Hin']].
        -- left. split; [exact Hk|]. left. exists s1.
           split; [now right | exact Hs].
        -- left. split; [exact Hk|]. right. split; [|exact Hs].
           cbn [map fst In]. intros [Hk0|Hin']; [|contradiction].
           subst k0. rewrite compare_refl in E. discriminate.
        -- right. split; [exact Hne | now right].
Qed.

Lemma group_values_app (key : string) (l1 l2 : list (string * num A)) :
  group_values key (l1 ++ l2)
  = (group_values key l1 ++ group_values key l2)%list.
Proof. unfold group_values. now rewrite filter_app, map_app. Qed.

Lemma group_values_absent (key : string) (rows : list (string * num A)) :
  ~ In key (map fst rows) -> group_values key rows = [].
Proof.
  unfold group_values. induction rows as [|[k v] rows IH]; cbn [map fst In filter];
    intros H; [reflexivity|].
  destruct (String.eqb_spec k key) as [->|_]; [tauto|]. apply IH. tauto.
Qed.

Lemma group_values_one (k key : string) (v : num A) :
  group_values k [(key, v)] = if String.eqb key k then [v] else [].
Proof.
  unfold group_values. cbn [filter fst].
  destruct (String.eqb key k); reflexivity.
Qed.

Lemma ascending_nodup (groups : list (string * state A)) :
  StronglySorted (fun x y => String.compare (fst x) (fst y) = Lt) groups ->
  NoDup (map fst groups).
Proof.
  induction 1 as [|[k s] rest _ IH Hall]; cbn [map fst]; constructor;
    [|exact IH].
  now apply (ascending_head_absent k s rest k Hall); right.
Qed.

Lemma any_group_add_grouped (key : string) (v : num A)
    (done : list (string * num A)) (groups : list (string * state A)) :
  grouped done groups ->
  grouped (done ++ [(key, v)]) (group_add key v groups).
Proof.
  intros (Hsorted & Hkeys & Hvalues). split; [|split].
  - now apply any_group_add_ascending.
  - intros x. rewrite any_group_add_keys, map_app, in_app_iff, Hkeys.
    cbn [map fst In]. intuition.
  - intros k s Hin. rewrite group_values_app, group_values_one.
    rewrite fold_left_app.
    destruct (any_group_add_entries key v groups k s Hsorted Hin)
      as [[Hk [(s0 & Hs0 & Hs)|[Habs Hs]]]|[Hne Hin']];
      [subst k s | subst k s |].
    + rewrite String.eqb_refl. cbn [fold_left].
      now rewrite <- (Hvalues key s0 Hs0).
    + rewrite String.eqb_refl. cbn [fold_left].
      rewrite group_values_absent by (rewrite <- Hkeys; exact Habs).
      reflexivity.
    + assert (Hk : String.eqb key k = false)
        by (apply String.eqb_neq; congruence).
      rewrite Hk. cbn [fold_left]. now apply Hvalues.
Qed.

Lemma any_fold_grouped (rows done : list (string * num A))
    (groups : list (string * state A)) :
  grouped done groups ->
  grouped (done ++ rows)
          (fold_left (fun groups r => group_add (fst r) (snd r) groups)
                     rows groups).
Proof.
  revert done groups. induction rows as [|[k v] rows IH]; intros done groups H;
    cbn [fold_left fst snd].
  - now rewrite app_nil_r.
  - change ((k, v) :: rows) with ([(k, v)] ++ rows)%list.
    rewrite app_assoc. apply IH. now apply any_group_add_grouped.
Qed.

(** [running_sums] gives the running sums of its rows. *)
Lemma any_running_sums_grouped (rows : list (string * num A)) :
  grouped rows (running_sums rows).
Proof.
  unfold running_sums. apply (any_fold_grouped rows [] []).
  split; [constructor|]. split; [reflexivity | intros k s []].
Qed.

Lemma any_rank_insert_perm (x : string * num A)
    (ranked : list (string * num A)) :
  Permutation (rank_insert x ranked) (x :: ranked).
Proof.
  induction ranked as [|y rest IH]; cbn [rank_insert]; [reflexivity|].
  destruct (le A (snd y) (snd x)); [reflexivity|].
  rewrite IH. apply perm_swap.
Qed.

Lemma any_sort_values_desc_perm (series : list (string * num A)) :
  Permutation (sort_values_desc series) series.
Proof.
  induction series as [|x rest IH]; cbn [sort_values_desc]; [reflexivity|].
  now rewrite any_rank_insert_perm, IH.
Qed.

(** The rows [get_top_merchants] groups. *)
Lemma any_expense_rows (df : list (row A)) :
  map (fun r => (payee r, amount r))
      (map (fun r => mkRow A (payee r) (absolute A (amount r)))
           (filter is_expense df))
  = map (fun r => (payee r, absolute A (amount r))) (filter is_expense df).
Proof. now rewrite map_map. Qed.

Lemma any_spent_at_rows (p : string) (df : list (row A)) :
  group_values p
    (map (fun r => (payee r, absolute A (amount r))) (filter is_expense df))
  = spent_at p df.
Proof.
  unfold group_values, spent_at.
  induction df as [|r rest IH]; cbn [filter map]; [reflexivity|].
  destruct (is_expense r); cbn [filter map andb fst]; [|exact IH].
  destruct (String.eqb (payee r) p); cbn [map snd]; [f_equal|]; exact IH.
Qed.

(** The values of the rows, key by key, are the values of the rows. *)
Lemma group_values_partition (rows : list (string * num A))
    (keys : list string) :
  NoDup keys ->
  (forall r, In r rows -> In (fst r) keys) ->
  Permutation (flat_map (fun k => group_values k rows) keys) (map snd rows).
Proof.
  intros Hnd. induction rows as [|[k v] rows IH]; intros Hin.
  - cbn [map]. clear Hin. induction keys as [|x keys IHk]; cbn [flat_map];
      [constructor|].
    inversion Hnd; subst. now apply IHk.
  - assert (Hk : In k keys) by (apply (Hin (k, v)); now left).
    apply in_split in Hk as (l1 & l2 & ->).
    assert (Hout : ~ In k l1 /\ ~ In k l2).
    { apply NoDup_remove_2 in Hnd. rewrite in_app_iff in Hnd. tauto. }
    assert (Hsame : forall l, ~ In k l ->
              flat_map (fun x => group_values x ((k, v) :: rows)) l
              = flat_map (fun x => group_values x rows) l).
    { induction l as [|x l IHl]; cbn [flat_map In]; intros Hx; [reflexivity|].
      rewrite IHl by tauto. f_equal. unfold group_values. cbn [filter fst].
      destruct (String.eqb_spec k x) as [->|_]; [tauto | reflexivity]. }
    rewrite flat_map_app. cbn [flat_map].
    rewrite !Hsame by tauto.
    assert (Hhead : group_values k ((k, v) :: rows) = v :: group_values k rows).
    { unfold group_values. cbn [filter fst]. now rewrite String.eqb_refl. }
    rewrite Hhead, <- app_comm_cons, <- Permutation_middle. cbn [map snd].
    constructor.
    specialize (IH (fun r Hr => Hin r (or_intror Hr))).
    rewrite flat_map_app in IH. exact IH.
Qed.

(** C9, amended. With [n] the number of distinct payees among the expenses,
    whatever the arithmetic of the amounts: [get_top_merchants] returns one
    row for each payee with an expense, the "Total Spent" of a row is the sum
    of the absolute values of the expenses of its payee, in row order, and
    every expense is counted in one row and one only: the totals are sums of
    the same numbers as the sum of all the absolute amounts, added in another
    grouping. *)
Theorem top_merchants_counts_every_expense (df : list (row A)) :
  let top := get_top_merchants df (Z.of_nat (distinct_expense_payees df)) in
  length top = distinct_expense_payees df /\
  NoDup (map fst top) /\
  (forall p, In p (map fst top) <-> In p (expense_payees df)) /\
  (forall p total,
     In (p, total) top -> total = sum_in_order (spent_at p df)) /\
  Permutation (flat_map (fun r => spent_at (fst r) df) top) (spent df).
Proof.
  intros top.
  set (rows := map (fun r => (payee r, absolute A (amount r)))
                   (filter is_expense df)).
  destruct (any_running_sums_grouped rows) as (Hsorted & Hkeys & Hvalues).
  set (groups := groupby_sum rows).
  assert (Hfst : map fst groups = map fst (running_sums rows)).
  { unfold groups, groupby_sum. rewrite map_map. reflexivity. }
  pose proof (any_sort_values_desc_perm groups) as Hperm.
  assert (Hpayees : map fst rows = expense_payees df).
  { unfold rows, expense_payees. now rewrite map_map. }
  assert (Hnd : NoDup (map fst groups))
    by (rewrite Hfst; now apply ascending_nodup).
  assert (Hlen : length (sort_values_desc groups) = distinct_expense_payees df).
  { rewrite (Permutation_length Hperm), <- (length_map fst groups).
    unfold distinct_expense_payees. rewrite <- Hpayees.
    apply Permutation_length, NoDup_Permutation;
      [exact Hnd | apply NoDup_nodup|].
    intros x. now rewrite Hfst, Hkeys, nodup_In. }
  assert (Htop : top = sort_values_desc groups).
  { unfold top, get_top_merchants. cbv zeta. rewrite any_expense_rows.
    fold rows. fold groups. rewrite <- Hlen. apply head_all. }
  assert (Hnd' : NoDup (map fst top)).
  { rewrite Htop.
    apply (Permutation_NoDup (Permutation_sym (Permutation_map fst Hperm))).
    exact Hnd. }
  assert (Htotals : forall p total,
             In (p, total) top -> total = sum_in_order (spent_at p df)).
  { intros p total Hin. rewrite Htop in Hin.
    apply (Permutation_in _ Hperm) in Hin.
    unfold groups, groupby_sum in Hin.
    apply in_map_iff in Hin as ([k s] & Heq & Hin). cbn [fst snd] in Heq.
    injection Heq as -> <-.
    rewrite (Hvalues p s Hin). unfold sum_in_order, rows.
    now rewrite any_spent_at_rows. }
  split; [now rewrite Htop|]. split; [exact Hnd'|]. split; [|split].
  - intros p. rewrite Htop, <- Hpayees, <- Hkeys, <- Hfst. split; intros H.
    + now apply (Permutation_in _ (Permutation_map fst Hperm)).
    + now apply (Permutation_in _ (Permutation_sym (Permutation_map fst Hperm))).
  - exact Htotals.
  - assert (Hflat : flat_map (fun r => spent_at (fst r) df) top
                    = flat_map (fun k => group_values k rows) (map fst top)).
    { clear. induction top as [|r l IH]; cbn [flat_map map]; [reflexivity|].
      rewrite IH. f_equal. unfold rows. now rewrite any_spent_at_rows. }
    rewrite Hflat.
    assert (Hspent : spent df = map snd rows)
      by (unfold spent, rows; now rewrite map_map).
    rewrite Hspent. apply group_values_partition; [exact Hnd'|].
    intros r Hr. rewrite Htop.
    apply (Permutation_in _ (Permutation_sym (Permutation_map fst Hperm))).
    rewrite Hfst. apply Hkeys. now apply in_map.
Qed.

End AnyArithmetic.

(** The definitions with rational amounts are the ones above, taken at the
    arithmetic of the rationals. *)
Lemma Qplus_zero_left (v : Q) : (0 + v)%Q = v.
Proof.
  destruct v as [n d]. unfold Qplus. cbn [Qnum Qden].
  f_equal. rewrite Z.mul_1_r. reflexivity.
Qed.

Lemma group_add_over_rationals (key : string) (v : Q)
    (groups : list (string * Q)) :
  Amounts.group_add (A := Amounts.rationals) key v groups
  = group_add key v groups.
Proof.
  induction groups as [|[k s] rest IH]; cbn [Amounts.group_add group_add].
  - cbn [Amounts.step Amounts.start Amounts.rationals].
    now rewrite Qplus_zero_left.
  - destruct (String.compare key k);
      cbn [Amounts.step Amounts.start Amounts.rationals].
    + reflexivity.
    + now rewrite Qplus_zero_left.
    + now rewrite IH.
Qed.

Lemma groupby_sum_over_rationals (rows : list (string * Q)) :
  Amounts.groupby_sum (A := Amounts.rationals) rows = groupby_sum rows.
Proof.
  unfold Amounts.groupby_sum, Amounts.running_sums, groupby_sum.
  assert (H : forall groups : list (string * Q),
             fold_left (fun groups r =>
                          Amounts.group_add (A := Amounts.rationals)
                                            (fst r) (snd r) groups)
                       rows groups
             = fold_left (fun groups row =>
                            group_add (fst row) (snd row) groups)
                         rows groups).
  { induction rows as [|r rows IH]; intros groups; cbn [fold_left];
      [reflexivity|].
    now rewrite group_add_over_rationals, IH. }
  rewrite H.
  assert (Hid : forall l : list (string * Q),
             map (fun g => (fst g, snd g)) l = l).
  { induction l as [|[k s] l IH]; cbn [map fst snd]; [reflexivity|].
    now rewrite IH. }
  apply Hid.
Qed.

Lemma sort_values_desc_over_rationals (series : list (string * Q)) :
  Amounts.sort_values_desc (A := Amounts.rationals) series
  = sort_values_desc series.
Proof.
  induction series as [|x rest IH];
    cbn [Amounts.sort_values_desc sort_values_desc]; [reflexivity|].
  rewrite IH. generalize (sort_values_desc rest). intros ranked.
  induction ranked as [|y ranked IHr];
    cbn [Amounts.rank_insert rank_insert]; [reflexivity|].
  cbn [Amounts.le Amounts.rationals]. now rewrite IHr.
Qed.

Lemma get_top_merchants_over_rationals (df : list Transaction.t) (n : Z) :
  map (fun e => mkMerchant (fst e) (snd e))
      (Amounts.get_top_merchants (map Amounts.of_transaction df) n)
  = get_top_merchants df n.
Proof.
  rewrite top_merchants_rows, head_map. unfold Amounts.get_top_merchants.
  cbv zeta. f_equal. f_equal.
  rewrite sort_values_desc_over_rationals, groupby_sum_over_rationals.
  do 2 f_equal. rewrite map_map.
  induction df as [|t rest IH]; cbn [map filter]; [reflexivity|].
  change (Amounts.is_expense (Amounts.of_transaction t)) with (is_expense t).
  destruct (is_expense t); cbn [map]; now rewrite IH.
Qed.

(** C9, as stated, fails on the amounts the program holds: for the expenses
    0.1 and 0.6 at "Cafe" and 0.2 at "Metro", the two totals, 0.7 and 0.2, add
    up to 0.8999999999999999, and the absolute amounts in row order add up to
    0.9, be it with the plain sum or with the sum pandas uses for a group.
    The totals and the amounts do not add up to the same number either when
    the numbers they stand for are added without rounding, since the total
    of "Cafe" is rounded. *)
#[warnings="-inexact-float"]
Lemma top_merchants_total_rounds :
  Amounts.distinct_expense_payees Amounts.rounding_frame = 2%nat /\
  Amounts.get_top_merchants Amounts.rounding_frame 2
  = [("Cafe", 0.7%float); ("Metro", 0.2%float)] /\
  Amounts.float_sum
    (map snd (Amounts.get_top_merchants Amounts.rounding_frame 2))
  = 0.8999999999999999%float /\
  Amounts.float_sum (Amounts.spent Amounts.rounding_frame) = 0.9%float /\
  PrimFloat.abs
    (Amounts.float_sum
       (map Amounts.amount
            (filter Amounts.is_expense Amounts.rounding_frame)))
  = 0.9%float /\
  Amounts.sum_in_order (A := Amounts.binary64)
    (map snd (Amounts.get_top_merchants Amounts.rounding_frame 2))
  = 0.8999999999999999%float /\
  Amounts.sum_in_order (A := Amounts.binary64)
    (Amounts.spent Amounts.rounding_frame)
  = 0.9%float /\
  PrimFloat.eqb 0.8999999999999999%float 0.9%float = false /\
  ~ (Qsum (map Amounts.exact_value
               (map snd (Amounts.get_top_merchants Amounts.rounding_frame 2)))
     == Qsum (map Amounts.exact_value (Amounts.spent Amounts.rounding_frame)))%Q.
Proof.
  repeat split; try (vm_compute; reflexivity).
  vm_compute. discriminate.
Qed.

(** ** Monthly summary: the frames of the loader *)

(** C5. [calculate_monthly_summary] raises on the frames the loader returns
    for a user without transactions, instead of returning the summary of
    zeros: [df['date']] is evaluated before the number of rows is looked at.
    For a sheet without records the loader returns the frame without
    columns, and the call raises [KeyError]; for a sheet with records of
    other users only, the [date] column holds no dates and the call raises
    [AttributeError]. On the frames whose dates are converted the function
    returns its summary. *)
Theorem monthly_summary_raises_on_empty_frame (titles : list string)
    (user_id month_year : string) :
  Frame.load_user_transactions (mkSheet titles []) user_id = Frame.Empty /\
  Frame.calculate_monthly_summary
    (Frame.load_user_transactions (mkSheet titles []) user_id) month_year
  = inl (KeyError "date") /\
  (forall sheet,
     data sheet <> [] ->
     load_user_transactions sheet user_id = [] ->
     exists message,
       Frame.calculate_monthly_summary
         (Frame.load_user_transactions sheet user_id) month_year
       = inl (AttributeError message)) /\
  (forall sheet,
     load_user_transactions sheet user_id <> [] ->
     Frame.calculate_monthly_summary
       (Frame.load_user_transactions sheet user_id) month_year
     = inr (calculate_monthly_summary
              (load_user_transactions sheet user_id) month_year)).
Proof.
  split; [reflexivity|]. split; [reflexivity|]. split.
  - intros sheet Hdata Hnone. unfold Frame.load_user_transactions.
    unfold load_user_transactions in Hnone.
    destruct (data sheet) as [|r rest] eqn:E; [contradiction|].
    destruct (filter _ (r :: rest)) as [|x df] eqn:F.
    + eexists. reflexivity.
    + exfalso. pose proof (sort_by_date_desc_perm (x :: df)) as Hp.
      rewrite Hnone in Hp. exact (Permutation_nil_cons Hp).
  - intros sheet Hsome. unfold Frame.load_user_transactions.
    unfold load_user_transactions in *.
    destruct (data sheet) as [|r rest] eqn:E; [now contradiction Hsome|].
    destruct (filter _ (r :: rest)) as [|x df] eqn:F;
      [now contradiction Hsome | reflexivity].
Qed.
